(** * simulation-adapter: a shallow embedding of the batch energy simulation
      (mm_final_energy_sim.py) and of its run adapter (simulation_adapter.py)

    Python values are modelled as follows.
    - [str] is [string], for ASCII text: the case mappings, [strip], [\d] and
      [re.IGNORECASE] are those of Python on the characters below code 128
      (artifact names, report phrases and header cells are ASCII); a
      character above code 127 is left as it is by [char_upper] and
      [char_lower], is no space and no digit. [ascii_text] tells the strings
      on which this is all of Python's behaviour, and a statement about
      names that Python would not share for other text is made for them.
    - [float] is the kernel's binary64 [float]; [int] is [Z]; indices are [nat].
    - a function that can raise returns a [result]; an exception carries its
      class and its message, and [is_Exception] tells the classes that
      [except Exception] catches from [SystemExit], which it does not.
    - dictionaries are [gmap]s; the worksheet is a [gmap] from (row, column)
      to cell values; the bucket is a [gmap] from keys to objects.
    - the external collaborators (the [float] and [csv.reader] builtins, the
      EnergyPlus process) are variables of the sections that use them. *)

From Stdlib Require Import ZArith Ascii.
From Stdlib Require String.
From Stdlib Require Import Floats.PrimFloat.
From Stdlib Require Uint63.
From stdpp Require Import gmap strings list sorting.

Local Open Scope Z_scope.

(** ** Exceptions and results *)

(** The exception classes the two modules meet. [StorageError] stands for
    what the storage client and the workbook loader raise ([ClientError],
    [BadZipFile]), [TimeoutExpired] for the engine that runs out of time,
    [DatabaseError] for [sqlite3.DatabaseError] and its subclass
    [sqlite3.OperationalError]. *)
Inductive exc_class :=
  | ValueError | RuntimeError | KeyError | AttributeError | IndexError
  | StopIteration | TimeoutExpired | StorageError | DatabaseError | SystemExit.

(** [issubclass(c, Exception)]: [SystemExit] derives from [BaseException]
    only. *)
Definition is_Exception (c : exc_class) : bool :=
  match c with
  | SystemExit => false
  | _ => true
  end.

Record exn := Exn { exn_class : exc_class; exn_msg : string }.

Inductive result (A : Type) :=
  | Ok (a : A)
  | Raise (e : exn).
Arguments Ok {A} a.
Arguments Raise {A} e.

#[global] Instance result_ret : MRet result := @Ok.
#[global] Instance result_fmap : FMap result := λ A B f m,
  match m with
  | Ok a => Ok (f a)
  | Raise e => Raise e
  end.
#[global] Instance result_bind : MBind result := λ A B f m,
  match m with
  | Ok a => f a
  | Raise e => Raise e
  end.

(** ** Python's [str] methods on ASCII text *)

Definition code (c : ascii) : N := N_of_ascii c.

Definition between (lo hi c : ascii) : bool :=
  ((code lo <=? code c) && (code c <=? code hi))%N.

Definition char_upper (c : ascii) : ascii :=
  if between "a" "z" c then ascii_of_N (code c - 32) else c.

Definition char_lower (c : ascii) : ascii :=
  if between "A" "Z" c then ascii_of_N (code c + 32) else c.

Fixpoint str_map (f : ascii → ascii) (s : string) : string :=
  match s with
  | EmptyString => EmptyString
  | String c t => String (f c) (str_map f t)
  end.

Definition str_upper : string → string := str_map char_upper.
Definition str_lower : string → string := str_map char_lower.

(** [str.isspace] on ASCII: tab, LF, VT, FF, CR, the four separators
    FS GS RS US, and the space. The spaces Python knows beyond ASCII (NEL,
    the no-break space, the Unicode separators) are not modelled. *)
Definition is_space (c : ascii) : bool :=
  between "009" "013" c || between "028" "031" c || Ascii.eqb c " ".

Fixpoint str_lstrip (s : string) : string :=
  match s with
  | EmptyString => EmptyString
  | String c t => if is_space c then str_lstrip t else s
  end.

Fixpoint str_rstrip (s : string) : string :=
  match s with
  | EmptyString => EmptyString
  | String c t =>
      match str_rstrip t with
      | EmptyString => if is_space c then EmptyString else String c EmptyString
      | t' => String c t'
      end
  end.

Definition str_strip (s : string) : string := str_rstrip (str_lstrip s).

(** [s.isascii()]: every character of the text is below code 128. *)
Fixpoint ascii_text (s : string) : bool :=
  match s with
  | EmptyString => true
  | String c t => (code c <? 128)%N && ascii_text t
  end.

(** [s.startswith(old)] *)
Fixpoint str_startswith (old s : string) : bool :=
  match old with
  | EmptyString => true
  | String a old' =>
      match s with
      | EmptyString => false
      | String b s' => Ascii.eqb a b && str_startswith old' s'
      end
  end.

(** [old in s] *)
Fixpoint str_contains (old s : string) : bool :=
  str_startswith old s ||
  match s with
  | EmptyString => false
  | String _ t => str_contains old t
  end.

(** [s.replace(old, new)] for a non-empty [old]: a left-to-right scan that
    replaces each occurrence and resumes after it. [skip] counts the
    characters of the occurrence still to be passed over. *)
Fixpoint replace_from (old new : string) (skip : nat) (s : string) : string :=
  match s with
  | EmptyString => EmptyString
  | String c t =>
      match skip with
      | S k => replace_from old new k t
      | O =>
          if str_startswith old s
          then new +:+ replace_from old new (String.length old - 1) t
          else String c (replace_from old new 0 t)
      end
  end.

(** With an empty [old] Python puts [new] before every character and at the
    end. *)
Fixpoint interleave (new s : string) : string :=
  match s with
  | EmptyString => new
  | String c t => new +:+ String c (interleave new t)
  end.

Definition str_replace (old new s : string) : string :=
  match old with
  | EmptyString => interleave new s
  | _ => replace_from old new 0 s
  end.

Definition str_endswith (suffix s : string) : bool :=
  str_startswith (String.rev suffix) (String.rev s).

(** [s.rsplit("/", 1)[-1]]: what follows the last slash, or all of [s]. *)
Fixpoint basename (s : string) : string :=
  match s with
  | EmptyString => EmptyString
  | String c t =>
      if str_contains "/" t then basename t
      else if Ascii.eqb c "/" then t else s
  end.

(** [s.rstrip("/")] *)
Fixpoint rstrip_slash (s : string) : string :=
  match s with
  | EmptyString => EmptyString
  | String c t =>
      match rstrip_slash t with
      | EmptyString => if Ascii.eqb c "/" then EmptyString else String c EmptyString
      | t' => String c t'
      end
  end.

(** [int(s)] on a string of ASCII digits. *)
Definition digit_value (c : ascii) : option Z :=
  if between "0" "9" c then Some (Z.of_N (code c - 48)) else None.

Fixpoint int_digits (acc : Z) (s : string) : option Z :=
  match s with
  | EmptyString => Some acc
  | String c t =>
      match digit_value c with
      | Some d => int_digits (10 * acc + d) t
      | None => None
      end
  end.

Definition py_int (s : string) : result Z :=
  match s with
  | EmptyString => Raise (Exn ValueError "invalid literal for int()")
  | _ =>
      match int_digits 0 s with
      | Some z => Ok z
      | None => Raise (Exn ValueError "invalid literal for int()")
      end
  end.

(** [str(n)] for an integer. *)
Definition digit_char (d : Z) : ascii := ascii_of_N (Z.to_N d + 48).

Fixpoint nat_digits (fuel : nat) (n : Z) (acc : string) : string :=
  match fuel with
  | O => acc
  | S fuel' =>
      let acc' := String (digit_char (n mod 10)) acc in
      if n <? 10 then acc' else nat_digits fuel' (n / 10) acc'
  end.

Definition str_of_int (z : Z) : string :=
  if z <? 0 then "-" +:+ nat_digits (S (Z.to_nat (Z.log2 (- z)))) (- z) ""
  else nat_digits (S (Z.to_nat (Z.log2 z))) z "".

(** ** Regular expressions: the fragment of [re] the two patterns use

    A backtracking matcher in continuation-passing style, alternatives tried
    from left to right as [re] does. [pos] is the number of characters already
    consumed, [s] what remains. The matcher is that of [re] on ASCII text:
    [\d] is a digit from 0 to 9 and [re.IGNORECASE] folds the letters from a
    to z; on other text [re] also takes the decimal digits of other scripts
    for [\d] and the dotted and the dotless i of Turkish for an i. *)

Inductive regex :=
  | REmpty                               (* the empty pattern *)
  | RChar (c : ascii)                    (* a literal character *)
  | RSet (ranges : list (ascii * ascii)) (* [...]: a union of ranges *)
  | RDigit                               (* \d *)
  | RSeq (r1 r2 : regex)
  | RAlt (r1 r2 : regex)                 (* r1|r2 *)
  | ROpt (r : regex)                     (* r?, greedy *)
  | RGroup (n : nat) (r : regex)         (* the n-th capturing group *)
  | RBol                                 (* ^ *)
  | REol.                                (* $ *)

Definition in_ranges (ranges : list (ascii * ascii)) (c : ascii) : bool :=
  existsb (fun r => between (fst r) (snd r) c) ranges.

(** A literal and a set under [re.IGNORECASE]. *)
Definition char_matches (ignorecase : bool) (c x : ascii) : bool :=
  if ignorecase then Ascii.eqb (char_lower c) (char_lower x) else Ascii.eqb c x.

Definition set_matches (ignorecase : bool) (ranges : list (ascii * ascii)) (x : ascii) : bool :=
  in_ranges ranges x ||
  (ignorecase && (in_ranges ranges (char_lower x) || in_ranges ranges (char_upper x))).

Fixpoint str_take (n : nat) (s : string) : string :=
  match n, s with
  | S n', String c t => String c (str_take n' t)
  | _, _ => EmptyString
  end.

Definition captures := gmap nat string.

Fixpoint rmatch (ic : bool) (r : regex) (pos : nat) (s : string) (caps : captures)
    (k : nat → string → captures → option captures) : option captures :=
  match r with
  | REmpty => k pos s caps
  | RChar c =>
      match s with
      | String x t => if char_matches ic c x then k (S pos) t caps else None
      | EmptyString => None
      end
  | RSet ranges =>
      match s with
      | String x t => if set_matches ic ranges x then k (S pos) t caps else None
      | EmptyString => None
      end
  | RDigit =>
      match s with
      | String x t => if between "0" "9" x then k (S pos) t caps else None
      | EmptyString => None
      end
  | RSeq r1 r2 =>
      rmatch ic r1 pos s caps (fun pos' s' caps' => rmatch ic r2 pos' s' caps' k)
  | RAlt r1 r2 =>
      match rmatch ic r1 pos s caps k with
      | Some c => Some c
      | None => rmatch ic r2 pos s caps k
      end
  | ROpt r1 =>
      match rmatch ic r1 pos s caps k with
      | Some c => Some c
      | None => k pos s caps
      end
  | RGroup n r1 =>
      rmatch ic r1 pos s caps
        (fun pos' s' caps' => k pos' s' (<[n := str_take (pos' - pos) s]> caps'))
  | RBol => if Nat.eqb pos 0 then k pos s caps else None
  | REol =>
      (* the end of the string, or just before a newline that ends it *)
      match s with
      | EmptyString => k pos s caps
      | String "010" EmptyString => k pos s caps
      | _ => None
      end
  end.

(** [pattern.match(s)]: a match that starts at the beginning of [s]. *)
Definition re_match (ic : bool) (r : regex) (s : string) : option captures :=
  rmatch ic r 0 s ∅ (fun _ _ caps => Some caps).

(** A run of literal characters, and a sequence of patterns. *)
Fixpoint RLit (s : string) : regex :=
  match s with
  | EmptyString => REmpty
  | String c t => RSeq (RChar c) (RLit t)
  end.

Fixpoint RSeqs (rs : list regex) : regex :=
  match rs with
  | [] => REmpty
  | r :: rs' => RSeq r (RSeqs rs')
  end.

(** ** mm_final_energy_sim.py: names *)

Definition YEARS_START : Z := 2025.
Definition YEARS_END : Z := 2084.

(** The year token [(20[2-7]\d|208[0-4])], group [n]. *)
Definition year_token (n : nat) : regex :=
  RGroup n
    (RAlt (RSeqs [RLit "20"; RSet [("2", "7")]; RDigit])
          (RSeqs [RLit "208"; RSet [("0", "4")]]))%char.

(** [^(RCP(?:8\.5|4\.5|2\.6))_([EFT](?:[12]?\d|2[0-8]))_(20[2-7]\d|208[0-4])\.idf$]
    compiled with [re.IGNORECASE]. *)
Definition IDF_NAME_RE : regex :=
  RSeqs
    [ RBol;
      RGroup 1 (RSeq (RLit "RCP") (RAlt (RLit "8.5") (RAlt (RLit "4.5") (RLit "2.6"))));
      RChar "_";
      RGroup 2
        (RSeq (RSet [("E", "E"); ("F", "F"); ("T", "T")])
              (RAlt (RSeq (ROpt (RSet [("1", "1"); ("2", "2")])) RDigit)
                    (RSeq (RChar "2") (RSet [("0", "8")]))));
      RChar "_";
      year_token 3;
      RLit ".idf";
      REol ]%char.

(** [^Rotterdam_(RCP(?:85|45|26))_(20[2-7]\d|208[0-4])\.epw$], also with
    [re.IGNORECASE]. *)
Definition EPW_NAME_RE : regex :=
  RSeqs
    [ RBol;
      RLit "Rotterdam_";
      RGroup 1 (RSeq (RLit "RCP") (RAlt (RLit "85") (RAlt (RLit "45") (RLit "26"))));
      RChar "_";
      year_token 2;
      RLit ".epw";
      REol ]%char.

Definition map_rcp_dot_to_nodot (rcp : string) : string :=
  let rcp := str_replace " " "" (str_upper rcp) in
  str_replace "2.6" "26" (str_replace "4.5" "45" (str_replace "8.5" "85" rcp)).

(** [m.groups()] of a match with three groups; a group that took no part is
    [None], on which the caller's [.upper()] has no meaning. *)
Definition group (caps : captures) (n : nat) : result string :=
  match caps !! n with
  | Some g => Ok g
  | None => Raise (Exn AttributeError "'NoneType' object has no attribute 'upper'")
  end.

Definition parse_idf_filename (name : string) : result (string * string * Z) :=
  match re_match true IDF_NAME_RE name with
  | None => Raise (Exn ValueError ("Unrecognized IDF filename: " +:+ name))
  | Some m =>
      rcp_dot ← group m 1;
      aging ← group m 2;
      year_str ← group m 3;
      year ← py_int year_str;
      Ok (str_upper rcp_dot, str_upper aging, year)
  end.


(** ** mm_final_energy_sim.py: metric extraction *)

Definition metrics : Type := option float * option float.

(** The three candidate files of an output directory, and the accesses the
    extraction makes to them. *)
Inductive out_file := eplusout_sql | eplustbl_tab | eplustbl_csv.

Inductive fs_event :=
  | PathExists (f : out_file)   (* os.path.exists *)
  | OpenFile (f : out_file).    (* open / sqlite3.connect *)

(** A row of the table [TabularDataWithStrings], with the columns the two
    queries name; [Value] is [None] for SQL NULL. *)
Record tabular_row := TabularRow {
  TableName : string;
  RowName : string;
  ColumnName : string;
  Value : option string
}.

(** The structured file [eplusout.sql]: a database that has the table
    [TabularDataWithStrings], as the rows of that table; or a file on which
    the queries raise, with the message of [sqlite3] (a file that is not a
    database, a database without the table). *)
Inductive sqlite_file :=
  | Queryable (table : list tabular_row)
  | Unqueryable (message : string).

(** An output directory: the structured file, and the two reports as their
    text. *)
Record outdir := OutDir {
  sql_file : option sqlite_file;
  tab_file : option string;
  csv_file : option string
}.

(** A computation that reads the output directory: its outcome and the
    accesses it made, in order. *)
Record traced (A : Type) := Traced { outcome : result A; events : list fs_event }.
Arguments Traced {A} outcome events.
Arguments outcome {A} t.
Arguments events {A} t.

#[global] Instance traced_ret : MRet traced := λ A a, Traced (Ok a) [].
#[global] Instance traced_bind : MBind traced := λ A B f m,
  match outcome m with
  | Ok a => let m' := f a in Traced (outcome m') (events m ++ events m')
  | Raise e => Traced (Raise e) (events m)
  end.

Definition access {A} (ev : fs_event) (a : A) : traced A := Traced (Ok a) [ev].
Definition lift {A} (r : result A) : traced A := Traced r [].

(** [l[i]] *)
Definition item {A} (l : list A) (i : nat) : result A :=
  match l !! i with
  | Some x => Ok x
  | None => Raise (Exn IndexError "list index out of range")
  end.

(** [range(a, b)] *)
Definition py_range (a b : nat) : list nat := seq a (b - a).

(** [for x in l: body]: the body falls through to the next iteration
    ([Ok None]), returns from the enclosing function ([Ok (Some _)]) or
    raises. *)
Fixpoint for_return {A B} (body : A → result (option B)) (l : list A) : result (option B) :=
  match l with
  | [] => Ok None
  | x :: l' =>
      match body x with
      | Ok None => for_return body l'
      | r => r
      end
  end.

(** [next(i for i, c in enumerate(l) if p(c))], [None] for [StopIteration] *)
Fixpoint next_index (p : string → bool) (i : nat) (l : list string) : option nat :=
  match l with
  | [] => None
  | c :: l' => if p c then Some i else next_index p (S i) l'
  end.

Definition has_phrase (phrase : string) (r : list string) : bool :=
  existsb (fun c => str_contains phrase (str_lower c)) r.

Definition is_header_row (r : list string) : bool :=
  let hdr_lower := map str_lower r in
  existsb (str_contains "total energy") hdr_lower &&
  existsb (str_contains "energy per total building area") hdr_lower.

(** The loop that looks for the header row: the first [k] of [ks] whose row
    holds both column phrases. *)
Fixpoint find_header (rows : list (list string)) (ks : list nat) : result (option nat) :=
  match ks with
  | [] => Ok None
  | k :: ks' =>
      r ← item rows k;
      if is_header_row r then Ok (Some k) else find_header rows ks'
  end.

(** LIKE 'prefix%%' on a lowered column, and the first row a query returns. *)
Definition abups_row (column_prefix : string) (r : tabular_row) : bool :=
  str_startswith "site and source energy" (str_lower (TableName r)) &&
  String.eqb (str_lower (RowName r)) "total site energy" &&
  str_startswith column_prefix (str_lower (ColumnName r)).

Definition fetchone (column_prefix : string) (table : list tabular_row) : option tabular_row :=
  find (abups_row column_prefix) table.

(** [str(v)] of a fetched value *)
Definition str_of_value (v : option string) : string := default "None" v.

Section Extraction.

(** [float(s)], [None] when it raises [ValueError]. *)
Variable py_float : string → option float.
(** [csv.reader(f, delimiter=d)] over the text of a file. *)
Variable csv_reader : string → ascii → list (list string).

Definition _safe_float (s : string) : option float :=
  py_float (str_strip (str_replace "," "" s)).

Definition fetch_from_sql (d : outdir) : traced metrics :=
  db ← access (PathExists eplusout_sql) (sql_file d);
  match db with
  | None => mret (None, None)
  | Some file =>
      _ ← access (OpenFile eplusout_sql) ();
      match file with
      | Unqueryable message =>
          (* [cur.execute] raises; [finally] closes the connection and
             nothing catches the exception *)
          lift (Raise (Exn DatabaseError message))
      | Queryable table =>
          let total_site :=
            fetchone "total energy" table ≫= λ row, _safe_float (str_of_value (Value row)) in
          let per_area :=
            fetchone "energy per total building area" table
              ≫= λ row, _safe_float (str_of_value (Value row)) in
          mret (total_site, per_area)
      end
  end.

(** [_safe_float(r2[col]) if col < len(r2) else None] *)
Definition cell_float (r2 : list string) (col : nat) : result (option float) :=
  if (col <? length r2)%nat then c ← item r2 col; Ok (_safe_float c) else Ok None.

(** The loop over the rows below the header. *)
Fixpoint scan_data (col_total col_per_area : nat) (below : list (list string))
    : result (option metrics) :=
  match below with
  | [] => Ok None
  | r2 :: below' =>
      if bool_decide (r2 = []) || forallb (String.eqb "") r2 then Ok None   (* break *)
      else
        c0 ← item r2 0;
        if String.eqb (str_lower (str_strip c0)) "total site energy" then
          total_site ← cell_float r2 col_total;
          per_area ← cell_float r2 col_per_area;
          Ok (Some (total_site, per_area))
        else scan_data col_total col_per_area below'
  end.

(** The body of the loop over [j]. *)
Definition search_subsection (rows : list (list string)) (j : nat) : result (option metrics) :=
  rj ← item rows j;
  if has_phrase "site and source energy" rj then
    header_idx ← find_header rows (py_range (j + 1) (Nat.min (j + 15) (length rows)));
    match header_idx with
    | None => Ok None                                             (* continue *)
    | Some header_idx =>
        hrow ← item rows header_idx;
        let header := map str_lower hrow in
        match next_index (str_contains "total energy") 0 header,
              next_index (str_contains "energy per total building area") 0 header with
        | Some col_total, Some col_per_area =>
            scan_data col_total col_per_area (drop (header_idx + 1) rows)
        | _, _ => Ok None                                         (* except StopIteration *)
        end
    end
  else Ok None.

(** The body of the loop over [enumerate(rows)]. *)
Definition search_title (rows : list (list string)) (ir : nat * list string) : result (option metrics) :=
  let '(i, r) := ir in
  if has_phrase "annual building utility performance summary" r then
    for_return (search_subsection rows) (py_range (i + 1) (Nat.min (i + 40) (length rows)))
  else Ok None.

Definition enumerate {A} (l : list A) : list (nat * A) := zip (seq 0 (length l)) l.

Definition tabular_search (rows : list (list string)) : result metrics :=
  found ← for_return (search_title rows) (enumerate rows);
  Ok (default (None, None) found).

Definition _fetch_from_tabular_text (f : out_file) (file : option string) (delimiter : ascii)
    : traced metrics :=
  text ← access (PathExists f) file;
  match text with
  | None => mret (None, None)
  | Some text =>
      _ ← access (OpenFile f) ();
      let rows := map (map str_strip) (csv_reader text delimiter) in
      lift (tabular_search rows)
  end.

Definition fetch_metrics_any (d : outdir) : traced (option float * option float * string) :=
  let tab_then_csv :=
    '(t, p) ← _fetch_from_tabular_text eplustbl_tab (tab_file d) "009";
    if bool_decide (t ≠ None ∨ p ≠ None) then mret (t, p, "tab")
    else
      '(t, p) ← _fetch_from_tabular_text eplustbl_csv (csv_file d) ",";
      if bool_decide (t ≠ None ∨ p ≠ None) then mret (t, p, "csv")
      else mret (None, None, "none") in
  sql ← access (PathExists eplusout_sql) (sql_file d);
  if bool_decide (is_Some sql) then
    '(t, p) ← fetch_from_sql d;
    if bool_decide (t ≠ None ∨ p ≠ None) then mret (t, p, "sql")
    else tab_then_csv
  else tab_then_csv.

End Extraction.

(** ** mm_final_energy_sim.py: the result workbooks *)

Inductive cell_value :=
  | VStr (s : string)
  | VInt (z : Z)
  | VFloat (x : float).

(** The active sheet of a workbook, as openpyxl keeps it: the cells that
    exist, by (row, column) counted from 1; a cell that exists may hold no
    value. Column widths are presentation and are left out. *)
Abbreviation worksheet := (gmap (nat * nat) (option cell_value)).

(** The largest column of a cell, 0 for a sheet without cells. *)
Definition widest (ws : worksheet) : nat :=
  map_fold (λ k _ acc, Nat.max k.2 acc) 0%nat ws.

(** [ws.max_column]: the largest column of a cell, 1 for a sheet without
    cells. *)
Definition max_column (ws : worksheet) : nat := Nat.max 1 (widest ws).

(** [ws.cell(row, column)] makes the cell when the sheet has none there. *)
Definition get_cell (ws : worksheet) (row column : nat) : worksheet :=
  match ws !! (row, column) with
  | Some _ => ws
  | None => <[(row, column) := None]> ws
  end.

(** [ws.cell(row, column).value] *)
Definition ws_value (ws : worksheet) (row column : nat) : option cell_value * worksheet :=
  (mjoin (ws !! (row, column)), get_cell ws row column).

(** [ws.cell(row, column, value=v)] for a [v] that is not [None] *)
Definition ws_set (ws : worksheet) (row column : nat) (v : cell_value) : worksheet :=
  <[(row, column) := Some v]> ws.

(** [bool(v)] *)
Definition truthy (v : cell_value) : bool :=
  match v with
  | VStr s => negb (String.eqb s "")
  | VInt z => negb (z =? 0)
  | VFloat x => negb (PrimFloat.eqb x 0)
  end.

(** [(v or "").strip()]: a header cell that holds a number other than zero
    has no [strip]. *)
Definition header_text (v : option cell_value) : result string :=
  match v with
  | None => Ok (str_strip "")
  | Some v =>
      if truthy v then
        match v with
        | VStr s => Ok (str_strip s)
        | _ => Raise (Exn AttributeError "object has no attribute 'strip'")
        end
      else Ok (str_strip "")
  end.

(** The loop of [_col_for_pair] over the columns that exist. *)
Fixpoint scan_columns (climate aging : string) (cols : list nat) (ws : worksheet)
    : result (option nat * worksheet) :=
  match cols with
  | [] => Ok (None, ws)
  | col :: cols' =>
      let '(v1, ws) := ws_value ws 1 col in
      c1 ← header_text v1;
      let '(v2, ws) := ws_value ws 2 col in
      c2 ← header_text v2;
      if String.eqb c1 climate && String.eqb c2 aging then Ok (Some col, ws)
      else scan_columns climate aging cols' ws
  end.

(** The sheet is returned with the column index: the function works on the
    sheet in place. When it raises, the caller drops the workbook. *)
Definition _col_for_pair (ws : worksheet) (climate aging : string) : result (nat * worksheet) :=
  let max_col := if (max_column ws =? 0)%nat then 1%nat else max_column ws in
  '(found, ws) ← scan_columns climate aging (py_range 2 (max_col + 1)) ws;
  match found with
  | Some col => Ok (col, ws)
  | None =>
      let col := if (2 <=? max_col)%nat then (max_col + 1)%nat else 2%nat in
      Ok (col, ws_set (ws_set ws 1 col (VStr climate)) 2 col (VStr aging))
  end.

Definition _row_for_year (year : Z) : result nat :=
  if (year <? YEARS_START) || (year >? YEARS_END) then
    Raise (Exn ValueError
             ("Year " +:+ str_of_int year +:+ " outside [" +:+ str_of_int YEARS_START
              +:+ ", " +:+ str_of_int YEARS_END +:+ "]"))
  else Ok (Z.to_nat (3 + (year - YEARS_START))).

(** [enumerate(range(YEARS_START, YEARS_END + 1), start=3)] *)
Definition year_rows : list (nat * Z) :=
  zip (seq 3 (Z.to_nat (YEARS_END + 1 - YEARS_START)))
      (map (λ k, YEARS_START + Z.of_nat k) (seq 0 (Z.to_nat (YEARS_END + 1 - YEARS_START)))).

Definition _init_workbook : worksheet :=
  foldl (λ ws iy, ws_set ws iy.1 1 (VInt iy.2))
        (ws_set (ws_set ∅ 1 1 (VStr "Year")) 2 1 (VStr ""))
        year_rows.

(** An object of the bucket: a workbook, or any other file. *)
Inductive s3_object :=
  | Blob (data : string)
  | Xlsx (sheet : worksheet).

Abbreviation bucket := (gmap string s3_object).

Definition object_exists (b : bucket) (key : string) : bool :=
  bool_decide (is_Some (b !! key)).

Definition _download_workbook_or_create (b : bucket) (key : string) : result worksheet :=
  if object_exists b key then
    match b !! key with
    | Some (Xlsx ws) => Ok ws
    | Some (Blob _) => Raise (Exn StorageError "File is not a zip file")
    | None => Raise (Exn StorageError "NoSuchKey")
    end
  else Ok _init_workbook.

(** [wb.save]: the writer leaves out the cells that hold no value. *)
Definition saved (ws : worksheet) : worksheet :=
  filter (λ kv, is_Some kv.2) ws.

Definition _upload_workbook (b : bucket) (key : string) (ws : worksheet) : bucket :=
  <[key := Xlsx (saved ws)]> b.

(** The bucket after the call comes with the outcome: it is the bucket
    before the call whenever the call raises, the upload being the last
    step. *)
Definition write_result_to_s3 (b : bucket) (key climate aging : string) (year : Z)
    (value : option float) : result () * bucket :=
  match value with
  | None => (Ok (), b)
  | Some value =>
      let edited :=
        ws ← _download_workbook_or_create b key;
        '(col, ws) ← _col_for_pair ws climate aging;
        row ← _row_for_year year;
        Ok (ws_set ws row col (VFloat value)) in
      match edited with
      | Ok ws => (Ok (), _upload_workbook b key ws)
      | Raise e => (Raise e, b)
      end
  end.

(** ** mm_final_energy_sim.py: the batch *)

Record settings := Settings {
  S3_BUCKET : string;
  S3_IDF_PREFIX : string;
  S3_EPW_PREFIX : string
}.

Definition default_settings : settings :=
  Settings "mmstore" "output_idf_files/" "weather/epw/".

Definition TOTAL_XLSX_KEY : string := "results_total_site_energy.xlsx".
Definition PERAREA_XLSX_KEY : string := "results_site_energy_per_area.xlsx".

(** The keys under a prefix, in the order the store lists them (by key). *)
Definition _list_objects_all (b : bucket) (prefix : string) : list string :=
  merge_sort String.le (List.filter (str_startswith prefix) (elements (dom b))).

Abbreviation epw_index_t := (gmap (string * Z) string).

Definition index_epws_s3 (b : bucket) (epw_prefix : string) : result epw_index_t :=
  foldl (λ (acc : result epw_index_t) key,
           idx ← acc;
           let name := basename key in
           match re_match true EPW_NAME_RE name with
           | None => Ok idx                                       (* continue *)
           | Some m =>
               rcp_nodot ← group m 1;
               year_str ← group m 2;
               year ← py_int year_str;
               Ok (<[(str_upper rcp_nodot, year) := key]> idx)
           end)
        (Ok ∅) (_list_objects_all b epw_prefix).

(** What the external engine did with a staged pair: it timed out, or it
    exited and left an output directory. *)
Inductive engine_outcome :=
  | EngineTimeout
  | EngineExit (returncode : Z) (stdout stderr : string) (out : outdir).

Definition newline : string := String "010" "".

(** The returned dictionary. *)
Record summary := Summary {
  sum_bucket : string;
  sum_idf_prefix : string;
  sum_epw_prefix : string;
  sum_results_total_key : string;
  sum_results_per_area_key : string;
  sum_processed : list string;
  sum_success : nat;
  sum_failed : nat;
  sum_total : nat
}.

(** The counters and the list the loop updates. *)
Record tally := Tally {
  successes : nat;
  failures : nat;
  processed : list string
}.

(** The object a download stages in the run directory. *)
Definition download_to_file (b : bucket) (key : string) : result s3_object :=
  match b !! key with
  | Some o => Ok o
  | None => Raise (Exn StorageError "NoSuchKey")
  end.

Section Batch.

Variable py_float : string → option float.
Variable csv_reader : string → ascii → list (list string).
(** The EnergyPlus process on a staged simulation file and weather file. *)
Variable energyplus : s3_object → s3_object → engine_outcome.

Definition run_energyplus (name : string) (idf epw : s3_object) : result outdir :=
  match energyplus idf epw with
  | EngineTimeout => Raise (Exn TimeoutExpired "Command timed out")
  | EngineExit returncode stdout stderr out =>
      if returncode =? 0 then Ok out
      else Raise (Exn RuntimeError
                    ("EnergyPlus failed (" +:+ str_of_int returncode +:+ ") for:" +:+ newline
                     +:+ "  " +:+ name +:+ newline +:+ "STDOUT:" +:+ newline +:+ stdout
                     +:+ newline +:+ "STDERR:" +:+ newline +:+ stderr))
  end.

(** What one pass of the loop body ends with, exceptions apart. *)
Inductive pass := Skipped | Processed.

(** The [try] block of the loop body. The bucket comes back with the
    outcome: a write that was made stays made when a later step raises. *)
Definition try_artifact (epw_index : epw_index_t) (b : bucket) (idf_key name : string)
    : result pass * bucket :=
  match parse_idf_filename name with
  | Raise e => (Raise e, b)
  | Ok (rcp_dot, aging, year) =>
      let rcp_nodot := map_rcp_dot_to_nodot rcp_dot in
      match epw_index !! (rcp_nodot, year) with
      | None => (Ok Skipped, b)
      | Some EmptyString => (Ok Skipped, b)
      | Some epw_key =>
          let staged :=
            idf ← download_to_file b idf_key;
            epw ← download_to_file b epw_key;
            out ← run_energyplus name idf epw;
            '(total_site, per_area, src) ← outcome (fetch_metrics_any py_float csv_reader out);
            if bool_decide (total_site = None ∧ per_area = None)
            then Raise (Exn RuntimeError "Failed to extract metrics; ensure ABUPS tables are produced.")
            else Ok (total_site, per_area) in
          match staged with
          | Raise e => (Raise e, b)
          | Ok (total_site, per_area) =>
              match write_result_to_s3 b TOTAL_XLSX_KEY rcp_nodot aging year total_site with
              | (Raise e, b) => (Raise e, b)
              | (Ok _, b) =>
                  match write_result_to_s3 b PERAREA_XLSX_KEY rcp_nodot aging year per_area with
                  | (Raise e, b) => (Raise e, b)
                  | (Ok _, b) => (Ok Processed, b)
                  end
              end
          end
      end
  end.

(** One pass of the loop: [except Exception] counts a failure; an exception
    of another class leaves the loop. *)
Definition loop_body (epw_index : epw_index_t) (st : result tally * bucket) (idf_key : string)
    : result tally * bucket :=
  match st with
  | (Raise e, b) => (Raise e, b)
  | (Ok t, b) =>
      match try_artifact epw_index b idf_key (basename idf_key) with
      | (Ok Processed, b) =>
          (Ok (Tally (successes t + 1) (failures t) (processed t ++ [idf_key])), b)
      | (Ok Skipped, b) => (Ok (Tally (successes t) (failures t + 1) (processed t)), b)
      | (Raise e, b) =>
          if is_Exception (exn_class e)
          then (Ok (Tally (successes t) (failures t + 1) (processed t)), b)
          else (Raise e, b)
      end
  end.

Definition run_energy_simulation_from_env (cfg : settings) (b : bucket) : result summary * bucket :=
  match index_epws_s3 b (S3_EPW_PREFIX cfg) with
  | Raise e => (Raise e, b)
  | Ok epw_index =>
      if bool_decide (epw_index = ∅) then
        (Raise (Exn SystemExit
                  ("No EPWs under s3://" +:+ S3_BUCKET cfg +:+ "/" +:+ S3_EPW_PREFIX cfg)), b)
      else
        let idf_objs :=
          List.filter (λ key, str_endswith ".idf" (str_lower key))
                      (_list_objects_all b (S3_IDF_PREFIX cfg)) in
        if bool_decide (idf_objs = []) then
          (Raise (Exn SystemExit
                    ("No IDFs under s3://" +:+ S3_BUCKET cfg +:+ "/" +:+ S3_IDF_PREFIX cfg)), b)
        else
          match foldl (loop_body epw_index) (Ok (Tally 0 0 []), b) (merge_sort String.le idf_objs) with
          | (Raise e, b) => (Raise e, b)
          | (Ok t, b) =>
              (Ok {| sum_bucket := S3_BUCKET cfg;
                     sum_idf_prefix := rstrip_slash (S3_IDF_PREFIX cfg);
                     sum_epw_prefix := rstrip_slash (S3_EPW_PREFIX cfg);
                     sum_results_total_key := TOTAL_XLSX_KEY;
                     sum_results_per_area_key := PERAREA_XLSX_KEY;
                     sum_processed := take 10 (processed t);
                     sum_success := successes t;
                     sum_failed := failures t;
                     sum_total := length idf_objs |}, b)
          end
  end.

End Batch.


(** ** simulation_adapter.py: the run records *)

(** The body of an initialize request, and the [config] of a record. *)
#[warnings="-register-all"]
Inductive json :=
  | JNull
  | JBool (b : bool)
  | JNum (z : Z)
  | JStr (s : string)
  | JArr (items : list json)
  | JObj (fields : list (string * json)).

(** The five strings of [RunState]. *)
Inductive RunState := PENDING | INITIALISED | RUNNING | SUCCEEDED | ERROR.

#[global] Instance RunState_eq_dec : EqDecision RunState.
Proof. solve_decision. Defined.

(** A record of [_runs]: the dictionary with the keys "state", "config",
    "thread", "result" and "error". A thread is known by its number. *)
Record run := Run {
  run_state : RunState;
  run_config : json;
  run_thread : option nat;
  run_result : option summary;
  run_error : option string
}.

Abbreviation runs_t := (gmap string run).

Definition set_state (st : RunState) (r : run) : run :=
  Run st (run_config r) (run_thread r) (run_result r) (run_error r).
Definition set_thread (t : nat) (r : run) : run :=
  Run (run_state r) (run_config r) (Some t) (run_result r) (run_error r).
Definition set_result (out : summary) (r : run) : run :=
  Run (run_state r) (run_config r) (run_thread r) (Some out) (run_error r).
Definition set_error (msg : string) (r : run) : run :=
  Run (run_state r) (run_config r) (run_thread r) (run_result r) (Some msg).

Definition no_such_run {A} (run_id : string) : result A :=
  Raise (Exn KeyError ("Run " +:+ run_id +:+ " does not exist")).

(** [run_id] is the identifier the method draws (the prefix and a fresh
    uuid4). *)
Definition create_run (run_id : string) (runs : runs_t) : string * runs_t :=
  (run_id, <[run_id := Run PENDING (JObj []) None None None]> runs).

Definition initialise_run (run_id : string) (config : json) (runs : runs_t)
    : result run * runs_t :=
  match runs !! run_id with
  | None => (no_such_run run_id, runs)
  | Some r =>
      if bool_decide (run_state r ∈ [PENDING; INITIALISED]) then
        let r := set_state INITIALISED r in (Ok r, <[run_id := r]> runs)
      else (Ok r, runs)
  end.

(** [t] is the thread the method makes; the third component tells whether
    it was started. *)
Definition start_run (run_id : string) (t : nat) (runs : runs_t)
    : result run * runs_t * option nat :=
  match runs !! run_id with
  | None => (no_such_run run_id, runs, None)
  | Some r =>
      if bool_decide (run_state r ∈ [RUNNING; SUCCEEDED; ERROR]) then (Ok r, runs, None)
      else
        let r := set_thread t (set_state RUNNING r) in
        (Ok r, <[run_id := r]> runs, Some t)
  end.

Definition get_run (run_id : string) (runs : runs_t) : result run :=
  match runs !! run_id with
  | None => no_such_run run_id
  | Some r => Ok r
  end.

Definition remove_run (run_id : string) (runs : runs_t) : runs_t := delete run_id runs.

(** The status endpoint's "state". *)
Definition status (run_id : string) (runs : runs_t) : result RunState :=
  r ← get_run run_id runs; Ok (run_state r).

Section Adapter.

(** The function [_exec_run] finds in the model module, on the bucket. *)
Variable fn : bucket → result summary * bucket.

(** The body of the thread. [except Exception] records the failure; an
    exception of another class leaves [_exec_run] and ends the thread with
    the records as they were. The environment the thread is given is put
    back before the records are touched, and the batch does not read it:
    its settings were read when the module was loaded. *)
Definition _exec_run (run_id : string) (runs : runs_t) (b : bucket)
    : result () * runs_t * bucket :=
  match fn b with
  | (Ok out, b) =>
      (Ok (),
       match runs !! run_id with
       | Some r => <[run_id := set_result out (set_state SUCCEEDED r)]> runs
       | None => runs
       end, b)
  | (Raise e, b) =>
      if is_Exception (exn_class e) then
        (Ok (),
         match runs !! run_id with
         | Some r => <[run_id := set_error (exn_msg e) (set_state ERROR r)]> runs
         | None => runs
         end, b)
      else (Raise e, runs, b)
  end.

(** The adapter with its threads: the records, the bucket, the threads that
    were started and have not run yet (each with the run it is for), the
    number of the next thread, and the identifiers already drawn. *)
Record system := System {
  sys_runs : runs_t;
  sys_bucket : bucket;
  sys_threads : gmap nat string;
  sys_next_thread : nat;
  sys_issued : gset string
}.

Inductive event :=
  | Create (run_id : string)
  | Initialise (run_id : string) (config : json)
  | Start (run_id : string)
  | Query (run_id : string)
  | Remove (run_id : string)
  | ThreadRuns (t : nat).

Definition step (ev : event) (s : system) : system :=
  match ev with
  | Create run_id =>
      System (create_run run_id (sys_runs s)).2 (sys_bucket s) (sys_threads s)
             (sys_next_thread s) ({[run_id]} ∪ sys_issued s)
  | Initialise run_id config =>
      System (initialise_run run_id config (sys_runs s)).2 (sys_bucket s) (sys_threads s)
             (sys_next_thread s) (sys_issued s)
  | Start run_id =>
      let t := sys_next_thread s in
      match start_run run_id t (sys_runs s) with
      | (_, runs, Some _) =>
          System runs (sys_bucket s) (<[t := run_id]> (sys_threads s)) (S t) (sys_issued s)
      | (_, runs, None) =>
          System runs (sys_bucket s) (sys_threads s) (sys_next_thread s) (sys_issued s)
      end
  | Query _ => s
  | Remove run_id =>
      System (remove_run run_id (sys_runs s)) (sys_bucket s) (sys_threads s)
             (sys_next_thread s) (sys_issued s)
  | ThreadRuns t =>
      match sys_threads s !! t with
      | None => s
      | Some run_id =>
          let '(_, runs, b) := _exec_run run_id (sys_runs s) (sys_bucket s) in
          System runs b (delete t (sys_threads s)) (sys_next_thread s) (sys_issued s)
      end
  end.

(** A uuid4 is taken to be new: [Create] comes with an identifier that was
    not drawn before. *)
Definition admissible (ev : event) (s : system) : Prop :=
  match ev with
  | Create run_id => run_id ∉ sys_issued s
  | _ => True
  end.

Inductive reachable : system → Prop :=
  | reachable_init b : reachable (System ∅ b ∅ 0 ∅)
  | reachable_step s ev : reachable s → admissible ev s → reachable (step ev s).

(** A sequence of events, from the first to the last. *)
Fixpoint run_events (evs : list event) (s : system) : system :=
  match evs with
  | [] => s
  | ev :: evs' => run_events evs' (step ev s)
  end.

Fixpoint admissible_all (evs : list event) (s : system) : Prop :=
  match evs with
  | [] => True
  | ev :: evs' => admissible ev s ∧ admissible_all evs' (step ev s)
  end.

End Adapter.

(** ** Section 4.3 of the specification, for comparison *)

(** At least one of the two values is there. *)
Definition yields (m : metrics) : bool := bool_decide (m.1 ≠ None ∨ m.2 ≠ None).

(** The fallback in the specification's words: the strategies in their
    order, each with its format; the result is that of the first strategy
    that yields a value, and (none, none) with the format "none" when no
    strategy does. The specification has no strategy that raises; here a
    strategy that raises ends the fallback with its exception. *)
Fixpoint first_yielding (strategies : list (string * result metrics))
    : result (option float * option float * string) :=
  match strategies with
  | [] => Ok (None, None, "none")
  | (format, r) :: rest =>
      m ← r;
      if yields m then Ok (m.1, m.2, format) else first_yielding rest
  end.

(** The accesses [evs] include one to the file [f]. *)
Definition touches (f : out_file) (evs : list fs_event) : Prop :=
  PathExists f ∈ evs ∨ OpenFile f ∈ evs.

(** The structured file of the directory, if there is one, can be queried. *)
Definition queryable (d : outdir) : Prop :=
  ∀ message, sql_file d ≠ Some (Unqueryable message).

(** ** The markers of the tabular search, for its properties *)

Definition title_row (r : list string) : bool :=
  has_phrase "annual building utility performance summary" r.

Definition subsection_row (r : list string) : bool :=
  has_phrase "site and source energy" r.

(** A row at which the loop below the header stops without a result. *)
Definition blank_row (r2 : list string) : bool :=
  bool_decide (r2 = []) || forallb (String.eqb "") r2.

(** A row the loop below the header returns from. *)
Definition data_row (r2 : list string) : bool :=
  negb (blank_row r2) &&
  match r2 with
  | c0 :: _ => String.eqb (str_lower (str_strip c0)) "total site energy"
  | [] => false
  end.

(** The value read in column [col] of a data row. *)
Definition read_cell (py_float : string → option float) (r2 : list string) (col : nat)
    : option float :=
  r2 !! col ≫= _safe_float py_float.

Definition row_is (p : list string → bool) (rows : list (list string)) (i : nat) : bool :=
  match rows !! i with
  | Some r => p r
  | None => false
  end.

(** No row strictly between the rows [a] and [b] satisfies [p]. *)
Definition none_between (p : list string → bool) (rows : list (list string)) (a b : nat) : bool :=
  forallb (λ r, negb (p r)) (take (b - a - 1) (drop (a + 1) rows)).

(** A report with its markers in place: row [i] is the first title row, row
    [j] the first subsection row below it, at most [w1] rows below; row [k]
    the first header row below [j], at most [w2] rows below; and the row
    under the header is the data row. *)
Definition marked_layout (w1 w2 : nat) (rows : list (list string)) (i j k : nat) : bool :=
  forallb (λ r, negb (title_row r)) (take i rows) && row_is title_row rows i &&
  (i <? j)%nat && (j <=? i + w1)%nat &&
  none_between subsection_row rows i j && row_is subsection_row rows j &&
  (j <? k)%nat && (k <=? j + w2)%nat &&
  none_between is_header_row rows j k && row_is is_header_row rows k &&
  row_is data_row rows (k + 1).

(** What the data row under the header [k] holds in the two columns the
    header names. *)
Definition read_under (py_float : string → option float) (rows : list (list string)) (k : nat)
    : option metrics :=
  hrow ← rows !! k;
  r2 ← rows !! (k + 1)%nat;
  col_total ← next_index (str_contains "total energy") 0 (map str_lower hrow);
  col_per_area ← next_index (str_contains "energy per total building area") 0 (map str_lower hrow);
  Some (read_cell py_float r2 col_total, read_cell py_float r2 col_per_area).

(** The search windows as a property: on every report with its markers in
    place, the subsection within [w1] rows below the title and the header
    within [w2] rows below the subsection, the search returns what the data
    row holds. *)
Definition finds_within (py_float : string → option float) (w1 w2 : nat) : Prop :=
  ∀ rows i j k, marked_layout w1 w2 rows i j k = true →
    ∃ m, read_under py_float rows k = Some m ∧ tabular_search py_float rows = Ok m.

(** ** The two spellings of a scenario *)

(** The dotted and the undotted spelling of the scenario numbers that the
    two filename patterns name. *)
Definition scenario_forms : list (string * string) :=
  [("8.5", "85"); ("4.5", "45"); ("2.6", "26")].

(** Two strings that differ by letter case and spaces only. *)
Definition same_letters (a b : string) : Prop :=
  str_replace " " "" (str_upper a) = str_replace " " "" (str_upper b).

(** The character [c] occurs in [s]. *)
Fixpoint occurs (c : ascii) (s : string) : bool :=
  match s with
  | EmptyString => false
  | String x t => Ascii.eqb x c || occurs c t
  end.

Definition str_tail (s : string) : string :=
  match s with
  | EmptyString => EmptyString
  | String _ t => t
  end.

(** ** The result workbooks, for their properties *)

(** A header cell that [header_text] reads: text, or a number that is
    zero. *)
Definition is_text (v : cell_value) : bool :=
  match v with
  | VStr _ => true
  | _ => negb (truthy v)
  end.

(** The two header rows hold text in the columns [_col_for_pair] scans. *)
Definition textual_headers (ws : worksheet) : Prop :=
  ∀ row col v, (row = 1 ∨ row = 2)%nat → (2 ≤ col)%nat →
    ws !! (row, col) = Some (Some v) → is_text v = true.

(** The header pair of a column as [_col_for_pair] compares it. *)
Definition header_pair (ws : worksheet) (col : nat) : result (string * string) :=
  c1 ← header_text (mjoin (ws !! (1, col)%nat));
  c2 ← header_text (mjoin (ws !! (2, col)%nat));
  Ok (c1, c2).

(** No two columns of the sheet, from the second to the last, have the same
    header pair. *)
Definition distinct_headers (ws : worksheet) : Prop :=
  ∀ c1 c2 p, (2 ≤ c1 ≤ max_column ws)%nat → (2 ≤ c2 ≤ max_column ws)%nat →
    header_pair ws c1 = Ok p → header_pair ws c2 = Ok p → c1 = c2.

(** The workbook stored under a key, if there is one, has no two columns
    with the same header pair. *)
Definition stored_distinct (b : bucket) (key : string) : Prop :=
  ∀ ws, b !! key = Some (Xlsx ws) → distinct_headers ws.

(** What the bucket holds under a result key is a workbook with textual
    headers, or nothing yet. *)
Definition result_matrix_at (b : bucket) (key : string) : Prop :=
  match b !! key with
  | None => True
  | Some (Xlsx ws) => textual_headers ws
  | Some (Blob _) => False
  end.

(** ** The run records, for their properties *)

(** The transitions of the state machine as section 4.6 draws it, and as
    the adapter makes them. *)
Definition drawn_transition (a b : RunState) : bool :=
  match a, b with
  | PENDING, INITIALISED | INITIALISED, RUNNING
  | RUNNING, SUCCEEDED | RUNNING, ERROR => true
  | _, _ => false
  end.

Definition adapter_transition (a b : RunState) : bool :=
  match a, b with
  | PENDING, INITIALISED | PENDING, RUNNING | INITIALISED, RUNNING
  | RUNNING, SUCCEEDED | RUNNING, ERROR => true
  | _, _ => false
  end.

(** What the reachable states of the adapter keep true: a thread that has
    not run yet is for a run whose identifier was drawn and whose record,
    if it is still there, is RUNNING; no run has two such threads; every
    record's identifier was drawn; every record's config is the empty
    dictionary. *)
Record consistent (s : system) : Prop := Consistent {
  threads_issued : ∀ t rid, sys_threads s !! t = Some rid → rid ∈ sys_issued s;
  threads_running : ∀ t rid r,
    sys_threads s !! t = Some rid → sys_runs s !! rid = Some r → run_state r = RUNNING;
  threads_unique : ∀ t t' rid,
    sys_threads s !! t = Some rid → sys_threads s !! t' = Some rid → t = t';
  runs_issued : ∀ rid r, sys_runs s !! rid = Some r → rid ∈ sys_issued s;
  configs_empty : ∀ rid r, sys_runs s !! rid = Some r → run_config r = JObj []
}.

(** The run [run_id] has the record [r], which is RUNNING, and no thread
    is left to end it. *)
Definition stalled (run_id : string) (r : run) (s : system) : Prop :=
  sys_runs s !! run_id = Some r ∧ run_state r = RUNNING ∧
  (∀ t, sys_threads s !! t ≠ Some run_id) ∧ run_id ∈ sys_issued s.

(** ** Closed instances of the external collaborators, for the examples *)

(** [s.split(d)] *)
Fixpoint split_on (d : ascii) (s : string) : list string :=
  match s with
  | EmptyString => [EmptyString]
  | String c t =>
      if Ascii.eqb c d then EmptyString :: split_on d t
      else
        match split_on d t with
        | [] => [String c EmptyString]
        | w :: ws => String c w :: ws
        end
  end.

Definition float_of_Z (z : Z) : float := PrimFloat.of_uint63 (Uint63.of_Z z).

(** [float] on a plain decimal numeral, digits with at most one point: the
    quotient of two integers that binary64 holds exactly, rounded once. *)
Definition decimal_float (s : string) : option float :=
  match split_on "." s with
  | [whole] =>
      match whole with
      | EmptyString => None
      | _ => float_of_Z <$> int_digits 0 whole
      end
  | [whole; frac] =>
      match whole +:+ frac with
      | EmptyString => None
      | digits =>
          (λ z, PrimFloat.div (float_of_Z z) (float_of_Z (10 ^ Z.of_nat (String.length frac))))
            <$> int_digits 0 digits
      end
  | _ => None
  end.

(** [csv.reader] on a text without quotes: one row per line, split at the
    delimiter; an empty line is the empty row, and a newline that ends the
    text starts no further row. *)
Fixpoint text_lines (s : string) : list string :=
  match s with
  | EmptyString => []
  | String c t =>
      if Ascii.eqb c "010" then EmptyString :: text_lines t
      else
        match text_lines t with
        | [] => [String c EmptyString]
        | w :: ws => String c w :: ws
        end
  end.

Definition plain_reader (text : string) (delimiter : ascii) : list (list string) :=
  map (λ line, match line with EmptyString => [] | _ => split_on delimiter line end)
      (text_lines text).

(** ** Inputs of the examples *)

Definition idle_engine (idf epw : s3_object) : engine_outcome := EngineTimeout.

(** The two rows of the summary table the structured queries look for. *)
Definition abups_table : list tabular_row :=
  [ TabularRow "Site and Source Energy" "Total Site Energy" "Total Energy [GJ]" (Some "125000.5");
    TabularRow "Site and Source Energy" "Total Site Energy"
               "Energy Per Total Building Area [MJ/m2]" (Some "42.3") ].

Definition sql_engine (idf epw : s3_object) : engine_outcome :=
  EngineExit 0 "" "" (OutDir (Some (Queryable abups_table)) None None).

(** A bucket with one simulation artifact of aging code E29 and its
    weather file. *)
Definition bucket_e29 : bucket :=
  <["output_idf_files/RCP8.5_E29_2030.idf" := Blob "idf"]>
    (<["weather/epw/Rotterdam_RCP85_2030.epw" := Blob "epw"]> ∅).

(** The simulation artifact name with aging code E and the number [n]. *)
Definition aging_name (n : nat) : string :=
  "RCP8.5_E" +:+ str_of_int (Z.of_nat n) +:+ "_2030.idf".

Definition is_ok {A} (r : result A) : bool :=
  match r with
  | Ok _ => true
  | Raise _ => false
  end.

(** The batch as the adapter runs it, with an engine that times out. *)
Definition demo_fn : bucket → result summary * bucket :=
  run_energy_simulation_from_env decimal_float plain_reader idle_engine default_settings.

(** The adapter after one [Create]. *)
Definition one_run : system := step demo_fn (Create "run-1") (System ∅ ∅ ∅ 0 ∅).

(** Two calls of [_col_for_pair] on the fresh workbook with a scenario that
    has a leading space, the second on the sheet the first leaves. *)
Definition padded_first : result (nat * worksheet) :=
  _col_for_pair _init_workbook " RCP85" "E12".

Definition padded_second : result (nat * worksheet) :=
  '(_, ws1) ← padded_first; _col_for_pair ws1 " RCP85" "E12".

(** A report, already split in rows: the title, [gap1] rows of other text,
    the subsection title, [gap2] rows of other text, the header, the data
    row. The subsection is [gap1 + 1] rows below the title, the header
    [gap2 + 1] rows below the subsection. *)
Definition report (gap1 gap2 : nat) : list (list string) :=
  [["Report:"; "Annual Building Utility Performance Summary"]]
  ++ replicate gap1 ["For:"; "Entire Facility"]
  ++ [["Site and Source Energy"]]
  ++ replicate gap2 ["Values gathered over 8760 hours"]
  ++ [[""; "Total Energy [GJ]"; "Energy Per Total Building Area [MJ/m2]"];
      ["Total Site Energy"; "125,000.5"; "42.3"];
      ["Net Site Energy"; "125,000.5"; "42.3"];
      []].

(** The text of a comma-delimited report. *)
Definition csv_report : string :=
  "Report:,Annual Building Utility Performance Summary" +:+ newline +:+
  "For:,Entire Facility" +:+ newline +:+
  newline +:+
  "Site and Source Energy" +:+ newline +:+
  ",Total Energy [GJ],Energy Per Total Building Area [MJ/m2]" +:+ newline +:+
  "Total Site Energy,125000.5,42.3" +:+ newline +:+
  "Net Site Energy,125000.5,42.3" +:+ newline.

(** An output directory with the comma-delimited report only. *)
Definition csv_only : outdir := OutDir None None (Some csv_report).

(** An output directory with the comma-delimited report and a structured
    file that is not a database. *)
Definition csv_and_damaged_sql : outdir :=
  OutDir (Some (Unqueryable "file is not a database")) None (Some csv_report).

(** ** Names, for their properties *)

(** The scenarios of the two filename patterns, dotted and undotted. *)
Definition dotted_scenarios : list string := ["RCP8.5"; "RCP4.5"; "RCP2.6"].
Definition undotted_scenarios : list string := ["RCP85"; "RCP45"; "RCP26"].

(** The letters of an aging code. *)
Definition aging_letters : list ascii := ["E"; "F"; "T"]%char.

(** The name of a simulation artifact and of a weather file, from their
    parts. *)
Definition idf_name (rcp_dot : string) (letter : ascii) (n : nat) (year : Z) : string :=
  rcp_dot +:+ "_" +:+ String letter (str_of_int (Z.of_nat n)) +:+ "_" +:+ str_of_int year +:+ ".idf".

Definition epw_name (rcp_nodot : string) (year : Z) : string :=
  "Rotterdam_" +:+ rcp_nodot +:+ "_" +:+ str_of_int year +:+ ".epw".

(** What [EPW_NAME_RE] gives for a name: the upper-cased scenario and the
    year, as [index_epws_s3] reads them. *)
Definition parse_epw_filename (name : string) : option (result (string * Z)) :=
  match re_match true EPW_NAME_RE name with
  | None => None
  | Some m =>
      Some (rcp_nodot ← group m 1;
            year_str ← group m 2;
            year ← py_int year_str;
            Ok (str_upper rcp_nodot, year))
  end.

(** The name made of the four parts parses, and into these parts. *)
Definition parses_to (rcp : string) (letter : ascii) (n : nat) (year : Z) : bool :=
  match parse_idf_filename (idf_name rcp letter n year) with
  | Ok (rcp', aging', year') =>
      String.eqb rcp' rcp && String.eqb aging' (String letter (str_of_int (Z.of_nat n)))
      && (year' =? year)
  | Raise _ => false
  end.

(** The entry a key adds to the weather index, if its name matches. *)
Definition epw_entry (key : string) : option (string * Z) :=
  match parse_epw_filename (basename key) with
  | Some (Ok p) => Some p
  | _ => None
  end.

(** The file name of a weather file holds the scenario and the year, and no
    slash. *)
Definition files_as (rcp : string) (k : nat) : bool :=
  let name := epw_name rcp (2020 + Z.of_nat k) in
  negb (str_contains "/" name) &&
  match parse_epw_filename name with
  | Some (Ok (rcp', year')) => String.eqb rcp' rcp && (year' =? 2020 + Z.of_nat k)
  | _ => false
  end.

(** The dotted scenario of an artifact name with the undotted one of a
    weather file name. *)
Definition scenario_names : list (string * string) :=
  [("RCP8.5", "RCP85"); ("RCP4.5", "RCP45"); ("RCP2.6", "RCP26")].

(** Two weather files of the same scenario and year, in two folders. *)
Definition two_weather_files : bucket :=
  <["weather/epw/a/Rotterdam_RCP85_2030.epw" := Blob "a"]>
    (<["weather/epw/b/rotterdam_rcp85_2030.EPW" := Blob "b"]> ∅).

(** The artifacts of a batch: the keys under the artifact prefix that end
    in .idf, whatever the letter case. *)
Definition idf_objects (cfg : settings) (b : bucket) : list string :=
  List.filter (λ key, str_endswith ".idf" (str_lower key))
              (_list_objects_all b (S3_IDF_PREFIX cfg)).

Section Completed.

Variable py_float : string → option float.
Variable csv_reader : string → ascii → list (list string).
Variable energyplus : s3_object → s3_object → engine_outcome.

(** The successes of a batch over the keys in the order of the loop: the
    artifacts whose [try] block runs to its end, past the two writes, each
    on the bucket the artifacts before it have left. *)
Fixpoint completed (epw_index : epw_index_t) (b : bucket) (keys : list string) : list string :=
  match keys with
  | [] => []
  | key :: keys =>
      let r := try_artifact py_float csv_reader energyplus epw_index b key (basename key) in
      match r.1 with
      | Ok Processed => key :: completed epw_index r.2 keys
      | _ => completed epw_index r.2 keys
      end
  end.

End Completed.

(** A bucket with two artifacts, one of them of the year 2020, and their
    weather files. *)
Definition bucket_two_artifacts : bucket :=
  <["output_idf_files/RCP8.5_E12_2020.idf" := Blob "idf"]>
    (<["output_idf_files/RCP8.5_E12_2030.idf" := Blob "idf"]>
       (<["weather/epw/Rotterdam_RCP85_2020.epw" := Blob "epw"]>
          (<["weather/epw/Rotterdam_RCP85_2030.epw" := Blob "epw"]> ∅))).

(** A bucket with a weather file and no artifact. *)
Definition bucket_weather_only : bucket :=
  <["output_idf_files/readme.txt" := Blob "text"]>
    (<["weather/epw/Rotterdam_RCP85_2030.epw" := Blob "epw"]> ∅).

(** The year column of the fresh workbook holds the year in the row
    [_row_for_year] gives for it. *)
Definition year_row_filled (k : nat) : bool :=
  let year := YEARS_START + Z.of_nat k in
  match _row_for_year year with
  | Ok row =>
      (row =? 3 + k)%nat &&
      match _init_workbook !! (row, 1%nat) with
      | Some (Some (VInt y)) => y =? year
      | _ => false
      end
  | Raise _ => false
  end.

(** The run [run_id] has no record, and its identifier is spent. *)
Definition removed (run_id : string) (s : system) : Prop :=
  sys_runs s !! run_id = None ∧ run_id ∈ sys_issued s.

(** The adapter after [Create] and [Start]: one run, RUNNING, its thread not
    yet run. *)
Definition one_run_started : system := step demo_fn (Start "run-1") one_run.

(** The batch with an engine that exits normally, and the adapter after one
    [Create] over a bucket with two artifacts. *)
Definition sql_fn : bucket → result summary * bucket :=
  run_energy_simulation_from_env decimal_float plain_reader sql_engine default_settings.

Definition one_run_with_artifacts : system :=
  step sql_fn (Create "run-1") (System ∅ bucket_two_artifacts ∅ 0 ∅).

(** The workbook under [key] holds a result for the scenario, the aging code
    and the year: resolving the pair and the year on it leads to a cell with
    a number. *)
Definition recorded (b : bucket) (key climate aging : string) (year : Z) : Prop :=
  ∃ ws col w2 row v,
    b !! key = Some (Xlsx ws) ∧ _col_for_pair ws climate aging = Ok (col, w2) ∧
    _row_for_year year = Ok row ∧ ws !! (row, col) = Some (Some (VFloat v)).

(** An aging code, as a name gives it, has no whitespace around it; so has
    the normalised scenario. *)
Definition aging_code_plain (letter : ascii) (n : nat) : bool :=
  let aging := String letter (str_of_int (Z.of_nat n)) in
  String.eqb (str_strip aging) aging.

Definition scenario_plain (rcp : string) : bool :=
  String.eqb (str_strip (map_rcp_dot_to_nodot rcp)) (map_rcp_dot_to_nodot rcp).

(** * Properties *)

(** ** The run records *)

Section AdapterProperties.

Context (fn : bucket → result summary * bucket).

Lemma elem_of_two {A} (x a b : A) : x ∈ [a; b] ↔ x = a ∨ x = b.
Proof. rewrite !elem_of_cons, elem_of_nil. tauto. Qed.

Lemma elem_of_three {A} (x a b c : A) : x ∈ [a; b; c] ↔ x = a ∨ x = b ∨ x = c.
Proof. rewrite !elem_of_cons, elem_of_nil. tauto. Qed.

Lemma not_started_yet st :
  st ∉ [RUNNING; SUCCEEDED; ERROR] → st = PENDING ∨ st = INITIALISED.
Proof. rewrite elem_of_three. destruct st; intuition congruence. Qed.

Lemma exec_run_lookup run_id runs b rid r' :
  (_exec_run fn run_id runs b).1.2 !! rid = Some r' →
  runs !! rid = Some r' ∨
  (rid = run_id ∧ ∃ r, runs !! rid = Some r ∧ run_config r' = run_config r ∧
     (run_state r' = SUCCEEDED ∨ run_state r' = ERROR)).
Proof.
  unfold _exec_run. destruct (fn b) as [[out|e] b']; simpl.
  - destruct (runs !! run_id) as [r|] eqn:Hr; [|by left].
    destruct (decide (rid = run_id)) as [->|Hne].
    + rewrite lookup_insert_eq. intros [= <-]. right. split; [done|].
      exists r. simpl. auto.
    + rewrite lookup_insert_ne by done. by left.
  - destruct (is_Exception (exn_class e)); simpl; [|by left].
    destruct (runs !! run_id) as [r|] eqn:Hr; [|by left].
    destruct (decide (rid = run_id)) as [->|Hne].
    + rewrite lookup_insert_eq. intros [= <-]. right. split; [done|].
      exists r. simpl. auto.
    + rewrite lookup_insert_ne by done. by left.
Qed.

Lemma initialise_run_lookup run_id cfg runs rid r' :
  (initialise_run run_id cfg runs).2 !! rid = Some r' →
  runs !! rid = Some r' ∨
  (rid = run_id ∧ ∃ r, runs !! rid = Some r ∧ r' = set_state INITIALISED r ∧
     (run_state r = PENDING ∨ run_state r = INITIALISED)).
Proof.
  unfold initialise_run. destruct (runs !! run_id) as [r|] eqn:Hr; simpl; [|by left].
  case_bool_decide as Hst; simpl; [|by left].
  destruct (decide (rid = run_id)) as [->|Hne].
  - rewrite lookup_insert_eq. intros [= <-]. right. split; [done|]. exists r.
    repeat split; [done|]. by apply elem_of_two.
  - rewrite lookup_insert_ne by done. by left.
Qed.

Lemma start_run_lookup run_id t runs rid r' :
  (start_run run_id t runs).1.2 !! rid = Some r' →
  runs !! rid = Some r' ∨
  (rid = run_id ∧ ∃ r, runs !! rid = Some r ∧ r' = set_thread t (set_state RUNNING r) ∧
     (run_state r = PENDING ∨ run_state r = INITIALISED) ∧
     (start_run run_id t runs).2 = Some t).
Proof.
  unfold start_run. destruct (runs !! run_id) as [r|] eqn:Hr; simpl; [|by left].
  case_bool_decide as Hst; simpl; [by left|].
  destruct (decide (rid = run_id)) as [->|Hne].
  - rewrite lookup_insert_eq. intros [= <-]. right. split; [done|]. exists r.
    repeat split; try done. by apply not_started_yet.
  - rewrite lookup_insert_ne by done. by left.
Qed.

Lemma start_run_launch run_id t runs t' :
  (start_run run_id t runs).2 = Some t' →
  t' = t ∧ ∃ r, runs !! run_id = Some r ∧
    (run_state r = PENDING ∨ run_state r = INITIALISED) ∧
    (start_run run_id t runs).1.2 = <[run_id := set_thread t (set_state RUNNING r)]> runs.
Proof.
  unfold start_run. destruct (runs !! run_id) as [r|] eqn:Hr; simpl; [|done].
  case_bool_decide as Hst; simpl; [done|]. intros [= <-]. split; [done|].
  exists r. repeat split; try done. by apply not_started_yet.
Qed.

Lemma start_run_no_launch run_id t runs :
  (start_run run_id t runs).2 = None → (start_run run_id t runs).1.2 = runs.
Proof.
  unfold start_run. destruct (runs !! run_id) as [r|] eqn:Hr; simpl; [|done].
  by case_bool_decide.
Qed.

Lemma step_start run_id s :
  step fn (Start run_id) s =
    match (start_run run_id (sys_next_thread s) (sys_runs s)).2 with
    | Some _ =>
        System (start_run run_id (sys_next_thread s) (sys_runs s)).1.2 (sys_bucket s)
               (<[sys_next_thread s := run_id]> (sys_threads s)) (S (sys_next_thread s))
               (sys_issued s)
    | None =>
        System (start_run run_id (sys_next_thread s) (sys_runs s)).1.2 (sys_bucket s)
               (sys_threads s) (sys_next_thread s) (sys_issued s)
    end.
Proof.
  simpl. by destruct (start_run _ _ _) as [[res runs] [t|]].
Qed.

Lemma step_thread t s :
  step fn (ThreadRuns t) s =
    match sys_threads s !! t with
    | None => s
    | Some run_id =>
        System (_exec_run fn run_id (sys_runs s) (sys_bucket s)).1.2
               (_exec_run fn run_id (sys_runs s) (sys_bucket s)).2
               (delete t (sys_threads s)) (sys_next_thread s) (sys_issued s)
    end.
Proof.
  simpl. destruct (sys_threads s !! t); [|done].
  by destruct (_exec_run _ _ _ _) as [[res runs] b].
Qed.

Lemma consistent_step s ev : consistent s → admissible ev s → consistent (step fn ev s).
Proof.
  intros [Hti Htr Htu Hri Hce] Hadm. destruct ev as [rid|rid cfg|rid|rid|rid|t].
  - (* Create *)
    simpl in Hadm. split; simpl.
    + intros t rid' Ht. apply Hti in Ht. set_solver.
    + intros t rid' r Ht. destruct (decide (rid' = rid)) as [->|Hne].
      * by apply Hti in Ht.
      * rewrite lookup_insert_ne by done. eauto.
    + done.
    + intros rid' r. destruct (decide (rid' = rid)) as [->|Hne]; [set_solver|].
      rewrite lookup_insert_ne by done. intros ?%Hri. set_solver.
    + intros rid' r. destruct (decide (rid' = rid)) as [->|Hne].
      * rewrite lookup_insert_eq. by intros [= <-].
      * rewrite lookup_insert_ne by done. eauto.
  - (* Initialise *)
    split; simpl; try done.
    + intros t rid' r' Ht [Hr|(-> & r & Hr & -> & Hst)]%initialise_run_lookup; [eauto|].
      specialize (Htr _ _ _ Ht Hr). destruct Hst; congruence.
    + intros rid' r' [Hr|(-> & r & Hr & -> & Hst)]%initialise_run_lookup; eauto.
    + intros rid' r' [Hr|(-> & r & Hr & -> & Hst)]%initialise_run_lookup; simpl; eauto.
  - (* Start *)
    rewrite step_start.
    destruct ((start_run rid (sys_next_thread s) (sys_runs s)).2) as [t'|] eqn:Hl.
    + apply start_run_launch in Hl as (-> & r & Hr & Hst & ->). split; simpl.
      * intros t rid'. destruct (decide (t = sys_next_thread s)) as [->|Hne].
        -- rewrite lookup_insert_eq. intros [= <-]. eauto.
        -- rewrite lookup_insert_ne by done. eauto.
      * intros t rid' r'. destruct (decide (rid' = rid)) as [->|Hne].
        -- rewrite lookup_insert_eq. by intros _ [= <-].
        -- rewrite (lookup_insert_ne (sys_runs s)) by done.
           destruct (decide (t = sys_next_thread s)) as [->|Hnt].
           ++ rewrite lookup_insert_eq. congruence.
           ++ rewrite lookup_insert_ne by done. eauto.
      * assert (∀ t, sys_threads s !! t = Some rid → False) as Hfresh.
        { intros t Ht. specialize (Htr _ _ _ Ht Hr). destruct Hst; congruence. }
        intros t t' rid'.
        destruct (decide (t = sys_next_thread s)) as [->|Hnt];
          destruct (decide (t' = sys_next_thread s)) as [->|Hnt']; try done.
        -- rewrite lookup_insert_eq, lookup_insert_ne by done.
           intros [= <-] Ht'. by apply Hfresh in Ht'.
        -- rewrite lookup_insert_eq, lookup_insert_ne by done.
           intros Ht [= <-]. by apply Hfresh in Ht.
        -- rewrite !lookup_insert_ne by done. eauto.
      * intros rid' r'. destruct (decide (rid' = rid)) as [->|Hne].
        -- intros _. eauto.
        -- rewrite lookup_insert_ne by done. eauto.
      * intros rid' r'. destruct (decide (rid' = rid)) as [->|Hne].
        -- rewrite lookup_insert_eq. intros [= <-]. simpl. eauto.
        -- rewrite lookup_insert_ne by done. eauto.
    + rewrite (start_run_no_launch _ _ _ Hl). by split.
  - (* Query *)
    by split.
  - (* Remove *)
    split; simpl; try done.
    + intros t rid' r Ht. unfold remove_run.
      intros [_ Hr]%lookup_delete_Some. eauto.
    + intros rid' r. unfold remove_run. intros [_ Hr]%lookup_delete_Some. eauto.
    + intros rid' r. unfold remove_run. intros [_ Hr]%lookup_delete_Some. eauto.
  - (* ThreadRuns *)
    rewrite step_thread. destruct (sys_threads s !! t) as [rid|] eqn:Ht; [|by split].
    split; simpl.
    + intros t' rid' [_ Ht']%lookup_delete_Some. eauto.
    + intros t' rid' r' [Hne Ht']%lookup_delete_Some
        [Hr|(-> & r & Hr & _)]%exec_run_lookup; [eauto|].
      destruct Hne. eauto.
    + intros t1 t2 rid' [_ H1]%lookup_delete_Some [_ H2]%lookup_delete_Some. eauto.
    + intros rid' r' [Hr|(-> & r & Hr & _)]%exec_run_lookup; eauto.
    + intros rid' r' [Hr|(-> & r & Hr & Hc & _)]%exec_run_lookup; [eauto|].
      rewrite Hc. eauto.
Qed.

Lemma reachable_consistent s : reachable fn s → consistent s.
Proof.
  induction 1 as [b|s ev _ IH Hadm].
  - by split.
  - by apply consistent_step.
Qed.

(** C9, as amended. A step of the adapter changes the state of a record
    only along PENDING to INITIALISED, PENDING to RUNNING, INITIALISED to
    RUNNING, and RUNNING to SUCCEEDED or ERROR, so SUCCEEDED and ERROR are
    kept for good; on a record that is RUNNING, SUCCEEDED or ERROR,
    [start_run] returns the record, leaves the records as they are and
    starts no thread; [initialise_run] changes a state only from PENDING,
    to INITIALISED. *)
Theorem run_state_machine :
  (∀ s ev run_id r r',
     reachable fn s → admissible ev s →
     sys_runs s !! run_id = Some r → sys_runs (step fn ev s) !! run_id = Some r' →
     run_state r' = run_state r ∨ adapter_transition (run_state r) (run_state r') = true) ∧
  (∀ s ev run_id r r',
     reachable fn s → admissible ev s →
     sys_runs s !! run_id = Some r → sys_runs (step fn ev s) !! run_id = Some r' →
     run_state r = SUCCEEDED ∨ run_state r = ERROR → run_state r' = run_state r) ∧
  (∀ runs run_id t r,
     runs !! run_id = Some r → run_state r ∈ [RUNNING; SUCCEEDED; ERROR] →
     start_run run_id t runs = (Ok r, runs, None)) ∧
  (∀ runs run_id cfg rid r r',
     runs !! rid = Some r → (initialise_run run_id cfg runs).2 !! rid = Some r' →
     run_state r' ≠ run_state r →
     rid = run_id ∧ run_state r = PENDING ∧ run_state r' = INITIALISED).
Proof.
  assert (∀ s ev run_id r r',
     reachable fn s → admissible ev s →
     sys_runs s !! run_id = Some r → sys_runs (step fn ev s) !! run_id = Some r' →
     run_state r' = run_state r ∨ adapter_transition (run_state r) (run_state r') = true)
    as Hstep.
  { intros s ev run_id r r' Hreach Hadm Hr.
    pose proof (reachable_consistent s Hreach) as [Hti Htr Htu Hri Hce].
    destruct ev as [rid|rid cfg|rid|rid|rid|t].
    - simpl. destruct (decide (run_id = rid)) as [->|Hne].
      + simpl in Hadm. by apply Hri in Hr.
      + rewrite lookup_insert_ne by done. intros. left. congruence.
    - simpl. intros [Hr'|(-> & r0 & Hr0 & -> & Hst)]%initialise_run_lookup.
      + left. congruence.
      + assert (r0 = r) as -> by congruence. simpl.
        destruct Hst as [->| ->]; auto.
    - rewrite step_start.
      assert ((start_run rid (sys_next_thread s) (sys_runs s)).1.2 !! run_id = Some r' →
              run_state r' = run_state r ∨
              adapter_transition (run_state r) (run_state r') = true) as Hgo.
      { intros [Hr'|(-> & r0 & Hr0 & -> & Hst & _)]%start_run_lookup.
        - left. congruence.
        - assert (r0 = r) as -> by congruence. simpl.
          destruct Hst as [->| ->]; auto. }
      by destruct ((start_run rid (sys_next_thread s) (sys_runs s)).2).
    - simpl. intros. left. congruence.
    - simpl. unfold remove_run. intros [_ Hr']%lookup_delete_Some. left. congruence.
    - rewrite step_thread. destruct (sys_threads s !! t) as [rid|] eqn:Ht.
      + simpl. intros [Hr'|(-> & r0 & Hr0 & _ & Hst)]%exec_run_lookup.
        * left. congruence.
        * assert (r0 = r) as -> by congruence.
          rewrite (Htr _ _ _ Ht Hr). destruct Hst as [->| ->]; auto.
      + intros. left. congruence. }
  split; [exact Hstep|]. split; [|split].
  - intros s ev run_id r r' Hreach Hadm Hr Hr' Hterm.
    destruct (Hstep _ _ _ _ _ Hreach Hadm Hr Hr') as [|Htr]; [done|].
    destruct Hterm as [Hst|Hst]; rewrite Hst in Htr; done.
  - intros runs run_id t r Hr Hst. unfold start_run. rewrite Hr.
    by rewrite bool_decide_eq_true_2.
  - intros runs run_id cfg rid r r' Hr
      [Hr'|(-> & r0 & Hr0 & -> & Hst)]%initialise_run_lookup Hne.
    + congruence.
    + assert (r0 = r) as -> by congruence. simpl in *.
      destruct Hst as [Hst|Hst]; [done|]. by rewrite Hst in Hne.
Qed.

(** C10. [initialise_run] leaves the config of every record as it was, and
    in every state the adapter reaches that config is the empty dictionary
    the record was created with: the value passed in is not recorded. *)
Theorem initialise_run_keeps_config :
  (∀ runs run_id cfg rid r,
     runs !! rid = Some r →
     ∃ r', (initialise_run run_id cfg runs).2 !! rid = Some r' ∧
           run_config r' = run_config r) ∧
  (∀ s run_id cfg r,
     reachable fn s → sys_runs s !! run_id = Some r →
     ∃ r', initialise_run run_id cfg (sys_runs s) = (Ok r', sys_runs (step fn (Initialise run_id cfg) s)) ∧
           sys_runs (step fn (Initialise run_id cfg) s) !! run_id = Some r' ∧
           run_config r = JObj [] ∧ run_config r' = JObj []).
Proof.
  split.
  - intros runs run_id cfg rid r Hr. unfold initialise_run.
    destruct (runs !! run_id) as [r0|] eqn:Hr0; simpl; [|eauto].
    case_bool_decide; simpl; [|eauto].
    destruct (decide (rid = run_id)) as [->|Hne].
    + rewrite lookup_insert_eq. exists (set_state INITIALISED r0).
      split; [done|]. simpl. congruence.
    + rewrite lookup_insert_ne by done. eauto.
  - intros s run_id cfg r Hreach Hr.
    pose proof (configs_empty _ (reachable_consistent s Hreach) _ _ Hr) as Hc.
    simpl. unfold initialise_run. rewrite Hr.
    case_bool_decide; simpl.
    + exists (set_state INITIALISED r). by rewrite lookup_insert_eq.
    + by exists r.
Qed.

End AdapterProperties.

Lemma one_run_reachable : reachable demo_fn one_run.
Proof.
  apply reachable_step; [apply reachable_init|]. simpl. apply not_elem_of_empty.
Defined.

Lemma run_state_machine_witness :
  ∃ r r', sys_runs one_run !! "run-1" = Some r ∧
          sys_runs (step demo_fn (Start "run-1") one_run) !! "run-1" = Some r' ∧
          (run_state r' = run_state r ∨
           adapter_transition (run_state r) (run_state r') = true).
Proof.
  eexists _, _. split; [vm_compute; reflexivity|]. split; [vm_compute; reflexivity|].
  apply (proj1 (run_state_machine demo_fn) one_run (Start "run-1") "run-1").
  - exact one_run_reachable.
  - exact I.
  - vm_compute; reflexivity.
  - vm_compute; reflexivity.
Defined.

(** C9, as the claim has it, fails on a run that is started without being
    initialised: the record goes from PENDING to RUNNING in one step of a
    reachable state, and that is none of the four transitions drawn. *)
Lemma start_from_pending_counterexample :
  reachable demo_fn one_run ∧ admissible (Start "run-1") one_run ∧
  (run_state <$> sys_runs one_run !! "run-1") = Some PENDING ∧
  (run_state <$> sys_runs (step demo_fn (Start "run-1") one_run) !! "run-1") = Some RUNNING ∧
  drawn_transition PENDING RUNNING = false.
Proof.
  split; [exact one_run_reachable|]. split; [exact I|]. by vm_compute.
Qed.

Lemma initialise_run_keeps_config_witness :
  ∃ r', initialise_run "run-1" (JObj [("weather", JStr "RCP85")]) (sys_runs one_run)
          = (Ok r', sys_runs (step demo_fn (Initialise "run-1" (JObj [("weather", JStr "RCP85")])) one_run)) ∧
        sys_runs (step demo_fn (Initialise "run-1" (JObj [("weather", JStr "RCP85")])) one_run) !! "run-1"
          = Some r' ∧
        run_config (Run PENDING (JObj []) None None None) = JObj [] ∧ run_config r' = JObj [].
Proof.
  apply (proj2 (initialise_run_keeps_config demo_fn) one_run "run-1").
  - exact one_run_reachable.
  - vm_compute; reflexivity.
Defined.

(** ** The run that finds no weather file *)

Section RunLevelErrors.

Context (py_float : string → option float)
        (csv_reader : string → ascii → list (list string))
        (energyplus : s3_object → s3_object → engine_outcome)
        (cfg : settings).

Abbreviation batch := (run_energy_simulation_from_env py_float csv_reader energyplus cfg).

Lemma empty_index_exits b :
  index_epws_s3 b (S3_EPW_PREFIX cfg) = Ok ∅ →
  batch b =
    (Raise (Exn SystemExit ("No EPWs under s3://" +:+ S3_BUCKET cfg +:+ "/" +:+ S3_EPW_PREFIX cfg)), b).
Proof.
  intros Hidx. unfold run_energy_simulation_from_env. rewrite Hidx.
  by rewrite bool_decide_eq_true_2.
Qed.

Lemma exec_run_on_empty_index runs b run_id t r :
  runs !! run_id = Some r →
  run_state r = PENDING ∨ run_state r = INITIALISED →
  index_epws_s3 b (S3_EPW_PREFIX cfg) = Ok ∅ →
  start_run run_id t runs =
    (Ok (set_thread t (set_state RUNNING r)),
     <[run_id := set_thread t (set_state RUNNING r)]> runs, Some t) ∧
  ∀ runs', _exec_run batch run_id runs' b =
    (Raise (Exn SystemExit ("No EPWs under s3://" +:+ S3_BUCKET cfg +:+ "/" +:+ S3_EPW_PREFIX cfg)),
     runs', b).
Proof.
  intros Hr Hst Hidx. split.
  - assert (run_state r ∉ [RUNNING; SUCCEEDED; ERROR]) as Hnot.
    { rewrite elem_of_three. destruct Hst as [-> | ->]; intuition congruence. }
    unfold start_run. rewrite Hr. by rewrite bool_decide_eq_false_2.
  - intros runs'. unfold _exec_run. by rewrite empty_index_exits.
Qed.

(** No event but its removal changes the record of a stalled run. *)
Lemma stalled_step fn run_id r s ev :
  stalled run_id r s → admissible ev s → ev ≠ Remove run_id →
  stalled run_id r (step fn ev s).
Proof.
  intros (Hr & Hst & Hthreads & Hissued) Hadm Hev.
  destruct ev as [rid|rid config|rid|rid|rid|t].
  - simpl in Hadm. assert (rid ≠ run_id) by congruence.
    split_and!; simpl; [by rewrite lookup_insert_ne|done|done|set_solver].
  - assert (sys_runs (step fn (Initialise rid config) s) !! run_id = Some r) as Hr'.
    { simpl. unfold initialise_run. destruct (sys_runs s !! rid) as [r0|] eqn:Hr0; [|done].
      case_bool_decide as Hin; [|done]. simpl.
      destruct (decide (rid = run_id)) as [->|Hne]; [|by rewrite lookup_insert_ne].
      apply elem_of_two in Hin. destruct Hin; congruence. }
    by split_and!.
  - rewrite step_start.
    destruct (decide (rid = run_id)) as [->|Hne].
    + unfold start_run. rewrite Hr.
      rewrite bool_decide_eq_true_2 by (rewrite Hst; apply elem_of_three; auto).
      by split_and!.
    + assert ((start_run rid (sys_next_thread s) (sys_runs s)).1.2 !! run_id = Some r) as Hr'.
      { unfold start_run. destruct (sys_runs s !! rid) as [r0|]; [|done].
        case_bool_decide; [done|]. simpl. by rewrite lookup_insert_ne. }
      destruct ((start_run rid (sys_next_thread s) (sys_runs s)).2); split_and!; try done.
      simpl. intros t. destruct (decide (t = sys_next_thread s)) as [->|Hnt].
      * rewrite lookup_insert_eq. congruence.
      * by rewrite lookup_insert_ne.
  - by split_and!.
  - assert (rid ≠ run_id) by congruence.
    split_and!; simpl; try done. unfold remove_run. by rewrite lookup_delete_ne.
  - rewrite step_thread. destruct (sys_threads s !! t) as [rid|] eqn:Ht; [|by split_and!].
    assert (rid ≠ run_id) as Hne by (intros ->; by apply (Hthreads t)).
    split_and!; simpl; try done.
    + unfold _exec_run. destruct (fn (sys_bucket s)) as [[out|e] b']; simpl.
      * destruct (sys_runs s !! rid); [by rewrite lookup_insert_ne|done].
      * destruct (is_Exception (exn_class e)); simpl; [|done].
        destruct (sys_runs s !! rid); [by rewrite lookup_insert_ne|done].
    + intros t' [_ Ht']%lookup_delete_Some. by apply (Hthreads t').
Qed.

Lemma stalled_forever fn run_id r evs s :
  stalled run_id r s → admissible_all fn evs s → Remove run_id ∉ evs →
  stalled run_id r (run_events fn evs s).
Proof.
  revert s. induction evs as [|ev evs IH]; intros s Hs Hadm Hrem; [done|].
  destruct Hadm as [Hadm Hrest]. simpl. apply IH; [|done|].
  - apply stalled_step; [done..|]. intros ->. apply Hrem. left.
  - intros Hin. apply Hrem. by right.
Qed.

(** C1, where the code departs from the claim. When the weather index is
    empty the batch raises [SystemExit], which [except Exception] in
    [_exec_run] does not catch: a run that [start_run] started stays
    RUNNING once its thread has ended. Whatever happens to the adapter
    afterwards, short of removing the run, the status query reports
    RUNNING, not ERROR, and the error field is as it was before the
    start. *)
Theorem empty_weather_index_leaves_run_running s run_id r :
  reachable batch s →
  sys_runs s !! run_id = Some r →
  run_state r = PENDING ∨ run_state r = INITIALISED →
  index_epws_s3 (sys_bucket s) (S3_EPW_PREFIX cfg) = Ok ∅ →
  let started := step batch (Start run_id) s in
  let ended := step batch (ThreadRuns (sys_next_thread s)) started in
  sys_threads started !! sys_next_thread s = Some run_id ∧
  (∃ e, (batch (sys_bucket s)).1 = Raise e ∧ exn_class e = SystemExit) ∧
  ∀ evs, admissible_all batch evs ended → Remove run_id ∉ evs →
    status run_id (sys_runs (run_events batch evs ended)) = Ok RUNNING ∧
    (run_error <$> get_run run_id (sys_runs (run_events batch evs ended))) = Ok (run_error r).
Proof.
  intros Hreach Hr Hst Hidx started ended.
  pose proof (reachable_consistent _ s Hreach) as [Hti Htr Htu Hri Hce].
  destruct (exec_run_on_empty_index (sys_runs s) (sys_bucket s) run_id
              (sys_next_thread s) r Hr Hst Hidx) as [Hstart Hexec].
  assert (started = System (<[run_id := set_thread (sys_next_thread s) (set_state RUNNING r)]> (sys_runs s))
                      (sys_bucket s) (<[sys_next_thread s := run_id]> (sys_threads s))
                      (S (sys_next_thread s)) (sys_issued s)) as Hstarted.
  { unfold started. rewrite step_start. by rewrite Hstart. }
  assert (ended = System (<[run_id := set_thread (sys_next_thread s) (set_state RUNNING r)]> (sys_runs s))
                    (sys_bucket s) (delete (sys_next_thread s) (<[sys_next_thread s := run_id]> (sys_threads s)))
                    (S (sys_next_thread s)) (sys_issued s)) as Hended.
  { unfold ended. rewrite step_thread, Hstarted. simpl.
    rewrite lookup_insert_eq. by rewrite Hexec. }
  split; [by rewrite Hstarted; apply lookup_insert_eq|].
  split; [rewrite empty_index_exits by done; eauto|].
  intros evs Hadm Hrem.
  assert (stalled run_id (set_thread (sys_next_thread s) (set_state RUNNING r)) ended) as Hstalled.
  { rewrite Hended. split_and!; simpl.
    - apply lookup_insert_eq.
    - done.
    - intros t [Hne Ht]%lookup_delete_Some. rewrite lookup_insert_ne in Ht by done.
      specialize (Htr _ _ _ Ht Hr). destruct Hst; congruence.
    - eauto. }
  destruct (stalled_forever batch _ _ evs _ Hstalled Hadm Hrem) as (Hlook & _).
  unfold status, get_run. by rewrite Hlook.
Qed.

End RunLevelErrors.

Lemma empty_weather_index_witness :
  let started := step demo_fn (Start "run-1") one_run in
  let ended := step demo_fn (ThreadRuns (sys_next_thread one_run)) started in
  sys_threads started !! sys_next_thread one_run = Some "run-1" ∧
  (∃ e, (demo_fn (sys_bucket one_run)).1 = Raise e ∧ exn_class e = SystemExit) ∧
  ∀ evs, admissible_all demo_fn evs ended → Remove "run-1" ∉ evs →
    status "run-1" (sys_runs (run_events demo_fn evs ended)) = Ok RUNNING ∧
    (run_error <$> get_run "run-1" (sys_runs (run_events demo_fn evs ended))) = Ok None.
Proof.
  apply (empty_weather_index_leaves_run_running decimal_float plain_reader idle_engine
           default_settings one_run "run-1" (Run PENDING (JObj []) None None None)).
  - exact one_run_reachable.
  - vm_compute; reflexivity.
  - left; reflexivity.
  - vm_compute; reflexivity.
Defined.

(** ** The result workbooks *)

Section Worksheet.

Implicit Types (ws : worksheet) (row col : nat).

Lemma widest_insert_fresh ws k v :
  ws !! k = None → widest (<[k := v]> ws) = Nat.max k.2 (widest ws).
Proof.
  intros Hk. unfold widest. rewrite map_fold_insert_L; [done| |done].
  intros. lia.
Qed.

Lemma widest_insert ws k v : widest (<[k := v]> ws) = Nat.max k.2 (widest ws).
Proof.
  destruct (ws !! k) as [v0|] eqn:Hk; [|by apply widest_insert_fresh].
  rewrite <-insert_delete_eq.
  rewrite <-(insert_delete_id ws k v0) at 2 by done.
  rewrite !widest_insert_fresh by apply lookup_delete_eq. lia.
Qed.

Lemma max_column_insert ws row col v :
  max_column (<[(row, col) := v]> ws) = Nat.max col (max_column ws).
Proof. unfold max_column. rewrite widest_insert. simpl. lia. Qed.

Lemma max_column_pos ws : (1 ≤ max_column ws)%nat.
Proof. unfold max_column. lia. Qed.

Lemma get_cell_values ws row col k :
  mjoin (get_cell ws row col !! k) = mjoin (ws !! k).
Proof.
  unfold get_cell. destruct (ws !! (row, col)) eqn:Hc; [done|].
  destruct (decide (k = (row, col))) as [->|Hne].
  - by rewrite lookup_insert_eq, Hc.
  - by rewrite lookup_insert_ne.
Qed.

Lemma get_cell_mono ws row col k :
  is_Some (ws !! k) → is_Some (get_cell ws row col !! k).
Proof.
  unfold get_cell. destruct (ws !! (row, col)) eqn:Hc; [done|].
  destruct (decide (k = (row, col))) as [->|Hne].
  - rewrite lookup_insert_eq. eauto.
  - by rewrite lookup_insert_ne.
Qed.

Lemma get_cell_here ws row col : is_Some (get_cell ws row col !! (row, col)).
Proof.
  unfold get_cell. destruct (ws !! (row, col)) eqn:Hc; [by rewrite Hc|].
  rewrite lookup_insert_eq. eauto.
Qed.

Lemma get_cell_id ws row col : is_Some (ws !! (row, col)) → get_cell ws row col = ws.
Proof. intros [v Hv]. unfold get_cell. by rewrite Hv. Qed.

Lemma get_cell_max_column ws row col :
  (col ≤ max_column ws)%nat → max_column (get_cell ws row col) = max_column ws.
Proof.
  intros Hle. unfold get_cell. destruct (ws !! (row, col)); [done|].
  rewrite max_column_insert. lia.
Qed.

Lemma get_cell_textual ws row col : textual_headers ws → textual_headers (get_cell ws row col).
Proof.
  intros Hws r c v Hr Hc Hv. apply (Hws r c v Hr Hc).
  pose proof (get_cell_values ws row col (r, c)) as Hj. rewrite Hv in Hj. simpl in Hj.
  unfold get_cell in Hv. destruct (ws !! (row, col)) eqn:Hcell; [done|].
  destruct (decide ((r, c) = (row, col))) as [Heq|Hne].
  - rewrite Heq, lookup_insert_eq in Hv. done.
  - by rewrite lookup_insert_ne in Hv.
Qed.

Lemma header_text_textual ws row col :
  textual_headers ws → (row = 1 ∨ row = 2)%nat → (2 ≤ col)%nat →
  ∃ s, header_text (mjoin (ws !! (row, col))) = Ok s.
Proof.
  intros Hws Hr Hc. destruct (ws !! (row, col)) as [[v|]|] eqn:Hv; simpl; eauto.
  specialize (Hws _ _ _ Hr Hc Hv). destruct v; simpl in *.
  - destruct (negb (String.eqb s "")); eauto.
  - destruct (negb (z =? 0)); [done|eauto].
  - destruct (negb (PrimFloat.eqb x 0)); [done|eauto].
Qed.

(** On a sheet with textual headers the scan does not raise. *)
Lemma scan_columns_textual climate aging cols ws :
  textual_headers ws → Forall (λ c, 2 ≤ c)%nat cols →
  ∃ found ws', scan_columns climate aging cols ws = Ok (found, ws') ∧ textual_headers ws'.
Proof.
  intros Hws Hcols. revert ws Hws.
  induction Hcols as [|col cols Hcol _ IH]; intros ws Hws; simpl; [eauto|].
  destruct (header_text_textual ws 1 col Hws) as [c1 ->]; [auto|done|]. simpl.
  rewrite get_cell_values.
  destruct (header_text_textual ws 2 col Hws) as [c2 ->]; [auto|done|]. simpl.
  destruct (String.eqb c1 climate && String.eqb c2 aging).
  - eexists _, _. split; [done|]. by do 2 apply get_cell_textual.
  - apply IH. by do 2 apply get_cell_textual.
Qed.

Lemma py_range_ge a b : Forall (λ c, a ≤ c)%nat (py_range a b).
Proof.
  unfold py_range. apply Forall_forall. intros c Hc%list_elem_of_In%in_seq. lia.
Qed.

Lemma col_for_pair_textual ws climate aging :
  textual_headers ws → ∃ col ws', _col_for_pair ws climate aging = Ok (col, ws').
Proof.
  intros Hws. unfold _col_for_pair.
  edestruct (scan_columns_textual climate aging) as (found & ws' & -> & _);
    [done|apply py_range_ge|].
  simpl. destruct found; eauto.
Qed.

Lemma init_workbook_first_column row col :
  is_Some (_init_workbook !! (row, col)) → col = 1%nat.
Proof.
  unfold _init_workbook.
  assert (∀ l ws, (∀ r c, is_Some (ws !! (r, c)) → c = 1%nat) →
            ∀ r c, is_Some (foldl (λ ws iy, ws_set ws iy.1 1 (VInt iy.2)) ws l !! (r, c)) →
                   c = 1%nat) as Hfold.
  { induction l as [|iy l IH]; intros ws Hws; simpl; [done|].
    apply IH. intros r c. unfold ws_set.
    destruct (decide ((r, c) = (iy.1, 1%nat))) as [[= -> ->]|Hne]; [done|].
    rewrite lookup_insert_ne by done. apply Hws. }
  apply Hfold. intros r c. unfold ws_set.
  destruct (decide ((r, c) = (2, 1)%nat)) as [[= -> ->]|Hne]; [done|].
  rewrite lookup_insert_ne by done.
  destruct (decide ((r, c) = (1, 1)%nat)) as [[= -> ->]|Hne']; [done|].
  rewrite lookup_insert_ne by done. rewrite lookup_empty. by intros [? ?].
Qed.

Lemma init_workbook_textual : textual_headers _init_workbook.
Proof.
  intros row col v _ Hcol Hv.
  assert (col = 1%nat); [|lia].
  apply (init_workbook_first_column row). rewrite Hv. eauto.
Qed.

Lemma download_result_matrix b key :
  result_matrix_at b key →
  ∃ ws, _download_workbook_or_create b key = Ok ws ∧ textual_headers ws.
Proof.
  unfold result_matrix_at, _download_workbook_or_create, object_exists.
  destruct (b !! key) as [[data|ws]|] eqn:Hk; [done| |].
  - intros Hws. rewrite bool_decide_eq_true_2 by eauto. eauto.
  - intros _. rewrite bool_decide_eq_false_2 by (by intros [? ?]).
    eauto using init_workbook_textual.
Qed.

Lemma row_for_year_outside year :
  year < YEARS_START ∨ YEARS_END < year →
  _row_for_year year =
    Raise (Exn ValueError
             ("Year " +:+ str_of_int year +:+ " outside [" +:+ str_of_int YEARS_START
              +:+ ", " +:+ str_of_int YEARS_END +:+ "]")).
Proof.
  intros Hy. unfold _row_for_year.
  destruct (year <? YEARS_START) eqn:Hlo; [done|].
  destruct (year >? YEARS_END) eqn:Hhi; [done|].
  apply Z.ltb_ge in Hlo. rewrite Z.gtb_ltb in Hhi. apply Z.ltb_ge in Hhi. lia.
Qed.

(** C7. Writing an absent value returns at once: the bucket after the call
    is the bucket before it, so no workbook is made under a key that had
    none, and no cell of a stored workbook is made or changed. *)
Theorem absent_value_is_not_written b key climate aging year :
  write_result_to_s3 b key climate aging year None = (Ok (), b) ∧
  ∀ k, (write_result_to_s3 b key climate aging year None).2 !! k = b !! k.
Proof.
  assert (write_result_to_s3 b key climate aging year None = (Ok (), b)) as Hw by done.
  split; [exact Hw|]. intros k. by rewrite Hw.
Qed.

(** C5. With a year below [YEARS_START] or above [YEARS_END], writing a
    present value raises and leaves the bucket as it was; what is raised is
    the [ValueError] of [_row_for_year] whenever the key holds a result
    workbook or nothing yet. *)
Theorem year_out_of_range_write b key climate aging year value :
  year < YEARS_START ∨ YEARS_END < year →
  (write_result_to_s3 b key climate aging year (Some value)).2 = b ∧
  (∃ e, (write_result_to_s3 b key climate aging year (Some value)).1 = Raise e) ∧
  (result_matrix_at b key →
   (write_result_to_s3 b key climate aging year (Some value)).1 =
     Raise (Exn ValueError ("Year " +:+ str_of_int year +:+ " outside [2025, 2084]"))).
Proof.
  intros Hy. unfold write_result_to_s3.
  rewrite (row_for_year_outside year Hy).
  split; [|split].
  - destruct (_download_workbook_or_create b key) as [ws|e]; simpl; [|done].
    by destruct (_col_for_pair ws climate aging) as [[col ws']|e].
  - destruct (_download_workbook_or_create b key) as [ws|e]; simpl; [|eauto].
    destruct (_col_for_pair ws climate aging) as [[col ws']|e]; simpl; eauto.
  - intros (ws & -> & Hws)%download_result_matrix. simpl.
    destruct (col_for_pair_textual ws climate aging Hws) as (col & ws' & ->).
    done.
Qed.

Lemma header_text_stripped s : str_strip s = s → header_text (Some (VStr s)) = Ok s.
Proof.
  intros Hs. simpl. destruct s as [|c s]; [done|]. simpl. by rewrite Hs.
Qed.

Section Scan.

Context (climate aging : string).

Lemma scan_columns_step col cols ws :
  scan_columns climate aging (col :: cols) ws =
    c1 ← header_text (mjoin (ws !! (1, col)%nat));
    c2 ← header_text (mjoin (ws !! (2, col)%nat));
    if String.eqb c1 climate && String.eqb c2 aging
    then Ok (Some col, get_cell (get_cell ws 1 col) 2 col)
    else scan_columns climate aging cols (get_cell (get_cell ws 1 col) 2 col).
Proof.
  simpl. destruct (header_text (mjoin (ws !! (1, col)%nat))); simpl; [|done].
  by rewrite get_cell_values.
Qed.

Lemma header_pair_values ws ws' col :
  (∀ k, mjoin (ws' !! k) = mjoin (ws !! k)) → header_pair ws' col = header_pair ws col.
Proof. intros Hv. unfold header_pair. by rewrite !Hv. Qed.

Lemma header_pair_get_cell ws col c :
  header_pair (get_cell (get_cell ws 1 col) 2 col) c = header_pair ws c.
Proof. apply header_pair_values. intros k. by rewrite !get_cell_values. Qed.

Lemma scan_columns_values cols ws found ws' :
  scan_columns climate aging cols ws = Ok (found, ws') →
  ∀ k, mjoin (ws' !! k) = mjoin (ws !! k).
Proof.
  revert ws. induction cols as [|col cols IH]; intros ws.
  - simpl. by intros [= _ <-].
  - rewrite scan_columns_step.
    destruct (header_text (mjoin (ws !! (1, col)%nat))) as [c1|]; simpl; [|done].
    destruct (header_text (mjoin (ws !! (2, col)%nat))) as [c2|]; simpl; [|done].
    destruct (String.eqb c1 climate && String.eqb c2 aging).
    + intros [= _ <-] k. by rewrite !get_cell_values.
    + intros Hscan k. rewrite (IH _ Hscan). by rewrite !get_cell_values.
Qed.

Lemma scan_columns_mono cols ws found ws' :
  scan_columns climate aging cols ws = Ok (found, ws') →
  ∀ k, is_Some (ws !! k) → is_Some (ws' !! k).
Proof.
  revert ws. induction cols as [|col cols IH]; intros ws.
  - simpl. by intros [= _ <-].
  - rewrite scan_columns_step.
    destruct (header_text (mjoin (ws !! (1, col)%nat))) as [c1|]; simpl; [|done].
    destruct (header_text (mjoin (ws !! (2, col)%nat))) as [c2|]; simpl; [|done].
    destruct (String.eqb c1 climate && String.eqb c2 aging).
    + intros [= _ <-] k Hk. by do 2 apply get_cell_mono.
    + intros Hscan k Hk. apply (IH _ Hscan). by do 2 apply get_cell_mono.
Qed.

Lemma scan_columns_max cols ws found ws' :
  scan_columns climate aging cols ws = Ok (found, ws') →
  Forall (λ c, c ≤ max_column ws)%nat cols →
  max_column ws' = max_column ws.
Proof.
  revert ws. induction cols as [|col cols IH]; intros ws.
  - simpl. by intros [= _ <-].
  - rewrite scan_columns_step. intros Hscan [Hcol Hcols]%Forall_cons.
    destruct (header_text (mjoin (ws !! (1, col)%nat))) as [c1|]; simpl in Hscan; [|done].
    destruct (header_text (mjoin (ws !! (2, col)%nat))) as [c2|]; simpl in Hscan; [|done].
    assert (max_column (get_cell (get_cell ws 1 col) 2 col) = max_column ws) as Hmax.
    { rewrite get_cell_max_column; rewrite get_cell_max_column; done. }
    destruct (String.eqb c1 climate && String.eqb c2 aging).
    + by injection Hscan as _ <-.
    + rewrite <-Hmax. apply IH; [done|]. by rewrite Hmax.
Qed.

Lemma scan_columns_found cols ws col ws' :
  scan_columns climate aging cols ws = Ok (Some col, ws') →
  col ∈ cols ∧ header_pair ws col = Ok (climate, aging).
Proof.
  revert ws. induction cols as [|c cols IH]; intros ws; [done|].
  rewrite scan_columns_step. unfold header_pair.
  destruct (header_text (mjoin (ws !! (1, c)%nat))) as [c1|] eqn:H1; simpl; [|done].
  destruct (header_text (mjoin (ws !! (2, c)%nat))) as [c2|] eqn:H2; simpl; [|done].
  destruct (String.eqb c1 climate && String.eqb c2 aging) eqn:Heq.
  - intros [= <- _]. split; [left|]. rewrite H1, H2. simpl.
    apply andb_true_iff in Heq as [->%String.eqb_eq ->%String.eqb_eq]. done.
  - intros [Hin Hp]%IH. split; [by right|].
    by rewrite header_pair_get_cell in Hp.
Qed.

Lemma scan_columns_none cols ws ws' :
  scan_columns climate aging cols ws = Ok (None, ws') →
  ∀ col, col ∈ cols → header_pair ws col ≠ Ok (climate, aging).
Proof.
  revert ws. induction cols as [|c cols IH]; intros ws; [by intros _ col ?%elem_of_nil|].
  rewrite scan_columns_step.
  destruct (header_text (mjoin (ws !! (1, c)%nat))) as [c1|] eqn:H1; simpl; [|done].
  destruct (header_text (mjoin (ws !! (2, c)%nat))) as [c2|] eqn:H2; simpl; [|done].
  destruct (String.eqb c1 climate && String.eqb c2 aging) eqn:Heq; [done|].
  intros Hscan col [->|Hin]%elem_of_cons.
  - unfold header_pair. rewrite H1, H2. simpl. intros [= -> ->].
    by rewrite !String.eqb_refl in Heq.
  - specialize (IH _ Hscan col Hin). by rewrite header_pair_get_cell in IH.
Qed.

(** A second scan of the same columns, on a sheet with the same header
    values in which the cells the first scan made exist, ends as the first
    and makes nothing. *)
Lemma scan_columns_again cols ws found ws' w2 :
  scan_columns climate aging cols ws = Ok (found, ws') →
  (∀ col row, col ∈ cols → (row = 1 ∨ row = 2)%nat →
     mjoin (w2 !! (row, col)) = mjoin (ws !! (row, col))) →
  (∀ k, is_Some (ws' !! k) → is_Some (w2 !! k)) →
  scan_columns climate aging cols w2 = Ok (found, w2).
Proof.
  revert ws. induction cols as [|c cols IH]; intros ws.
  - simpl. by intros [= <- _].
  - rewrite !scan_columns_step. intros Hscan Hval Hdom.
    rewrite !Hval by (auto; left).
    destruct (header_text (mjoin (ws !! (1, c)%nat))) as [c1|] eqn:H1; simpl; [|done].
    destruct (header_text (mjoin (ws !! (2, c)%nat))) as [c2|] eqn:H2; simpl; [|done].
    simpl in Hscan.
    assert (∀ k, is_Some (get_cell (get_cell ws 1 c) 2 c !! k) → is_Some (w2 !! k)) as Hsub.
    { intros k Hk. apply Hdom.
      destruct (String.eqb c1 climate && String.eqb c2 aging).
      - by injection Hscan as _ <-.
      - by apply (scan_columns_mono _ _ _ _ Hscan). }
    assert (get_cell (get_cell w2 1 c) 2 c = w2) as ->.
    { rewrite (get_cell_id w2 1 c).
      - apply get_cell_id, Hsub, get_cell_here.
      - apply Hsub, get_cell_mono, get_cell_here. }
    destruct (String.eqb c1 climate && String.eqb c2 aging).
    + by injection Hscan as <- _.
    + apply (IH _ Hscan); [|done].
      intros col row Hcol Hrow. rewrite !get_cell_values. apply Hval; [by right|done].
Qed.

Lemma scan_columns_app l1 l2 ws :
  scan_columns climate aging (l1 ++ l2) ws =
    match scan_columns climate aging l1 ws with
    | Ok (None, ws1) => scan_columns climate aging l2 ws1
    | r => r
    end.
Proof.
  revert ws. induction l1 as [|c l1 IH]; intros ws; [done|].
  rewrite <-app_comm_cons, !scan_columns_step.
  destruct (header_text (mjoin (ws !! (1, c)%nat))) as [c1|]; simpl; [|done].
  destruct (header_text (mjoin (ws !! (2, c)%nat))) as [c2|]; simpl; [|done].
  by destruct (String.eqb c1 climate && String.eqb c2 aging).
Qed.

End Scan.

Lemma py_range_elem a b c : c ∈ py_range a b ↔ (a ≤ c < b)%nat.
Proof. unfold py_range. rewrite list_elem_of_In, in_seq. lia. Qed.

Lemma py_range_snoc a b : (a ≤ b)%nat → py_range a (S b) = py_range a b ++ [b].
Proof.
  intros Hab. unfold py_range. replace (S b - a)%nat with (S (b - a)) by lia.
  rewrite seq_S. do 2 f_equal. lia.
Qed.

Lemma distinct_headers_init : distinct_headers _init_workbook.
Proof.
  assert (max_column _init_workbook = 1%nat) as Hmax by (by vm_compute).
  intros c1 c2 p. rewrite Hmax. lia.
Qed.

Lemma col_for_pair_twice ws climate aging col ws1 :
  str_strip climate = climate → str_strip aging = aging →
  _col_for_pair ws climate aging = Ok (col, ws1) →
  _col_for_pair ws1 climate aging = Ok (col, ws1) ∧
  (2 ≤ col ≤ max_column ws1)%nat ∧
  header_pair ws1 col = Ok (climate, aging) ∧
  (distinct_headers ws → distinct_headers ws1).
Proof.
  intros Hcl Hag. unfold _col_for_pair.
  pose proof (max_column_pos ws) as Hpos.
  assert ((max_column ws =? 0)%nat = false) as -> by (apply Nat.eqb_neq; lia).
  destruct (scan_columns climate aging (py_range 2 (max_column ws + 1)) ws)
    as [[found ws']|e] eqn:Hscan; cbn -[Nat.leb]; [|done].
  assert (max_column ws' = max_column ws) as Hmax.
  { apply (scan_columns_max _ _ _ _ _ _ Hscan), Forall_forall.
    intros c Hc%py_range_elem. lia. }
  pose proof (scan_columns_values _ _ _ _ _ _ Hscan) as Hval.
  destruct found as [c|].
  - (* the pair was found in column [c] *)
    intros [= <- <-]. rewrite Hmax.
    assert ((max_column ws =? 0)%nat = false) as -> by (apply Nat.eqb_neq; lia).
    apply scan_columns_found in Hscan as Hfound. destruct Hfound as [Hc%py_range_elem Hp].
    rewrite (scan_columns_again _ _ _ _ _ _ ws' Hscan); simpl; [|by intros; rewrite Hval|done].
    split; [done|]. split; [lia|]. split; [by rewrite (header_pair_values ws ws')|].
    intros Hd c1 c2 p. rewrite Hmax, !(header_pair_values ws ws') by done. apply Hd.
  - (* a new column is made *)
    unfold ws_set.
    set (n := if (2 <=? max_column ws)%nat then (max_column ws + 1)%nat else 2%nat).
    intros [= <- <-].
    assert (n = max_column ws + 1)%nat as Hn.
    { unfold n. destruct (2 <=? max_column ws)%nat eqn:Hle; [lia|].
      apply Nat.leb_gt in Hle. lia. }
    assert (py_range 2 (n + 1) = py_range 2 (max_column ws + 1) ++ [n]) as Hrange.
    { unfold n. destruct (2 <=? max_column ws)%nat eqn:Hle.
      - apply Nat.leb_le in Hle. rewrite (Nat.add_1_r (_ + 1)).
        apply py_range_snoc. lia.
      - apply Nat.leb_gt in Hle. by replace (max_column ws) with 1%nat by lia. }
    set (ws1 := <[(2, n)%nat := Some (VStr aging)]> (<[(1, n)%nat := Some (VStr climate)]> ws')).
    assert (max_column ws1 = n) as Hmax1.
    { unfold ws1. rewrite !max_column_insert. lia. }
    assert (ws1 !! (1, n)%nat = Some (Some (VStr climate))) as H1.
    { unfold ws1. rewrite lookup_insert_ne by done. apply lookup_insert_eq. }
    assert (ws1 !! (2, n)%nat = Some (Some (VStr aging))) as H2.
    { unfold ws1. apply lookup_insert_eq. }
    assert (∀ row c, c ≠ n → ws1 !! (row, c) = ws' !! (row, c)) as Hother.
    { intros row c Hc. unfold ws1. rewrite !lookup_insert_ne; [done|..]; congruence. }
    assert (header_pair ws1 n = Ok (climate, aging)) as Hpn.
    { unfold header_pair. rewrite H1, H2. cbn [mjoin option_join].
      by rewrite !header_text_stripped. }
    assert (∀ c, c ≠ n → header_pair ws1 c = header_pair ws c) as Hpc.
    { intros c Hc. unfold header_pair. by rewrite !Hother, !Hval. }
    rewrite Hmax1.
    assert ((n =? 0)%nat = false) as -> by (apply Nat.eqb_neq; lia).
    rewrite Hrange, scan_columns_app.
    rewrite (scan_columns_again _ _ _ _ _ _ ws1 Hscan).
    + rewrite scan_columns_step, H1, H2. cbn [mjoin option_join].
      rewrite !header_text_stripped by done. simpl.
      rewrite !String.eqb_refl. simpl.
      rewrite !get_cell_id; [|by rewrite H1|rewrite get_cell_id; by rewrite ?H2, ?H1].
      split; [done|]. split; [lia|]. split; [done|].
      intros Hd c1 c2 p Hc1 Hc2. rewrite Hmax1 in Hc1, Hc2.
      destruct (decide (c1 = n)) as [->|Hn1]; destruct (decide (c2 = n)) as [->|Hn2];
        [done|..].
      * rewrite Hpn, Hpc by done. intros [= <-] Hp.
        destruct (scan_columns_none _ _ _ _ _ Hscan c2); [apply py_range_elem; lia|done].
      * rewrite Hpn, Hpc by done. intros Hp [= <-].
        destruct (scan_columns_none _ _ _ _ _ Hscan c1); [apply py_range_elem; lia|done].
      * rewrite !Hpc by done. apply Hd; lia.
    + intros c row Hc%py_range_elem Hrow. rewrite Hother by lia. apply Hval.
    + intros [row c] Hk. unfold ws1.
      destruct (decide ((row, c) = (2, n)%nat)) as [->|Hne2]; [by rewrite lookup_insert_eq|].
      rewrite lookup_insert_ne by done.
      destruct (decide ((row, c) = (1, n)%nat)) as [->|Hne1]; [by rewrite lookup_insert_eq|].
      by rewrite lookup_insert_ne.
Qed.


Lemma widest_ge ws k v : ws !! k = Some v → (k.2 ≤ widest ws)%nat.
Proof.
  unfold widest. revert k v.
  apply (map_fold_weak_ind (λ r (m : worksheet), ∀ k v, m !! k = Some v → (k.2 ≤ r)%nat)).
  - intros k v. by rewrite lookup_empty.
  - intros i x m r Hi IH k v. destruct (decide (k = i)) as [->|Hne].
    + intros _. lia.
    + rewrite lookup_insert_ne by done. intros ?%IH. lia.
Qed.

Lemma widest_le ws bound : (∀ k v, ws !! k = Some v → (k.2 ≤ bound)%nat) → (widest ws ≤ bound)%nat.
Proof.
  unfold widest.
  apply (map_fold_weak_ind
           (λ r (m : worksheet), (∀ k v, m !! k = Some v → (k.2 ≤ bound)%nat) → (r ≤ bound)%nat)).
  - lia.
  - intros i x m r Hi IH Hall.
    assert (i.2 ≤ bound)%nat by (apply (Hall i x), lookup_insert_eq).
    assert (r ≤ bound)%nat; [|lia].
    apply IH. intros k v Hk. apply (Hall k v). rewrite lookup_insert_ne; [done|congruence].
Qed.

Lemma saved_values ws k : mjoin (saved ws !! k) = mjoin (ws !! k).
Proof.
  unfold saved. destruct (ws !! k) as [[v|]|] eqn:Hk.
  - by rewrite (map_lookup_filter_Some_2 _ _ _ _ Hk).
  - rewrite map_lookup_filter_None_2; [done|]. right. intros x Hx [y Hy]. simpl in Hy. congruence.
  - rewrite map_lookup_filter_None_2; [done|]. by left.
Qed.

Lemma saved_max_column ws : (max_column (saved ws) ≤ max_column ws)%nat.
Proof.
  unfold max_column. assert (widest (saved ws) ≤ widest ws)%nat; [|lia].
  apply widest_le. intros k v [Hk _]%map_lookup_filter_Some. by eapply widest_ge.
Qed.

(** A sheet with the header values of another, and no more columns, has no
    more repeated header pairs. *)
Lemma distinct_headers_values ws ws' :
  (∀ k, (k.1 = 1 ∨ k.1 = 2)%nat → mjoin (ws' !! k) = mjoin (ws !! k)) →
  (max_column ws' ≤ max_column ws)%nat →
  distinct_headers ws → distinct_headers ws'.
Proof.
  intros Hval Hmax Hd c1 c2 p Hc1 Hc2. unfold header_pair.
  rewrite !Hval by (simpl; auto). apply Hd; lia.
Qed.

Lemma write_result_distinct b key climate aging year value :
  str_strip climate = climate → str_strip aging = aging →
  stored_distinct b key →
  stored_distinct (write_result_to_s3 b key climate aging year (Some value)).2 key.
Proof.
  intros Hcl Hag Hb. unfold write_result_to_s3.
  destruct (_download_workbook_or_create b key) as [ws|e] eqn:Hload; simpl; [|done].
  assert (distinct_headers ws) as Hws.
  { unfold _download_workbook_or_create, object_exists in Hload.
    destruct (b !! key) as [[data|ws0]|] eqn:Hk.
    - by rewrite bool_decide_eq_true_2 in Hload by eauto.
    - rewrite bool_decide_eq_true_2 in Hload by eauto. injection Hload as <-. by apply Hb.
    - rewrite bool_decide_eq_false_2 in Hload by (by intros [? ?]).
      injection Hload as <-. apply distinct_headers_init. }
  destruct (_col_for_pair ws climate aging) as [[col ws1]|e] eqn:Hcol; simpl; [|done].
  destruct (col_for_pair_twice _ _ _ _ _ Hcl Hag Hcol) as (_ & Hrange & _ & Hd).
  unfold _row_for_year.
  destruct ((year <? YEARS_START) || (year >? YEARS_END)) eqn:Hy; simpl; [done|].
  apply orb_false_iff in Hy as [Hlo%Z.ltb_ge _].
  intros ws' Hlook. unfold _upload_workbook in Hlook.
  rewrite lookup_insert_eq in Hlook. injection Hlook as <-.
  apply (distinct_headers_values ws1); [| |by apply Hd].
  - intros [row c] Hrow. rewrite saved_values. unfold ws_set.
    rewrite lookup_insert_ne; [done|]. simpl in Hrow.
    intros [= <- _]. unfold YEARS_START in *. lia.
  - etrans; [apply saved_max_column|]. unfold ws_set. rewrite max_column_insert. lia.
Qed.

(** C6, as amended. For a scenario and an aging code without surrounding
    whitespace (as every parsed name gives them): on a sheet with textual
    headers [_col_for_pair] returns a column; whenever it returns a column,
    a second call with the same arguments returns the same column and makes
    nothing more, that column carries the header pair, and a sheet in which
    no two columns share a header pair stays so. The fresh workbook is such
    a sheet, and a stored workbook that is such a sheet is one after every
    write of a result. *)
Theorem column_resolution_idempotent ws climate aging :
  str_strip climate = climate → str_strip aging = aging →
  (textual_headers ws → ∃ col ws1, _col_for_pair ws climate aging = Ok (col, ws1)) ∧
  (∀ col ws1,
     _col_for_pair ws climate aging = Ok (col, ws1) →
     _col_for_pair ws1 climate aging = Ok (col, ws1) ∧
     (2 ≤ col ≤ max_column ws1)%nat ∧
     header_pair ws1 col = Ok (climate, aging) ∧
     (distinct_headers ws → distinct_headers ws1)) ∧
  distinct_headers _init_workbook ∧
  (∀ b key year value,
     stored_distinct b key →
     stored_distinct (write_result_to_s3 b key climate aging year (Some value)).2 key).
Proof.
  intros Hcl Hag. split_and!.
  - apply col_for_pair_textual.
  - intros col ws1. by apply col_for_pair_twice.
  - apply distinct_headers_init.
  - intros b key year value. by apply write_result_distinct.
Qed.

End Worksheet.

Lemma column_resolution_witness :
  (textual_headers _init_workbook →
   ∃ col ws1, _col_for_pair _init_workbook "RCP85" "E12" = Ok (col, ws1)) ∧
  (∀ col ws1,
     _col_for_pair _init_workbook "RCP85" "E12" = Ok (col, ws1) →
     _col_for_pair ws1 "RCP85" "E12" = Ok (col, ws1) ∧
     (2 ≤ col ≤ max_column ws1)%nat ∧
     header_pair ws1 col = Ok ("RCP85", "E12") ∧
     (distinct_headers _init_workbook → distinct_headers ws1)) ∧
  distinct_headers _init_workbook ∧
  (∀ b key year value,
     stored_distinct b key →
     stored_distinct (write_result_to_s3 b key "RCP85" "E12" year (Some value)).2 key).
Proof.
  apply (column_resolution_idempotent _init_workbook "RCP85" "E12"); reflexivity.
Defined.

(** C6, as the claim has it, fails for an argument with surrounding
    whitespace: the stored header is compared stripped with the argument
    as passed, so the second call does not find the column the first call
    made and makes another with the same header cells. *)
Lemma padded_scenario_counterexample :
  (fst <$> padded_first) = Ok 2%nat ∧
  (fst <$> padded_second) = Ok 3%nat ∧
  (snd <$> padded_second) ≫= (λ ws2, Ok (ws2 !! (1, 2)%nat, ws2 !! (2, 2)%nat)) =
    Ok (Some (Some (VStr " RCP85")), Some (Some (VStr "E12"))) ∧
  (snd <$> padded_second) ≫= (λ ws2, Ok (ws2 !! (1, 3)%nat, ws2 !! (2, 3)%nat)) =
    Ok (Some (Some (VStr " RCP85")), Some (Some (VStr "E12"))).
Proof. by vm_compute. Qed.

Lemma year_out_of_range_write_witness :
  (write_result_to_s3 ∅ TOTAL_XLSX_KEY "RCP85" "E12" 2090 (Some 125000.5%float)).2 = ∅ ∧
  (∃ e, (write_result_to_s3 ∅ TOTAL_XLSX_KEY "RCP85" "E12" 2090 (Some 125000.5%float)).1 = Raise e) ∧
  (result_matrix_at ∅ TOTAL_XLSX_KEY →
   (write_result_to_s3 ∅ TOTAL_XLSX_KEY "RCP85" "E12" 2090 (Some 125000.5%float)).1 =
     Raise (Exn ValueError ("Year " +:+ str_of_int 2090 +:+ " outside [2025, 2084]"))).
Proof.
  apply (year_out_of_range_write ∅ TOTAL_XLSX_KEY "RCP85" "E12" 2090 125000.5%float).
  right. reflexivity.
Defined.

(** ** Metric extraction: the order of the strategies *)

Section ExtractionOrder.

Context (py_float : string → option float)
        (csv_reader : string → ascii → list (list string)).

Abbreviation sql_strategy d := (fetch_from_sql py_float d).
Abbreviation tab_strategy d :=
  (_fetch_from_tabular_text py_float csv_reader eplustbl_tab (tab_file d) "009").
Abbreviation csv_strategy d :=
  (_fetch_from_tabular_text py_float csv_reader eplustbl_csv (csv_file d) ",").
Abbreviation any d := (fetch_metrics_any py_float csv_reader d).

Lemma touches_nil f : touches f [] ↔ False.
Proof. unfold touches. rewrite !elem_of_nil. tauto. Qed.

Lemma touches_cons f ev evs :
  touches f (ev :: evs) ↔ (PathExists f = ev ∨ OpenFile f = ev) ∨ touches f evs.
Proof. unfold touches. rewrite !elem_of_cons. tauto. Qed.

Lemma touches_app f evs1 evs2 : touches f (evs1 ++ evs2) ↔ touches f evs1 ∨ touches f evs2.
Proof. unfold touches. rewrite !elem_of_app. tauto. Qed.

Lemma yields_pair (t p : option float) :
  bool_decide (t ≠ None ∨ p ≠ None) = yields (t, p).
Proof. done. Qed.

Lemma fetch_from_sql_events d f :
  touches f (events (sql_strategy d)) → f = eplusout_sql.
Proof.
  unfold fetch_from_sql, touches. destruct (sql_file d) as [[table|message]|]; simpl;
    rewrite ?elem_of_cons, ?elem_of_nil; intuition congruence.
Qed.

Lemma fetch_from_tabular_text_events f file delimiter g :
  touches g (events (_fetch_from_tabular_text py_float csv_reader f file delimiter)) → g = f.
Proof.
  unfold _fetch_from_tabular_text, touches. destruct file; simpl;
    rewrite ?elem_of_cons, ?elem_of_nil; intuition congruence.
Qed.

Lemma fetch_from_sql_absent d : sql_file d = None → outcome (sql_strategy d) = Ok (None, None).
Proof. unfold fetch_from_sql. by intros ->. Qed.

(** The outcome and the accesses of [fetch_metrics_any], by cases on what
    the strategies give. *)
Lemma fetch_metrics_any_cases d :
  match outcome (sql_strategy d) with
  | Raise e => True
  | Ok m1 =>
      if yields m1 then
        outcome (any d) = Ok (m1.1, m1.2, "sql") ∧
        ∀ f, touches f (events (any d)) → f = eplusout_sql
      else
        match outcome (tab_strategy d) with
        | Raise e => outcome (any d) = Raise e
        | Ok m2 =>
            if yields m2 then
              outcome (any d) = Ok (m2.1, m2.2, "tab") ∧
              ∀ f, touches f (events (any d)) → f ≠ eplustbl_csv
            else
              match outcome (csv_strategy d) with
              | Raise e => outcome (any d) = Raise e
              | Ok m3 =>
                  if yields m3 then outcome (any d) = Ok (m3.1, m3.2, "csv")
                  else outcome (any d) = Ok (None, None, "none")
              end
        end
  end.
Proof.
  pose proof (fetch_from_sql_events d) as HeS.
  pose proof (fetch_from_tabular_text_events eplustbl_tab (tab_file d) "009") as HeT.
  pose proof (fetch_from_tabular_text_events eplustbl_csv (csv_file d) ",") as HeC.
  pose proof (fetch_from_sql_absent d) as Habs.
  unfold fetch_metrics_any.
  destruct (sql_strategy d) as [oS eS], (tab_strategy d) as [oT eT],
    (csv_strategy d) as [oC eC].
  simpl in HeS, HeT, HeC, Habs.
  assert (∀ f, touches f eT → f ≠ eplustbl_csv) as HeT'.
  { intros f ->%HeT. done. }
  destruct (sql_file d) as [table|]; cbn.
  - destruct oS as [[t1 p1]|e]; cbn; [|done].
    rewrite yields_pair. destruct (yields (t1, p1)); cbn.
    { split; [done|]. intros f. rewrite !touches_cons, touches_app, touches_nil.
      intros [[[= ->]|[=]]|[->%HeS|[]]]; done. }
    destruct oT as [[t2 p2]|e]; cbn; [|done].
    rewrite yields_pair. destruct (yields (t2, p2)); cbn.
    { split; [done|]. intros f. rewrite !touches_cons, !touches_app, touches_nil.
      intros [[[= ->]|[=]]|[->%HeS|[->%HeT|[]]]]; done. }
    destruct oC as [[t3 p3]|e]; cbn; [|done].
    rewrite yields_pair. by destruct (yields (t3, p3)).
  - rewrite Habs by done. cbn.
    destruct oT as [[t2 p2]|e]; cbn; [|done].
    rewrite yields_pair. destruct (yields (t2, p2)); cbn.
    { split; [done|]. intros f. rewrite !touches_cons, !touches_app, touches_nil.
      intros [[[= ->]|[=]]|[->%HeT|[]]]; done. }
    destruct oC as [[t3 p3]|e]; cbn; [|done].
    rewrite yields_pair. by destruct (yields (t3, p3)).
Qed.

Lemma fetch_from_sql_unqueryable d message :
  sql_file d = Some (Unqueryable message) →
  outcome (sql_strategy d) = Raise (Exn DatabaseError message) ∧
  outcome (any d) = Raise (Exn DatabaseError message) ∧
  events (any d) = [PathExists eplusout_sql; PathExists eplusout_sql; OpenFile eplusout_sql].
Proof.
  intros Hd. unfold fetch_metrics_any, fetch_from_sql. rewrite Hd. by cbn.
Qed.

End ExtractionOrder.

(** ** Metric extraction: the search through a report *)

Lemma for_return_some {A B} (body : A → result (option B)) l b :
  for_return body l = Ok (Some b) → ∃ x, x ∈ l ∧ body x = Ok (Some b).
Proof.
  induction l as [|x l IH]; simpl; [done|].
  destruct (body x) as [[b'|]|e] eqn:Hx; try done.
  - intros [= ->]. exists x. split; [left|done].
  - intros (y & Hy & Hb)%IH. exists y. split; [by right|done].
Qed.

Lemma for_return_ok {A B} (body : A → result (option B)) l :
  (∀ x, x ∈ l → ∃ o, body x = Ok o) → ∃ o, for_return body l = Ok o.
Proof.
  induction l as [|x l IH]; intros Hl; simpl; [eauto|].
  destruct (Hl x) as [[b|] ->]; [left|eauto|].
  apply IH. intros y Hy. apply Hl. by right.
Qed.

(** The loop returns what the body returns at the first element at which
    the body does not fall through. *)
Lemma for_return_at {A B} (body : A → result (option B)) l n x b :
  l !! n = Some x →
  (∀ m y, (m < n)%nat → l !! m = Some y → body y = Ok None) →
  body x = Ok (Some b) →
  for_return body l = Ok (Some b).
Proof.
  revert n. induction l as [|y l IH]; intros n Hn Hbefore Hx; [done|].
  destruct n as [|n]; simpl in *.
  - injection Hn as ->. by rewrite Hx.
  - rewrite (Hbefore 0%nat y) by (done || lia).
    apply (IH n); [done| |done].
    intros m z Hm Hz. apply (Hbefore (S m)); [lia|done].
Qed.

Lemma enumerate_lookup {A} (l : list A) n : enumerate l !! n = (λ x, (n, x)) <$> l !! n.
Proof.
  unfold enumerate. rewrite lookup_zip_with.
  destruct (l !! n) as [x|] eqn:Hx; simpl.
  - rewrite lookup_seq_lt by (by eapply lookup_lt_Some). done.
  - by destruct (seq 0 (length l) !! n).
Qed.

Lemma py_range_lookup a b n : (a + n < b)%nat → py_range a b !! n = Some (a + n)%nat.
Proof. intros Hn. unfold py_range. apply lookup_seq_lt. lia. Qed.

Lemma py_range_lookup_Some a b n c : py_range a b !! n = Some c → c = (a + n)%nat ∧ (c < b)%nat.
Proof. unfold py_range. intros [-> Hn]%lookup_seq. lia. Qed.

Lemma item_lookup {A} (l : list A) i x : l !! i = Some x → item l i = Ok x.
Proof. unfold item. by intros ->. Qed.

Lemma item_lt {A} (l : list A) i : (i < length l)%nat → ∃ x, l !! i = Some x ∧ item l i = Ok x.
Proof. intros [x Hx]%lookup_lt_is_Some. exists x. split; [done|by apply item_lookup]. Qed.

Lemma find_header_ok rows ks :
  (∀ k, k ∈ ks → (k < length rows)%nat) → ∃ o, find_header rows ks = Ok o.
Proof.
  induction ks as [|k ks IH]; intros Hks; simpl; [eauto|].
  destruct (item_lt rows k) as (r & _ & ->); [apply Hks; left|]. simpl.
  destruct (is_header_row r); [eauto|]. apply IH. intros k' Hk'. apply Hks. by right.
Qed.

Lemma find_header_some rows ks k :
  find_header rows ks = Ok (Some k) →
  k ∈ ks ∧ ∃ r, rows !! k = Some r ∧ is_header_row r = true.
Proof.
  induction ks as [|k' ks IH]; simpl; [done|]. unfold item.
  destruct (rows !! k') as [r|] eqn:Hr; simpl; [|done].
  destruct (is_header_row r) eqn:Hh.
  - intros [= <-]. split; [left|eauto].
  - intros [Hin Hk]%IH. split; [by right|done].
Qed.

Lemma find_header_none rows ks :
  find_header rows ks = Ok None →
  ∀ k r, k ∈ ks → rows !! k = Some r → is_header_row r = false.
Proof.
  induction ks as [|k' ks IH]; simpl; [by intros _ k r ?%elem_of_nil|]. unfold item.
  destruct (rows !! k') as [r'|] eqn:Hr; simpl; [|done].
  destruct (is_header_row r') eqn:Hh; [done|].
  intros Hf k r [->|Hin]%elem_of_cons Hk; [congruence|eauto].
Qed.

(** The loop finds the first header row of its range. *)
Lemma find_header_at rows ks n k :
  ks !! n = Some k →
  (∀ m k', (m < n)%nat → ks !! m = Some k' → row_is is_header_row rows k' = false ∧ is_Some (rows !! k')) →
  row_is is_header_row rows k = true →
  find_header rows ks = Ok (Some k).
Proof.
  revert n. induction ks as [|k0 ks IH]; intros n Hn Hbefore Hk; [done|].
  destruct n as [|n]; simpl in *.
  - injection Hn as ->. unfold row_is in Hk. unfold item.
    destruct (rows !! k) as [r|]; [|done]. simpl. by rewrite Hk.
  - destruct (Hbefore 0%nat k0) as [Hno [r Hr]]; [lia|done|].
    unfold row_is in Hno. unfold item. rewrite Hr in Hno |- *. simpl. rewrite Hno.
    apply (IH n); [done| |done].
    intros m k' Hm Hk'. apply (Hbefore (S m)); [lia|done].
Qed.

Section TabularSearch.

Context (py_float : string → option float).

Lemma cell_float_read r2 col : cell_float py_float r2 col = Ok (read_cell py_float r2 col).
Proof.
  unfold cell_float, read_cell.
  destruct (col <? length r2)%nat eqn:Hlt.
  - apply Nat.ltb_lt in Hlt. destruct (item_lt r2 col Hlt) as (c & Hc & ->). by rewrite Hc.
  - apply Nat.ltb_ge in Hlt. by rewrite lookup_ge_None_2.
Qed.

Lemma scan_data_step col_total col_per_area r2 below :
  scan_data py_float col_total col_per_area (r2 :: below) =
    if blank_row r2 then Ok None
    else if data_row r2
    then Ok (Some (read_cell py_float r2 col_total, read_cell py_float r2 col_per_area))
    else scan_data py_float col_total col_per_area below.
Proof.
  cbn [scan_data]. unfold data_row. fold (blank_row r2).
  destruct (blank_row r2) eqn:Hb; [done|].
  destruct r2 as [|c0 r2]; [done|]. cbn.
  destruct (String.eqb (str_lower (str_strip c0)) "total site energy"); [|done].
  by rewrite !cell_float_read.
Qed.

Lemma scan_data_ok col_total col_per_area below :
  ∃ o, scan_data py_float col_total col_per_area below = Ok o.
Proof.
  induction below as [|r2 below IH]; [simpl; eauto|].
  rewrite scan_data_step. destruct (blank_row r2); [eauto|]. destruct (data_row r2); eauto.
Qed.

Lemma scan_data_some col_total col_per_area below m :
  scan_data py_float col_total col_per_area below = Ok (Some m) →
  ∃ n r2, below !! n = Some r2 ∧ data_row r2 = true.
Proof.
  induction below as [|r2 below IH]; [done|].
  rewrite scan_data_step. destruct (blank_row r2); [done|].
  destruct (data_row r2) eqn:Hd.
  - intros _. by exists 0%nat, r2.
  - intros (n & r & Hn & Hr)%IH. by exists (S n), r.
Qed.

Lemma search_subsection_ok rows j :
  (j < length rows)%nat → ∃ o, search_subsection py_float rows j = Ok o.
Proof.
  intros Hj. unfold search_subsection.
  destruct (item_lt rows j Hj) as (rj & _ & ->). simpl.
  destruct (has_phrase "site and source energy" rj); [|eauto].
  destruct (find_header_ok rows (py_range (j + 1) (Nat.min (j + 15) (length rows))))
    as [o Ho].
  { intros k Hk%py_range_elem. lia. }
  rewrite Ho. simpl. destruct o as [k|]; [|eauto].
  apply find_header_some in Ho as [Hk%py_range_elem (rk & Hrk & _)].
  rewrite (item_lookup _ _ _ Hrk). simpl.
  destruct (next_index _ 0 _); [|eauto]. destruct (next_index _ 0 _); [|eauto].
  apply scan_data_ok.
Qed.

Lemma search_subsection_some rows j m :
  search_subsection py_float rows j = Ok (Some m) →
  row_is subsection_row rows j = true ∧
  ∃ k, (j < k ≤ j + 14)%nat ∧ row_is is_header_row rows k = true ∧
       ∃ d, (k < d)%nat ∧ row_is data_row rows d = true.
Proof.
  unfold search_subsection, item, row_is.
  destruct (rows !! j) as [rj|] eqn:Hrj; simpl; [|done].
  fold (subsection_row rj). destruct (subsection_row rj); [|done].
  destruct (find_header rows _) as [[k|]|] eqn:Hfind; simpl; try done.
  apply find_header_some in Hfind as [Hk%py_range_elem (rk & Hrk & Hh)].
  rewrite Hrk. simpl.
  destruct (next_index _ 0 _) as [ct|]; [|done].
  destruct (next_index _ 0 _) as [cp|]; [|done].
  intros (n & r2 & Hn & Hd)%scan_data_some. split; [done|].
  exists k. split; [lia|]. rewrite Hrk. split; [done|].
  exists (k + 1 + n)%nat. split; [lia|].
  rewrite lookup_drop in Hn. by rewrite Hn.
Qed.

Lemma search_title_ok rows i r :
  ∃ o, search_title py_float rows (i, r) = Ok o.
Proof.
  unfold search_title. destruct (has_phrase _ r); [|eauto].
  apply for_return_ok. intros j Hj%py_range_elem. apply search_subsection_ok. lia.
Qed.

Lemma tabular_search_ok rows : ∃ m, tabular_search py_float rows = Ok m.
Proof.
  unfold tabular_search.
  destruct (for_return_ok (search_title py_float rows) (enumerate rows)) as [o ->]; [|simpl; eauto].
  intros [i r] _. apply search_title_ok.
Qed.

Lemma row_is_true p rows i : row_is p rows i = true ↔ ∃ r, rows !! i = Some r ∧ p r = true.
Proof.
  unfold row_is. destruct (rows !! i) as [r|].
  - split; [eauto|]. by intros (r' & [= <-] & Hp).
  - split; [done|]. by intros (r' & Hr & _).
Qed.

(** Whatever the search returns was read under a title row, a subsection
    row at most 39 rows below it and a header row at most 14 rows below
    that one. *)
Lemma tabular_search_found rows t p :
  tabular_search py_float rows = Ok (t, p) → t ≠ None ∨ p ≠ None →
  ∃ i j k d,
    row_is title_row rows i = true ∧
    row_is subsection_row rows j = true ∧ (i < j ≤ i + 39)%nat ∧
    row_is is_header_row rows k = true ∧ (j < k ≤ j + 14)%nat ∧
    row_is data_row rows d = true ∧ (k < d)%nat.
Proof.
  unfold tabular_search.
  destruct (for_return _ _) as [[m|]|e] eqn:Hfor; simpl; [| |done].
  2:{ intros [= <- <-]. intros [|]; done. }
  intros _ _. apply for_return_some in Hfor as ([i r] & Hin & Htitle).
  apply list_elem_of_lookup in Hin as [n Hn]. rewrite enumerate_lookup in Hn.
  destruct (rows !! n) as [r'|] eqn:Hr; simpl in Hn; [|done].
  injection Hn as <- <-. unfold search_title in Htitle. fold (title_row r') in Htitle.
  destruct (title_row r') eqn:Ht; [|done].
  apply for_return_some in Htitle as (j & Hj%py_range_elem & Hsub).
  apply search_subsection_some in Hsub as (Hsubrow & k & Hk & Hhdr & d & Hd & Hdata).
  exists n, j, k, d. split_and!; try done; try lia.
  apply row_is_true. eauto.
Qed.

Lemma row_is_Forall p rows i :
  Forall (λ r, p r = false) rows → row_is p rows i = true → False.
Proof.
  intros Hall (r & Hr & Hp)%row_is_true.
  rewrite Forall_lookup in Hall. specialize (Hall _ _ Hr). simpl in Hall. congruence.
Qed.

Lemma tabular_search_absent rows :
  Forall (λ r, title_row r = false) rows ∨ Forall (λ r, subsection_row r = false) rows ∨
  Forall (λ r, is_header_row r = false) rows ∨ Forall (λ r, data_row r = false) rows →
  tabular_search py_float rows = Ok (None, None).
Proof.
  intros Habsent. destruct (tabular_search_ok rows) as [[t p] Hm]. rewrite Hm.
  destruct t as [x|], p as [y|]; [| | |done];
    (destruct (tabular_search_found rows _ _ Hm) as (i & j & k & d & Hi & Hj & _ & Hk & _ & Hd & _);
     [by (left + right)|];
     destruct Habsent as [H|[H|[H|H]]]; exfalso; eauto using row_is_Forall).
Qed.

Lemma none_between_lookup p rows a b x r :
  none_between p rows a b = true → (a < x < b)%nat → rows !! x = Some r → p r = false.
Proof.
  unfold none_between. intros Hall%Is_true_true%forallb_True Hx Hr.
  rewrite Forall_lookup in Hall.
  specialize (Hall (x - a - 1)%nat r). apply negb_prop_elim, Is_true_false in Hall; [done|].
  rewrite lookup_take_lt by lia. rewrite lookup_drop. rewrite <-Hr. f_equal. lia.
Qed.

Lemma next_index_existsb (q : string → bool) i l :
  existsb q l = true → ∃ c, next_index q i l = Some c.
Proof.
  revert i. induction l as [|x l IH]; intros i; simpl; [done|].
  destruct (q x); [eauto|]. simpl. apply IH.
Qed.

(** On a report with its markers in place, the subsection at most 39 rows
    below the title and the header at most 14 rows below the subsection,
    the search returns what the data row holds. *)
Lemma tabular_search_complete : finds_within py_float 39 14.
Proof.
  intros rows i j k Hlayout. unfold marked_layout in Hlayout.
  repeat (apply andb_true_iff in Hlayout as [Hlayout ?]).
  rename Hlayout into Hpre.
  match goal with H : row_is title_row _ _ = true |- _ => apply row_is_true in H as (ri & Hri & Hti) end.
  match goal with H : row_is subsection_row _ _ = true |- _ => apply row_is_true in H as (rj & Hrj & Hsj) end.
  match goal with H : row_is is_header_row _ _ = true |- _ => pose proof H as Hhk; apply row_is_true in H as (rk & Hrk & Hk) end.
  match goal with H : row_is data_row _ _ = true |- _ => apply row_is_true in H as (rd & Hrd & Hd) end.
  repeat match goal with
         | H : (_ <? _)%nat = true |- _ => apply Nat.ltb_lt in H
         | H : (_ <=? _)%nat = true |- _ => apply Nat.leb_le in H
         end.
  assert (k < length rows)%nat as Hklen by (by eapply lookup_lt_Some).
  assert (j < length rows)%nat as Hjlen by lia.
  pose proof Hk as Hk'. unfold is_header_row in Hk'.
  apply andb_true_iff in Hk' as [Htot Hper].
  destruct (next_index_existsb _ 0 _ Htot) as [ct Hct].
  destruct (next_index_existsb _ 0 _ Hper) as [cp Hcp].
  exists (read_cell py_float rd ct, read_cell py_float rd cp). split.
  { unfold read_under. rewrite Hrk, Hrd. simpl. rewrite Hct, Hcp. done. }
  assert (search_subsection py_float rows j
          = Ok (Some (read_cell py_float rd ct, read_cell py_float rd cp))) as Hsub.
  { unfold search_subsection. rewrite (item_lookup _ _ _ Hrj). simpl.
    fold (subsection_row rj). rewrite Hsj.
    rewrite (find_header_at rows _ (k - (j + 1)) k).
    - simpl. rewrite (item_lookup _ _ _ Hrk). simpl. rewrite Hct, Hcp.
      rewrite (drop_S _ rd) by done. rewrite scan_data_step.
      unfold data_row in Hd. apply andb_true_iff in Hd as [Hnb Hd'].
      apply negb_true_iff in Hnb. rewrite Hnb.
      unfold data_row. rewrite Hnb. simpl. by rewrite Hd'.
    - rewrite py_range_lookup by lia. f_equal. lia.
    - intros m k' Hm [-> Hk']%py_range_lookup_Some.
      destruct (lookup_lt_is_Some_2 rows (j + 1 + m)) as [r Hr]; [lia|].
      split; [|eauto]. unfold row_is. rewrite Hr.
      eapply none_between_lookup; [eassumption| |done]. lia.
    - done. }
  assert (search_title py_float rows (i, ri)
          = Ok (Some (read_cell py_float rd ct, read_cell py_float rd cp))) as Htitle.
  { unfold search_title. fold (title_row ri). rewrite Hti.
    apply (for_return_at _ _ (j - (i + 1)) j).
    - rewrite py_range_lookup by lia. f_equal. lia.
    - intros m j' Hm [-> Hj']%py_range_lookup_Some.
      destruct (lookup_lt_is_Some_2 rows (i + 1 + m)) as [r Hr]; [lia|].
      unfold search_subsection. rewrite (item_lookup _ _ _ Hr). simpl.
      fold (subsection_row r).
      rewrite (none_between_lookup subsection_row rows i j (i + 1 + m) r); [done|done|lia|done].
    - done. }
  unfold tabular_search.
  rewrite (for_return_at (search_title py_float rows) (enumerate rows) i (i, ri)
             (read_cell py_float rd ct, read_cell py_float rd cp)); [done| | |exact Htitle].
  - rewrite enumerate_lookup, Hri. done.
  - intros m [m' r]. rewrite enumerate_lookup. intros Hm.
    destruct (rows !! m) as [r'|] eqn:Hr'; simpl; [|done]. intros [= <- <-].
    unfold search_title. fold (title_row r').
    apply Is_true_true, forallb_True in Hpre. rewrite Forall_lookup in Hpre.
    specialize (Hpre m r'). rewrite lookup_take_lt in Hpre by done.
    specialize (Hpre Hr'). apply negb_prop_elim, Is_true_false in Hpre. by rewrite Hpre.
Qed.

Context (csv_reader : string → ascii → list (list string)).


End TabularSearch.

(** ** Metric extraction: the fallback over the three strategies *)

Section ExtractionFallback.

Context (py_float : string → option float)
        (csv_reader : string → ascii → list (list string)).

Abbreviation sql_strategy d := (fetch_from_sql py_float d).
Abbreviation tab_strategy d :=
  (_fetch_from_tabular_text py_float csv_reader eplustbl_tab (tab_file d) "009").
Abbreviation csv_strategy d :=
  (_fetch_from_tabular_text py_float csv_reader eplustbl_csv (csv_file d) ",").
Abbreviation any d := (fetch_metrics_any py_float csv_reader d).

(** The search through a report returns, so the two text strategies do. *)
Lemma fetch_from_tabular_text_ok f file delimiter :
  ∃ m, outcome (_fetch_from_tabular_text py_float csv_reader f file delimiter) = Ok m.
Proof.
  unfold _fetch_from_tabular_text. destruct file as [text|]; [|by eexists].
  cbn -[tabular_search].
  destruct (tabular_search_ok py_float (map (map str_strip) (csv_reader text delimiter)))
    as [m ->].
  by eexists.
Qed.

(** The structured strategy raises on a file that cannot be queried, and
    on no other. *)
Lemma fetch_from_sql_raises d e :
  outcome (sql_strategy d) = Raise e → ∃ message, sql_file d = Some (Unqueryable message).
Proof.
  unfold fetch_from_sql. destruct (sql_file d) as [[table|message]|]; simpl; [done|eauto|done].
Qed.

(** The extraction returns unless the structured file cannot be queried;
    then it raises the error of the database. *)
Lemma fetch_metrics_any_total d :
  (∃ r, outcome (any d) = Ok r) ∨
  (∃ message, sql_file d = Some (Unqueryable message) ∧
              outcome (any d) = Raise (Exn DatabaseError message)).
Proof.
  pose proof (fetch_metrics_any_cases py_float csv_reader d) as Hcases.
  destruct (fetch_from_tabular_text_ok eplustbl_tab (tab_file d) "009") as [m2 H2].
  destruct (fetch_from_tabular_text_ok eplustbl_csv (csv_file d) ",") as [m3 H3].
  destruct (outcome (sql_strategy d)) as [m1|e1] eqn:H1.
  - left. rewrite H2, H3 in Hcases.
    destruct (yields m1); [destruct Hcases as [-> _]; eauto|].
    destruct (yields m2); [destruct Hcases as [-> _]; eauto|].
    destruct (yields m3); rewrite Hcases; eauto.
  - right. destruct (fetch_from_sql_raises d e1 H1) as [message Hd].
    exists message. split; [done|]. by apply fetch_from_sql_unqueryable.
Qed.


End ExtractionFallback.





(** ** Names: the two spellings of a scenario *)

Lemma str_app_cons x (a b : string) : String x a +:+ b = String x (a +:+ b).
Proof. done. Qed.

Lemma str_app_assoc (a b c : string) : (a +:+ b) +:+ c = a +:+ (b +:+ c).
Proof. induction a as [|x a IH]; [done|]. rewrite !str_app_cons. by rewrite IH. Qed.

Lemma str_map_app f (a b : string) : str_map f (a +:+ b) = str_map f a +:+ str_map f b.
Proof.
  induction a as [|x a IH]; [done|]. rewrite str_app_cons. cbn [str_map].
  by rewrite str_app_cons, IH.
Qed.

Lemma prefix_cons a old c s :
  str_startswith (String a old) (String c s) = Ascii.eqb a c && str_startswith old s.
Proof. done. Qed.

Lemma prefix_length old s : str_startswith old s = true → (String.length old ≤ String.length s)%nat.
Proof.
  revert old. induction s as [|c s IH]; intros [|a old]; cbn; try done; try lia.
  intros [_ ?%IH]%andb_true_iff. lia.
Qed.

(** A character that does not occur in [old] ends every attempt to match
    [old] across it. *)
Lemma prefix_app_stop old s m rest :
  occurs m old = false → str_startswith old (s +:+ String m rest) = str_startswith old s.
Proof.
  revert s. induction old as [|a old IH]; intros s Hm; [done|].
  cbn in Hm. apply orb_false_iff in Hm as [Ham Hm].
  destruct s as [|c s].
  - change ("" +:+ String m rest) with (String m rest). rewrite prefix_cons.
    by rewrite Ham.
  - rewrite str_app_cons, !prefix_cons. by rewrite IH.
Qed.

(** The scan of [s1 +:+ s2] is the scan of [s1] followed by the scan of
    [s2] when no occurrence of [old] can run from [s1] into [s2]. *)
Lemma replace_from_app_skip old new m rest s1 k :
  occurs m (str_tail old) = false → (k ≤ String.length s1)%nat →
  replace_from old new k (s1 +:+ String m rest) =
    replace_from old new k s1 +:+ replace_from old new 0 (String m rest).
Proof.
  intros Hm. revert k. induction s1 as [|c s1 IH]; intros k Hk.
  - cbn in Hk. by replace k with 0%nat by lia.
  - rewrite str_app_cons. cbn [replace_from]. destruct k as [|k].
    + assert (str_startswith old (String c (s1 +:+ String m rest)) = str_startswith old (String c s1))
        as ->.
      { destruct old as [|a old]; [done|]. rewrite !prefix_cons.
        by rewrite prefix_app_stop. }
      destruct (str_startswith old (String c s1)) eqn:Hp.
      * apply prefix_length in Hp. cbn in Hp.
        rewrite IH by lia. by rewrite str_app_assoc.
      * rewrite IH by lia. by rewrite str_app_cons.
    + cbn in Hk. apply IH. lia.
Qed.

Lemma replace_from_app old new m rest s1 :
  occurs m (str_tail old) = false →
  replace_from old new 0 (s1 +:+ String m rest) =
    replace_from old new 0 s1 +:+ replace_from old new 0 (String m rest).
Proof. intros Hm. apply replace_from_app_skip; [done|lia]. Qed.

(** Dropping the spaces goes through a concatenation. *)
Lemma drop_spaces_app (a b : string) :
  str_replace " " "" (a +:+ b) = str_replace " " "" a +:+ str_replace " " "" b.
Proof.
  unfold str_replace. induction a as [|c a IH]; [done|].
  rewrite str_app_cons. cbn [replace_from]. rewrite !prefix_cons.
  destruct (Ascii.eqb " " c); cbn [andb str_startswith String.length Nat.sub]; rewrite IH; [done|].
  by rewrite str_app_cons.
Qed.

(** Upper-casing and dropping the spaces, through a concatenation around a
    scenario number. *)
Lemma canonical_app pre mid post :
  str_replace " " "" (str_upper mid) = mid →
  str_replace " " "" (str_upper (pre +:+ mid +:+ post)) =
    str_replace " " "" (str_upper pre) +:+ mid +:+ str_replace " " "" (str_upper post).
Proof.
  intros Hmid. unfold str_upper. rewrite !str_map_app, !drop_spaces_app.
  fold (str_upper mid). by rewrite Hmid.
Qed.

(** One replacement on [a +:+ mid +:+ b], where [mid] begins with a
    character that no occurrence of [old] continues with, and the scan of
    [mid] leaves [mid'] and ends clear of [b]. *)
Lemma replace_around old new a m rest mid' b :
  occurs m (str_tail old) = false →
  (∀ b, replace_from old new 0 (String m rest +:+ b) = mid' +:+ replace_from old new 0 b) →
  replace_from old new 0 (a +:+ String m rest +:+ b) =
    replace_from old new 0 a +:+ mid' +:+ replace_from old new 0 b.
Proof.
  intros Hm Hmid. rewrite str_app_cons, replace_from_app by done.
  by rewrite <-str_app_cons, Hmid.
Qed.

Ltac around mid' :=
  rewrite (replace_around _ _ _ _ _ mid'); [|reflexivity|intros; reflexivity].

(** The three replacements on a scenario number between any two strings:
    both spellings end as the undotted one. *)
Lemma replacements_meet a b dotted undotted :
  (dotted, undotted) ∈ scenario_forms →
  str_replace "2.6" "26" (str_replace "4.5" "45" (str_replace "8.5" "85" (a +:+ dotted +:+ b))) =
  str_replace "2.6" "26" (str_replace "4.5" "45" (str_replace "8.5" "85" (a +:+ undotted +:+ b))).
Proof.
  unfold scenario_forms, str_replace.
  intros Hin. repeat (apply elem_of_cons in Hin as [[= -> ->]|Hin]);
    [| | |by apply elem_of_nil in Hin].
  - around "85". around "85". around "85". around "85". around "85". by around "85".
  - around "4.5". around "45". around "45". around "45". around "45". by around "45".
  - around "2.6". around "2.6". around "26". around "26". around "26". by around "26".
Qed.

(** C8. The dotted and the undotted spelling of a scenario number, each
    between strings that differ by letter case and spaces only, normalise
    to the same value: "RCP8.5", "rcp 8.5" and "RCP85" all give one
    string. *)
Theorem dotted_and_undotted_normalise_equal pre pre' post post' dotted undotted :
  (dotted, undotted) ∈ scenario_forms →
  same_letters pre pre' → same_letters post post' →
  map_rcp_dot_to_nodot (pre +:+ dotted +:+ post) =
  map_rcp_dot_to_nodot (pre' +:+ undotted +:+ post').
Proof.
  intros Hin Hpre Hpost. unfold map_rcp_dot_to_nodot, same_letters in *.
  assert (str_replace " " "" (str_upper dotted) = dotted ∧
          str_replace " " "" (str_upper undotted) = undotted) as [Hd Hu].
  { unfold scenario_forms in Hin.
    repeat (apply elem_of_cons in Hin as [[= -> ->]|Hin]); [done..|].
    by apply elem_of_nil in Hin. }
  rewrite !canonical_app by done. rewrite Hpre, Hpost.
  by apply replacements_meet.
Qed.

Lemma dotted_and_undotted_witness :
  map_rcp_dot_to_nodot ("rcp" +:+ "8.5" +:+ "") = map_rcp_dot_to_nodot ("RCP " +:+ "85" +:+ "").
Proof.
  apply (dotted_and_undotted_normalise_equal "rcp" "RCP " "" "" "8.5" "85").
  - apply elem_of_cons; left; reflexivity.
  - reflexivity.
  - reflexivity.
Defined.

(** ** Names: the aging code *)

(** C2. The pattern lets the aging code E29 through: the name parses, and
    among the numbers 0 to 99 the ones that parse are 0 to 29, where the
    claim has 0 to 28. In a batch the artifact with E29 is run and counted
    as a success, and its column is written. *)
Theorem aging_code_29_is_parsed :
  parse_idf_filename "RCP8.5_E29_2030.idf" = Ok ("RCP8.5", "E29", 2030) ∧
  List.filter (λ n, is_ok (parse_idf_filename (aging_name n))) (seq 0 100) = seq 0 30 ∧
  let '(res, b) :=
    run_energy_simulation_from_env decimal_float plain_reader sql_engine
      default_settings bucket_e29 in
  (sum_success <$> res) = Ok 1%nat ∧ (sum_failed <$> res) = Ok 0%nat ∧
  ∃ ws, b !! TOTAL_XLSX_KEY = Some (Xlsx ws) ∧
    ws !! (1, 2)%nat = Some (Some (VStr "RCP85")) ∧
    ws !! (2, 2)%nat = Some (Some (VStr "E29")) ∧
    ws !! (8, 2)%nat = Some (Some (VFloat 125000.5)).
Proof.
  split; [by vm_compute|]. split; [by vm_compute|].
  vm_compute. split; [done|]. split; [done|].
  eexists. split; [reflexivity|]. by vm_compute.
Qed.

(** * Further properties of the two modules *)

(** ** Characters *)

Lemma char_upper_lower x : char_upper (char_lower x) = char_upper x.
Proof. by destruct x as [[] [] [] [] [] [] [] []]. Qed.

Lemma char_matches_upper c x : char_matches true c x = true → char_upper x = char_upper c.
Proof.
  unfold char_matches. intros Heq%Ascii.eqb_eq.
  by rewrite <-(char_upper_lower x), <-Heq, char_upper_lower.
Qed.

(** A character whose upper case is not a letter is left alone. *)
Lemma char_upper_other x : between "A" "Z" (char_upper x) = false → char_upper x = x.
Proof. by destruct x as [[] [] [] [] [] [] [] []]. Qed.

(** A character that matches a literal which is no letter is that
    literal. *)
Lemma char_matches_other c x :
  char_matches true c x = true → between "A" "Z" (char_upper c) = false → x = c.
Proof.
  intros Hx%char_matches_upper Hc.
  assert (Hcc : char_upper c = c).
  { revert Hc. clear. by destruct c as [[] [] [] [] [] [] [] []]. }
  rewrite Hcc in Hx, Hc. rewrite <-Hx in Hc. by rewrite <-(char_upper_other x Hc).
Qed.

(** A set of digits matches digits only, with or without [IGNORECASE]. *)
Lemma set_matches_digits lo hi x :
  set_matches true [(lo, hi)] x = true →
  between "0" "9" lo = true → between "0" "9" hi = true →
  between lo hi x = true.
Proof.
  unfold set_matches, in_ranges; cbn [existsb fst snd andb]. rewrite !orb_false_r.
  intros Hm Hlo Hhi.
  destruct (between lo hi x) eqn:Hx; [done|]. cbn [orb] in Hm.
  assert (Hd : ∀ y, between lo hi y = true → between "0" "9" y = true).
  { intros y. unfold between in *. 
    rewrite !andb_true_iff, !N.leb_le in *. lia. }
  apply orb_true_iff in Hm as [Hm|Hm].
  - pose proof (Hd _ Hm) as H9. 
    assert (char_lower x = x) as Heq; [|by rewrite Heq, Hx in Hm].
    revert H9. clear. by destruct x as [[] [] [] [] [] [] [] []].
  - pose proof (Hd _ Hm) as H9.
    assert (char_upper x = x) as Heq; [|by rewrite Heq, Hx in Hm].
    revert H9. clear. by destruct x as [[] [] [] [] [] [] [] []].
Qed.

(** The value of a digit. *)
Lemma digit_value_between lo hi x :
  between lo hi x = true → between "0" "9" lo = true → between "0" "9" hi = true →
  ∃ d, digit_value x = Some d ∧ Z.of_N (code lo) - 48 ≤ d ≤ Z.of_N (code hi) - 48.
Proof.
  unfold digit_value, between. rewrite !andb_true_iff, !N.leb_le.
  change (code "0") with 48%N. change (code "9") with 57%N.
  intros [??] [??] [??].
  assert ((48 <=? code x)%N && (code x <=? 57)%N = true) as ->.
  { rewrite andb_true_iff, !N.leb_le. lia. }
  eexists; split; [done|lia].
Qed.

(** ** The matcher, step by step *)

Section Matcher.

Context (ic : bool) (pos : nat) (s : string) (caps : captures)
        (k : nat → string → captures → option captures) (m : captures).

Lemma rmatch_seq r1 r2 :
  rmatch ic (RSeq r1 r2) pos s caps k
  = rmatch ic r1 pos s caps (λ pos' s' caps', rmatch ic r2 pos' s' caps' k).
Proof. done. Qed.

Lemma rmatch_group n r :
  rmatch ic (RGroup n r) pos s caps k
  = rmatch ic r pos s caps (λ pos' s' caps', k pos' s' (<[n := str_take (pos' - pos) s]> caps')).
Proof. done. Qed.

Lemma rmatch_empty : rmatch ic REmpty pos s caps k = k pos s caps.
Proof. done. Qed.

Lemma rmatch_char c :
  rmatch ic (RChar c) pos s caps k = Some m →
  ∃ x t, s = String x t ∧ char_matches ic c x = true ∧ k (S pos) t caps = Some m.
Proof.
  destruct s as [|x t]; [done|]. cbn [rmatch].
  destruct (char_matches ic c x) eqn:Hc; [|done]. by exists x, t.
Qed.

Lemma rmatch_set ranges :
  rmatch ic (RSet ranges) pos s caps k = Some m →
  ∃ x t, s = String x t ∧ set_matches ic ranges x = true ∧ k (S pos) t caps = Some m.
Proof.
  destruct s as [|x t]; [done|]. cbn [rmatch].
  destruct (set_matches ic ranges x) eqn:Hc; [|done]. by exists x, t.
Qed.

Lemma rmatch_digit :
  rmatch ic RDigit pos s caps k = Some m →
  ∃ x t, s = String x t ∧ between "0" "9" x = true ∧ k (S pos) t caps = Some m.
Proof.
  destruct s as [|x t]; [done|]. cbn [rmatch].
  destruct (between "0" "9" x) eqn:Hc; [|done]. by exists x, t.
Qed.

Lemma rmatch_alt r1 r2 :
  rmatch ic (RAlt r1 r2) pos s caps k = Some m →
  rmatch ic r1 pos s caps k = Some m ∨ rmatch ic r2 pos s caps k = Some m.
Proof. cbn [rmatch]. destruct (rmatch ic r1 pos s caps k); [left|right]; done. Qed.

Lemma rmatch_opt r :
  rmatch ic (ROpt r) pos s caps k = Some m →
  rmatch ic r pos s caps k = Some m ∨ k pos s caps = Some m.
Proof. cbn [rmatch]. destruct (rmatch ic r pos s caps k); [left|right]; done. Qed.

Lemma rmatch_bol :
  rmatch ic RBol pos s caps k = Some m → pos = 0%nat ∧ k pos s caps = Some m.
Proof. cbn [rmatch]. destruct (Nat.eqb_spec pos 0); [done|done]. Qed.

Lemma rmatch_eol :
  rmatch ic REol pos s caps k = Some m →
  (s = "" ∨ s = newline) ∧ k pos s caps = Some m.
Proof.
  cbn [rmatch]. destruct s as [|x [|y t]]; [by auto| |].
  - destruct x as [[] [] [] [] [] [] [] []]; try done. by auto.
  - destruct x as [[] [] [] [] [] [] [] []]; done.
Qed.

End Matcher.

(** One step of a match, read backwards: what a successful match of the
    pattern at the head tells about the text. *)
Ltac match_step H :=
  lazymatch type of H with
  | rmatch _ (RSeq _ _) _ _ _ _ = Some _ => rewrite rmatch_seq in H
  | rmatch _ (RGroup _ _) _ _ _ _ = Some _ => rewrite rmatch_group in H
  | rmatch _ REmpty _ _ _ _ = Some _ => rewrite rmatch_empty in H; cbv beta in H
  | rmatch _ (RChar _) _ _ _ _ = Some _ =>
      let x := fresh "x" in let t := fresh "t" in let Hx := fresh "Hx" in
      apply rmatch_char in H as (x & t & -> & Hx & H); cbv beta in H
  | rmatch _ (RSet _) _ _ _ _ = Some _ =>
      let x := fresh "x" in let t := fresh "t" in let Hx := fresh "Hx" in
      apply rmatch_set in H as (x & t & -> & Hx & H); cbv beta in H
  | rmatch _ RDigit _ _ _ _ = Some _ =>
      let x := fresh "x" in let t := fresh "t" in let Hx := fresh "Hx" in
      apply rmatch_digit in H as (x & t & -> & Hx & H); cbv beta in H
  | rmatch _ (RAlt _ _) _ _ _ _ = Some _ => apply rmatch_alt in H as [H|H]
  | rmatch _ (ROpt _) _ _ _ _ = Some _ => apply rmatch_opt in H as [H|H]; cbv beta in H
  | rmatch _ RBol _ _ _ _ = Some _ => apply rmatch_bol in H as [_ H]; cbv beta in H
  | rmatch _ REol _ _ _ _ = Some _ => apply rmatch_eol in H as [[-> | ->] H]; cbv beta in H
  end.

Lemma char_matches_letter c x C :
  char_matches true c x = true → char_upper c = C → char_upper x = C.
Proof. intros Hx%char_matches_upper <-. done. Qed.

Lemma digit_cases x :
  between "0" "9" x = true →
  x ∈ ["0"; "1"; "2"; "3"; "4"; "5"; "6"; "7"; "8"; "9"]%char.
Proof.
  destruct x as [[] [] [] [] [] [] [] []]; intros H; try discriminate H;
    rewrite !elem_of_cons; auto 12.
Qed.

Lemma between_digits lo hi x :
  between lo hi x = true → between "0" "9" lo = true → between "0" "9" hi = true →
  between "0" "9" x = true.
Proof. unfold between. rewrite !andb_true_iff, !N.leb_le. lia. Qed.

Lemma one_or_two x :
  set_matches true [("1", "1"); ("2", "2")]%char x = true → x = "1"%char ∨ x = "2"%char.
Proof. destruct x as [[] [] [] [] [] [] [] []]; intros H; try discriminate H; auto. Qed.

Lemma aging_letter x :
  set_matches true [("E", "E"); ("F", "F"); ("T", "T")]%char x = true →
  char_upper x ∈ aging_letters.
Proof.
  unfold aging_letters.
  destruct x as [[] [] [] [] [] [] [] []]; intros H; try discriminate H;
    rewrite !elem_of_cons; auto.
Qed.

Ltac digit_cases H :=
  apply digit_cases in H; rewrite !elem_of_cons, elem_of_nil in H;
  repeat (destruct H as [-> | H]); [..|done].

(** The number a closed numeral stands for, as the witness of a goal. *)
Ltac numeral_value :=
  lazymatch goal with
  | |- ∃ n : nat, _ ∧ ?s = _ ∧ _ =>
      let v := eval vm_compute in (py_int s) in
      lazymatch v with
      | Ok ?z => let k := eval vm_compute in (Z.to_nat z) in exists k
      end
  | |- ∃ y : Z, _ ∧ py_int ?s = _ ∧ _ =>
      let v := eval vm_compute in (py_int s) in
      lazymatch v with
      | Ok ?z => exists z
      end
  end;
  split_and!; first [lia | vm_compute; reflexivity].

(** The numbers of an aging code: one digit, or two of which the first is 1
    or 2. They are the decimal numerals of 0 to 29. *)
Lemma aging_one_digit d :
  between "0" "9" d = true →
  ∃ n, (n ≤ 29)%nat ∧ String d "" = str_of_int (Z.of_nat n)
       ∧ str_upper (String d "") = String d "".
Proof. intros Hd. digit_cases Hd; numeral_value. Qed.

Lemma aging_two_digits p d :
  p = "1"%char ∨ p = "2"%char → between "0" "9" d = true →
  ∃ n, (n ≤ 29)%nat ∧ String p (String d "") = str_of_int (Z.of_nat n)
       ∧ str_upper (String p (String d "")) = String p (String d "").
Proof. intros [-> | ->] Hd; digit_cases Hd; numeral_value. Qed.

(** The year token: a numeral between 2020 and 2084. *)
Lemma year_of_token_a d3 d4 :
  between "2" "7" d3 = true → between "0" "9" d4 = true →
  ∃ year, 2020 ≤ year ≤ 2084
    ∧ py_int (String "2" (String "0" (String d3 (String d4 "")))) = Ok year
    ∧ String "2" (String "0" (String d3 (String d4 ""))) = str_of_int year
    ∧ str_upper (str_of_int year) = str_of_int year.
Proof.
  intros H3 H4.
  assert (H3' := between_digits _ _ _ H3 eq_refl eq_refl).
  digit_cases H3'; try discriminate H3; digit_cases H4; numeral_value.
Qed.

Lemma year_of_token_b d4 :
  between "0" "4" d4 = true →
  ∃ year, 2020 ≤ year ≤ 2084
    ∧ py_int (String "2" (String "0" (String "8" (String d4 "")))) = Ok year
    ∧ String "2" (String "0" (String "8" (String d4 ""))) = str_of_int year
    ∧ str_upper (str_of_int year) = str_of_int year.
Proof.
  intros H4.
  assert (H4' := between_digits _ _ _ H4 eq_refl eq_refl).
  digit_cases H4'; try discriminate H4; numeral_value.
Qed.

(** What the matcher learnt about the characters, in the plainest terms. *)
Ltac read_chars :=
  repeat match goal with
  | H : char_matches true ?c ?x = true |- _ =>
      first [ apply char_matches_other in H; [subst x | reflexivity]
            | eapply char_matches_letter in H; [|vm_compute; reflexivity] ]
  | H : set_matches true [(_, _)] _ = true |- _ =>
      apply set_matches_digits in H; [|reflexivity|reflexivity]
  | H : set_matches true [(_, _); (_, _)] _ = true |- _ => apply one_or_two in H
  | H : set_matches true [(_, _); (_, _); (_, _)] _ = true |- _ => apply aging_letter in H
  end.

Lemma aging_code_shape l ds :
  char_upper l ∈ aging_letters →
  (∃ n, (n ≤ 29)%nat ∧ ds = str_of_int (Z.of_nat n) ∧ str_upper ds = ds) →
  ∃ letter n, letter ∈ aging_letters ∧ (n ≤ 29)%nat
    ∧ str_upper (String l ds) = String letter (str_of_int (Z.of_nat n)).
Proof.
  intros Hl (n & Hn & Hds & Hup). exists (char_upper l), n. split_and!; [done..|].
  change (str_upper (String l ds)) with (String (char_upper l) (str_upper ds)).
  by rewrite Hup, Hds.
Qed.

Ltac token_parts :=
  first
    [ apply year_of_token_a; assumption
    | apply year_of_token_b; assumption
    | apply aging_code_shape;
      [ assumption
      | first [ apply aging_one_digit; assumption
              | apply aging_two_digits;
                [ first [assumption | left; reflexivity | right; reflexivity]
                | first [assumption | eapply between_digits; [eassumption|reflexivity..]] ] ] ] ].

(** What a match of [IDF_NAME_RE] tells about the name and about the three
    groups. *)
Lemma idf_match_parts name m :
  re_match true IDF_NAME_RE name = Some m →
  ∃ g1 g2 g3 e1 e2 e3 tail,
    m !! 1%nat = Some g1 ∧ m !! 2%nat = Some g2 ∧ m !! 3%nat = Some g3 ∧
    name = g1 +:+ "_" +:+ g2 +:+ "_" +:+ g3
           +:+ String "." (String e1 (String e2 (String e3 tail))) ∧
    char_upper e1 = "I"%char ∧ char_upper e2 = "D"%char ∧ char_upper e3 = "F"%char ∧
    (tail = "" ∨ tail = newline) ∧
    str_upper g1 ∈ dotted_scenarios ∧
    (∃ letter n, letter ∈ aging_letters ∧ (n ≤ 29)%nat
       ∧ str_upper g2 = String letter (str_of_int (Z.of_nat n))) ∧
    (∃ year, 2020 ≤ year ≤ 2084 ∧ py_int g3 = Ok year ∧ g3 = str_of_int year
       ∧ str_upper (str_of_int year) = str_of_int year).
Proof.
  unfold re_match, IDF_NAME_RE, year_token. cbn [RSeqs RLit]. intros H.
  repeat match_step H; read_chars; cbn [str_take Nat.sub] in H; injection H as <-.
  all: unfold captures.
  all: eexists _, _, _, _, _, _, _; split_and!;
    [ by rewrite lookup_insert_ne, lookup_insert_ne, lookup_insert_eq by done
    | by rewrite lookup_insert_ne, lookup_insert_eq by done
    | by rewrite lookup_insert_eq
    | reflexivity
    | assumption | assumption | assumption
    | first [by left | by right]
    | unfold str_upper; cbn [str_map]; rewrite Hx, Hx0, Hx1;
      unfold dotted_scenarios; rewrite !elem_of_cons; auto
    | token_parts
    | token_parts ].
Qed.

(** ** Names: what a name that parses looks like *)

Lemma str_upper_app (a b : string) : str_upper (a +:+ b) = str_upper a +:+ str_upper b.
Proof. apply str_map_app. Qed.

(** X1. An ASCII name that [parse_idf_filename] accepts is, letter case and
    one closing newline apart, the three parts it returns put together
    again: the scenario is one of RCP8.5, RCP4.5 and RCP2.6, the aging code
    a letter E, F or T with a number from 0 to 29 without leading zero, the
    year between 2020 and 2084. *)
Theorem parsed_idf_name_is_canonical name rcp aging year :
  ascii_text name = true →
  parse_idf_filename name = Ok (rcp, aging, year) →
  ∃ letter n tail,
    rcp ∈ dotted_scenarios ∧ letter ∈ aging_letters ∧ (n ≤ 29)%nat ∧
    2020 ≤ year ≤ 2084 ∧
    aging = String letter (str_of_int (Z.of_nat n)) ∧
    (tail = "" ∨ tail = newline) ∧
    str_upper name = rcp +:+ "_" +:+ aging +:+ "_" +:+ str_of_int year +:+ ".IDF" +:+ tail.
Proof.
  intros _. unfold parse_idf_filename.
  destruct (re_match true IDF_NAME_RE name) as [m|] eqn:Hm; [|done].
  destruct (idf_match_parts _ _ Hm)
    as (g1 & g2 & g3 & e1 & e2 & e3 & tail & H1 & H2 & H3 & -> & He1 & He2 & He3
        & Htail & Hg1 & (letter & n & Hl & Hn & Hg2) & (y & Hy & Hint & -> & Hup)).
  unfold group. rewrite H1, H2, H3. cbn. rewrite Hint. cbn. intros [= <- <- <-].
  exists letter, n, tail. split_and!; try done; try lia.
  rewrite !str_upper_app, Hup, Hg2.
  change (str_upper "_") with "_".
  unfold str_upper at 2. cbn [str_map]. rewrite He1, He2, He3.
  change (char_upper ".") with "."%char.
  replace (str_map char_upper tail) with tail by (by destruct Htail as [-> | ->]).
  reflexivity.
Qed.

Lemma parsed_idf_name_witness :
  ∃ letter n tail,
    "RCP8.5" ∈ dotted_scenarios ∧ letter ∈ aging_letters ∧ (n ≤ 29)%nat ∧
    2020 ≤ 2031 ≤ 2084 ∧
    "E7" = String letter (str_of_int (Z.of_nat n)) ∧
    (tail = "" ∨ tail = newline) ∧
    str_upper "rcp8.5_e7_2031.IdF" = "RCP8.5" +:+ "_" +:+ "E7" +:+ "_" +:+ str_of_int 2031 +:+ ".IDF" +:+ tail.
Proof.
  apply (parsed_idf_name_is_canonical "rcp8.5_e7_2031.IdF" "RCP8.5" "E7" 2031).
  - vm_compute. reflexivity.
  - vm_compute. reflexivity.
Defined.


Lemma parses_to_spec rcp letter n year :
  parses_to rcp letter n year = true →
  parse_idf_filename (idf_name rcp letter n year)
  = Ok (rcp, String letter (str_of_int (Z.of_nat n)), year).
Proof.
  unfold parses_to. destruct (parse_idf_filename _) as [[[r a] y]|]; [|done].
  rewrite !andb_true_iff. intros [[->%String.eqb_eq ->%String.eqb_eq] ->%Z.eqb_eq]. done.
Qed.

Lemma all_names_parse :
  forallb (λ rcp, forallb (λ letter, forallb (λ n, forallb (λ k,
    parses_to rcp letter n (2020 + Z.of_nat k)) (seq 0 65)) (seq 0 30)) aging_letters)
    dotted_scenarios = true.
Proof. vm_compute. reflexivity. Qed.

(** X2. The other way round: the name made of a scenario, an aging code
    with a number up to 29 and a year from 2020 to 2084 parses, and into
    these three parts. *)
Theorem canonical_idf_name_parses rcp letter n year :
  rcp ∈ dotted_scenarios → letter ∈ aging_letters → (n ≤ 29)%nat → 2020 ≤ year ≤ 2084 →
  parse_idf_filename (idf_name rcp letter n year)
  = Ok (rcp, String letter (str_of_int (Z.of_nat n)), year).
Proof.
  intros Hr Hl Hn Hy. apply parses_to_spec.
  pose proof all_names_parse as Hall.
  rewrite forallb_forall in Hall. apply list_elem_of_In, Hall in Hr.
  rewrite forallb_forall in Hr. apply list_elem_of_In, Hr in Hl.
  rewrite forallb_forall in Hl.
  assert (Hn' : In n (seq 0 30)) by (apply in_seq; lia).
  apply Hl in Hn'. rewrite forallb_forall in Hn'.
  assert (Hk : In (Z.to_nat (year - 2020)) (seq 0 65)) by (apply in_seq; lia).
  apply Hn' in Hk. by replace (2020 + Z.of_nat (Z.to_nat (year - 2020))) with year in Hk by lia.
Qed.

Lemma canonical_idf_name_witness :
  parse_idf_filename (idf_name "RCP4.5" "T" 29 2084) = Ok ("RCP4.5", String "T" (str_of_int 29), 2084).
Proof.
  apply (canonical_idf_name_parses "RCP4.5" "T" 29 2084).
  - apply elem_of_cons; right; apply elem_of_cons; left; reflexivity.
  - apply elem_of_cons; right; apply elem_of_cons; right; apply elem_of_cons; left; reflexivity.
  - lia.
  - lia.
Defined.

(** ** Names: the weather files and their index *)

Ltac year_parts year Hy Hint Heq Hup :=
  match goal with
  | H3 : between "2" "7" ?a = true, H4 : between "0" "9" ?b = true |- _ =>
      destruct (year_of_token_a a b H3 H4) as (year & Hy & Hint & Heq & Hup)
  | H4 : between "0" "4" ?b = true |- _ =>
      destruct (year_of_token_b b H4) as (year & Hy & Hint & Heq & Hup)
  end.

Lemma char_upper_digit lo hi x :
  between lo hi x = true → between "0" "9" lo = true → between "0" "9" hi = true →
  char_upper x = x.
Proof.
  intros H Hlo Hhi. pose proof (between_digits _ _ _ H Hlo Hhi) as Hx. clear -Hx.
  by destruct x as [[] [] [] [] [] [] [] []].
Qed.

Ltac upper_chars :=
  repeat match goal with
  | H : between ?lo ?hi ?x = true |- _ =>
      let H' := fresh in
      pose proof (char_upper_digit lo hi x H eq_refl eq_refl) as H'; clear H
  end;
  repeat match goal with
  | H : char_upper ?x = _ |- _ => rewrite !H; clear H
  end.

(** What a match of [EPW_NAME_RE] tells about the name and about the two
    groups. *)
Lemma epw_match_parts name m :
  re_match true EPW_NAME_RE name = Some m →
  ∃ g1 g2 year tail,
    m !! 1%nat = Some g1 ∧ m !! 2%nat = Some g2 ∧
    str_upper g1 ∈ undotted_scenarios ∧ 2020 ≤ year ≤ 2084 ∧ py_int g2 = Ok year ∧
    str_upper name
    = "ROTTERDAM_" +:+ str_upper g1 +:+ "_" +:+ str_of_int year +:+ ".EPW" +:+ tail ∧
    (tail = "" ∨ tail = newline).
Proof.
  unfold re_match, EPW_NAME_RE, year_token. cbn [RSeqs RLit]. intros H.
  repeat match_step H; read_chars; cbn [str_take Nat.sub] in H; injection H as <-.
  all: unfold captures.
  all: year_parts year Hy Hint Heq Hup.
  all: eexists _, _, year, _; split_and!;
    [ by rewrite lookup_insert_ne, lookup_insert_eq by done
    | by rewrite lookup_insert_eq
    | unfold str_upper; cbn [str_map]; upper_chars;
      unfold undotted_scenarios; rewrite !elem_of_cons; auto
    | lia | lia
    | exact Hint
    | rewrite <-Heq; unfold str_upper; cbn [str_map]; upper_chars; reflexivity
    | first [by left | by right] ].
Qed.

(** One pass of the loop of [index_epws_s3]: a name that matches always
    gives its two groups and a year, so the pass cannot raise. *)
Lemma index_epws_step (idx : epw_index_t) key :
  (let name := basename key in
   match re_match true EPW_NAME_RE name with
   | None => Ok idx
   | Some m =>
       rcp_nodot ← group m 1;
       year_str ← group m 2;
       year ← py_int year_str;
       Ok (<[(str_upper rcp_nodot, year) := key]> idx)
   end)
  = Ok (match epw_entry key with
        | Some p => <[p := key]> idx
        | None => idx
        end).
Proof.
  unfold epw_entry, parse_epw_filename. cbv zeta.
  destruct (re_match true EPW_NAME_RE (basename key)) as [m|] eqn:Hm; [|done].
  destruct (epw_match_parts _ _ Hm) as (g1 & g2 & year & tail & H1 & H2 & _ & _ & Hint & _).
  unfold group. rewrite H1, H2. cbn. rewrite Hint. done.
Qed.

Lemma index_epws_fold (l : list string) (idx0 : epw_index_t) :
  foldl (λ (acc : result epw_index_t) key,
           idx ← acc;
           let name := basename key in
           match re_match true EPW_NAME_RE name with
           | None => Ok idx
           | Some m =>
               rcp_nodot ← group m 1;
               year_str ← group m 2;
               year ← py_int year_str;
               Ok (<[(str_upper rcp_nodot, year) := key]> idx)
           end)
        (Ok idx0) l
  = Ok (foldl (λ idx key, match epw_entry key with
                          | Some p => <[p := key]> idx
                          | None => idx
                          end) idx0 l).
Proof.
  revert idx0. induction l as [|key l IH]; intros idx0; [done|].
  cbn [foldl]. change (Ok idx0 ≫= ?f) with (f idx0). cbv beta.
  rewrite index_epws_step. apply IH.
Qed.

Lemma index_fold_sound (l : list string) (idx0 : epw_index_t) p key :
  foldl (λ idx key, match epw_entry key with
                    | Some p => <[p := key]> idx
                    | None => idx
                    end) idx0 l !! p = Some key →
  (key ∈ l ∧ epw_entry key = Some p) ∨ idx0 !! p = Some key.
Proof.
  revert idx0. induction l as [|x l IH]; intros idx0; cbn [foldl]; [by right|].
  intros [[Hin He]|H0]%IH.
  - left. split; [by apply elem_of_cons; right|done].
  - destruct (epw_entry x) as [q|] eqn:Hx; [|by right].
    destruct (decide (q = p)) as [->|Hne].
    + rewrite lookup_insert_eq in H0. injection H0 as <-.
      left. split; [by apply elem_of_cons; left|done].
    + rewrite lookup_insert_ne in H0 by done. by right.
Qed.

Lemma index_fold_latest (l : list string) (idx0 : epw_index_t) p key :
  StronglySorted String.le l → key ∈ l → epw_entry key = Some p →
  ∃ key', foldl (λ idx key, match epw_entry key with
                            | Some p => <[p := key]> idx
                            | None => idx
                            end) idx0 l !! p = Some key'
          ∧ String.le key key'.
Proof.
  induction l as [|x l IH] using rev_ind; intros Hs Hin He.
  { by apply elem_of_nil in Hin. }
  rewrite foldl_app. cbn [foldl].
  apply StronglySorted_app in Hs as (Hle & Hs & _).
  destruct (epw_entry x) as [q|] eqn:Hx.
  - destruct (decide (q = p)) as [->|Hne].
    + exists x. rewrite lookup_insert_eq. split; [done|].
      apply elem_of_app in Hin as [Hin|Hin].
      * apply Hle; [done|]. apply elem_of_cons; by left.
      * apply elem_of_cons in Hin as [->|Hin]; [done|by apply elem_of_nil in Hin].
    + rewrite lookup_insert_ne by done. apply IH; [done| |done].
      apply elem_of_app in Hin as [Hin|Hin]; [done|].
      apply elem_of_cons in Hin as [->|Hin]; [congruence|by apply elem_of_nil in Hin].
  - apply IH; [done| |done].
    apply elem_of_app in Hin as [Hin|Hin]; [done|].
    apply elem_of_cons in Hin as [->|Hin]; [congruence|by apply elem_of_nil in Hin].
Qed.

(** The listing holds the keys of the bucket that start with the prefix. *)
Lemma elem_of_list_objects_all (b : bucket) prefix key :
  key ∈ _list_objects_all b prefix ↔ is_Some (b !! key) ∧ str_startswith prefix key = true.
Proof.
  unfold _list_objects_all. rewrite merge_sort_Permutation.
  rewrite list_elem_of_In, filter_In, <-list_elem_of_In, elem_of_elements, elem_of_dom.
  done.
Qed.

Lemma list_objects_all_sorted (b : bucket) prefix :
  StronglySorted String.le (_list_objects_all b prefix).
Proof. apply StronglySorted_merge_sort; apply _. Qed.

Lemma epw_entry_parts key rcp year :
  epw_entry key = Some (rcp, year) →
  rcp ∈ undotted_scenarios ∧ 2020 ≤ year ≤ 2084 ∧
  ∃ tail, (tail = "" ∨ tail = newline) ∧
    str_upper (basename key)
    = "ROTTERDAM_" +:+ rcp +:+ "_" +:+ str_of_int year +:+ ".EPW" +:+ tail.
Proof.
  unfold epw_entry, parse_epw_filename.
  destruct (re_match true EPW_NAME_RE (basename key)) as [m|] eqn:Hm; [|done].
  destruct (epw_match_parts _ _ Hm)
    as (g1 & g2 & y & tail & H1 & H2 & Hg1 & Hy & Hint & Hname & Htail).
  unfold group. rewrite H1, H2. cbn. rewrite Hint. cbn. intros [= <- <-].
  split_and!; [done|lia|lia|]. by exists tail.
Qed.

(** X3. [index_epws_s3] never raises, and every entry of the index it
    returns is sound: the key is an object of the bucket under the prefix,
    it is filed under one of the scenarios RCP85, RCP45, RCP26 and a year
    between 2020 and 2084, and, when the file name of the key is ASCII, that
    name is, letter case and a closing newline apart,
    Rotterdam_<scenario>_<year>.epw for the scenario and the year it is
    filed under. *)
Theorem weather_index_entries (b : bucket) (epw_prefix : string) :
  ∃ idx, index_epws_s3 b epw_prefix = Ok idx ∧
    ∀ rcp year key, idx !! (rcp, year) = Some key →
      is_Some (b !! key) ∧ str_startswith epw_prefix key = true ∧
      rcp ∈ undotted_scenarios ∧ 2020 ≤ year ≤ 2084 ∧
      (ascii_text (basename key) = true →
       ∃ tail, (tail = "" ∨ tail = newline) ∧
         str_upper (basename key)
         = "ROTTERDAM_" +:+ rcp +:+ "_" +:+ str_of_int year +:+ ".EPW" +:+ tail).
Proof.
  unfold index_epws_s3. rewrite index_epws_fold. eexists; split; [done|].
  intros rcp year key [[Hin He]|H0]%index_fold_sound; [|by rewrite lookup_empty in H0].
  apply elem_of_list_objects_all in Hin as [Hb Hp].
  apply epw_entry_parts in He as (Hr & Hy & Hname). split_and!; first [done | lia].
Qed.

(** A weather file under the prefix whose name matches has its scenario
    and year filed in the index. *)
Lemma index_epws_entry (b : bucket) (epw_prefix key rcp : string) (year : Z) :
  is_Some (b !! key) → str_startswith epw_prefix key = true →
  epw_entry key = Some (rcp, year) →
  ∃ idx key', index_epws_s3 b epw_prefix = Ok idx ∧
    idx !! (rcp, year) = Some key' ∧ epw_entry key' = Some (rcp, year).
Proof.
  intros Hb Hp He. unfold index_epws_s3. rewrite index_epws_fold.
  assert (Hin : key ∈ _list_objects_all b epw_prefix) by by apply elem_of_list_objects_all.
  destruct (index_fold_latest _ ∅ _ _ (list_objects_all_sorted b epw_prefix) Hin He)
    as (key' & Hk' & _).
  eexists _, key'. split_and!; [done|done|].
  by apply index_fold_sound in Hk' as [[_ ?]|?].
Qed.

(** X4. Every weather file under the prefix whose name matches is
    represented in the index: its scenario and year have an entry, and the
    entry is the greatest key among the files of that scenario and year, the
    one the store lists last. *)
Theorem weather_index_latest (b : bucket) (epw_prefix key rcp : string) (year : Z) :
  is_Some (b !! key) → str_startswith epw_prefix key = true →
  epw_entry key = Some (rcp, year) →
  ∃ idx key', index_epws_s3 b epw_prefix = Ok idx ∧
    idx !! (rcp, year) = Some key' ∧ epw_entry key' = Some (rcp, year) ∧
    String.le key key' ∧
    ∀ k, is_Some (b !! k) → str_startswith epw_prefix k = true →
         epw_entry k = Some (rcp, year) → String.le k key'.
Proof.
  intros Hb Hp He. unfold index_epws_s3. rewrite index_epws_fold.
  assert (Hin : key ∈ _list_objects_all b epw_prefix) by by apply elem_of_list_objects_all.
  destruct (index_fold_latest _ ∅ _ _ (list_objects_all_sorted b epw_prefix) Hin He)
    as (key' & Hk' & Hle).
  eexists _, key'. split_and!; [done|done| |done|].
  - by apply index_fold_sound in Hk' as [[_ ?]|?].
  - intros k Hbk Hpk Hek.
    assert (Hink : k ∈ _list_objects_all b epw_prefix) by by apply elem_of_list_objects_all.
    destruct (index_fold_latest _ ∅ _ _ (list_objects_all_sorted b epw_prefix) Hink Hek)
      as (k' & Hk'' & Hle'). congruence.
Qed.

Lemma weather_index_latest_witness :
  ∃ idx key', index_epws_s3 two_weather_files "weather/epw/" = Ok idx ∧
    idx !! ("RCP85", 2030) = Some key' ∧ epw_entry key' = Some ("RCP85", 2030) ∧
    String.le "weather/epw/a/Rotterdam_RCP85_2030.epw" key' ∧
    ∀ k, is_Some (two_weather_files !! k) → str_startswith "weather/epw/" k = true →
         epw_entry k = Some ("RCP85", 2030) → String.le k key'.
Proof.
  apply (weather_index_latest two_weather_files "weather/epw/"
           "weather/epw/a/Rotterdam_RCP85_2030.epw" "RCP85" 2030).
  - eexists. vm_compute. reflexivity.
  - reflexivity.
  - vm_compute. reflexivity.
Defined.

(** ** Names: an artifact meets its weather file *)

Lemma idf_name_parses rcp letter n year :
  rcp ∈ dotted_scenarios → letter ∈ aging_letters → (n ≤ 29)%nat → 2020 ≤ year ≤ 2084 →
  parse_idf_filename (idf_name rcp letter n year)
  = Ok (rcp, String letter (str_of_int (Z.of_nat n)), year).
Proof.
  intros Hr Hl Hn Hy. apply parses_to_spec.
  pose proof all_names_parse as Hall.
  rewrite forallb_forall in Hall. apply list_elem_of_In, Hall in Hr.
  rewrite forallb_forall in Hr. apply list_elem_of_In, Hr in Hl.
  rewrite forallb_forall in Hl.
  assert (Hn' : In n (seq 0 30)) by (apply in_seq; lia).
  apply Hl in Hn'. rewrite forallb_forall in Hn'.
  assert (Hk : In (Z.to_nat (year - 2020)) (seq 0 65)) by (apply in_seq; lia).
  apply Hn' in Hk. by replace (2020 + Z.of_nat (Z.to_nat (year - 2020))) with year in Hk by lia.
Qed.

Lemma str_contains_slash_app d name : str_contains "/" (d +:+ String "/" name) = true.
Proof.
  induction d as [|c d IH].
  - cbn. done.
  - rewrite str_app_cons. cbn [str_contains]. rewrite IH. apply orb_true_r.
Qed.

Lemma basename_app d name :
  str_contains "/" name = false → basename (d +:+ String "/" name) = name.
Proof.
  intros Hname. induction d as [|c d IH].
  - cbn [String.append basename]. change ("" +:+ String "/" name) with (String "/" name).
    cbn [basename]. by rewrite Hname.
  - rewrite str_app_cons. cbn [basename]. by rewrite str_contains_slash_app.
Qed.

Lemma all_weather_names_file :
  forallb (λ rcp, forallb (files_as rcp) (seq 0 65)) undotted_scenarios = true.
Proof. vm_compute. reflexivity. Qed.

Lemma epw_entry_canonical dir rcp year :
  rcp ∈ undotted_scenarios → 2020 ≤ year ≤ 2084 →
  basename (dir +:+ "/" +:+ epw_name rcp year) = epw_name rcp year ∧
  epw_entry (dir +:+ "/" +:+ epw_name rcp year) = Some (rcp, year).
Proof.
  intros Hr Hy. pose proof all_weather_names_file as Hall.
  rewrite forallb_forall in Hall. apply list_elem_of_In, Hall in Hr.
  rewrite forallb_forall in Hr.
  assert (Hk : In (Z.to_nat (year - 2020)) (seq 0 65)) by (apply in_seq; lia).
  apply Hr in Hk. unfold files_as in Hk.
  replace (2020 + Z.of_nat (Z.to_nat (year - 2020))) with year in Hk by lia.
  apply andb_true_iff in Hk as [Hslash Hk]. apply negb_true_iff in Hslash.
  assert (Hbase : basename (dir +:+ "/" +:+ epw_name rcp year) = epw_name rcp year)
    by apply (basename_app dir _ Hslash).
  split; [done|]. unfold epw_entry. rewrite Hbase.
  destruct (parse_epw_filename (epw_name rcp year)) as [[[r y]|]|]; [|done..].
  apply andb_true_iff in Hk as [->%String.eqb_eq ->%Z.eqb_eq]. done.
Qed.

Lemma scenario_names_normalise rcp_dot rcp_nodot :
  (rcp_dot, rcp_nodot) ∈ scenario_names →
  rcp_dot ∈ dotted_scenarios ∧ rcp_nodot ∈ undotted_scenarios ∧
  map_rcp_dot_to_nodot rcp_dot = rcp_nodot.
Proof.
  unfold scenario_names, dotted_scenarios, undotted_scenarios.
  rewrite !elem_of_cons, elem_of_nil.
  intros [[= -> ->]|[[= -> ->]|[[= -> ->]|[]]]];
    (split_and!; [auto|auto|by vm_compute]).
Qed.

(** X5. An artifact meets its weather file: when the bucket holds, in any
    folder under the weather prefix, the file Rotterdam_<scenario>_<year>.epw,
    every artifact name of that scenario (in its dotted form) and year
    parses, and the index has a weather file for what the batch looks up,
    the normalised scenario and the year. *)
Theorem artifact_meets_weather_file (b : bucket) (epw_prefix dir rcp_dot rcp_nodot : string)
    (letter : ascii) (n : nat) (year : Z) :
  (rcp_dot, rcp_nodot) ∈ scenario_names → letter ∈ aging_letters → (n ≤ 29)%nat →
  2020 ≤ year ≤ 2084 →
  is_Some (b !! (epw_prefix +:+ dir +:+ "/" +:+ epw_name rcp_nodot year)) →
  ∃ idx aging epw_key,
    index_epws_s3 b epw_prefix = Ok idx ∧
    parse_idf_filename (idf_name rcp_dot letter n year) = Ok (rcp_dot, aging, year) ∧
    idx !! (map_rcp_dot_to_nodot rcp_dot, year) = Some epw_key ∧
    epw_entry epw_key = Some (rcp_nodot, year).
Proof.
  intros (Hd & Hu & Hmap)%scenario_names_normalise Hl Hn Hy Hb.
  assert (He : epw_entry (epw_prefix +:+ dir +:+ "/" +:+ epw_name rcp_nodot year)
               = Some (rcp_nodot, year)).
  { rewrite <-str_app_assoc. by apply epw_entry_canonical. }
  assert (Hp : str_startswith epw_prefix
                 (epw_prefix +:+ dir +:+ "/" +:+ epw_name rcp_nodot year) = true).
  { clear. induction epw_prefix as [|c p IH]; [done|].
    rewrite str_app_cons. cbn [str_startswith]. rewrite IH, Ascii.eqb_refl. done. }
  destruct (index_epws_entry b epw_prefix _ _ _ Hb Hp He) as (idx & key' & Hidx & Hk & He').
  exists idx, (String letter (str_of_int (Z.of_nat n))), key'.
  split_and!; [done| |by rewrite Hmap|done].
  by apply idf_name_parses.
Qed.

Lemma artifact_meets_weather_witness :
  ∃ idx aging epw_key,
    index_epws_s3 two_weather_files "weather/epw/" = Ok idx ∧
    parse_idf_filename (idf_name "RCP8.5" "E" 12 2030) = Ok ("RCP8.5", aging, 2030) ∧
    idx !! (map_rcp_dot_to_nodot "RCP8.5", 2030) = Some epw_key ∧
    epw_entry epw_key = Some ("RCP85", 2030).
Proof.
  apply (artifact_meets_weather_file two_weather_files "weather/epw/" "a" "RCP8.5" "RCP85"
           "E" 12 2030).
  - apply elem_of_cons; left; reflexivity.
  - apply elem_of_cons; left; reflexivity.
  - lia.
  - lia.
  - eexists. vm_compute. reflexivity.
Defined.

(** ** The batch: what one artifact can do *)

Lemma outcome_bind {A B} (m : traced A) (f : A → traced B) :
  outcome (m ≫= f) = outcome m ≫= λ a, outcome (f a).
Proof. unfold mbind at 1, traced_bind. by destruct (outcome m). Qed.

Lemma py_int_caught s e : py_int s = Raise e → is_Exception (exn_class e) = true.
Proof.
  unfold py_int. destruct s as [|c s]; [by intros [= <-]|].
  destruct (int_digits 0 (String c s)); [done|by intros [= <-]].
Qed.

Lemma parse_idf_filename_caught name e :
  parse_idf_filename name = Raise e → is_Exception (exn_class e) = true.
Proof.
  unfold parse_idf_filename, group.
  destruct (re_match true IDF_NAME_RE name) as [m|]; [|by intros [= <-]].
  destruct (m !! 1%nat); [|by intros [= <-]].
  destruct (m !! 2%nat); [|by intros [= <-]].
  destruct (m !! 3%nat) as [g3|]; [|by intros [= <-]].
  cbn. destruct (py_int g3) eqn:Hint; [done|].
  cbn. intros [= ->]. by eapply py_int_caught.
Qed.

Lemma header_text_caught v e : header_text v = Raise e → is_Exception (exn_class e) = true.
Proof.
  unfold header_text. destruct v as [[s|z|x]|]; [| | |done];
    destruct (truthy _); try done; by intros [= <-].
Qed.

Lemma scan_columns_caught climate aging cols ws e :
  scan_columns climate aging cols ws = Raise e → is_Exception (exn_class e) = true.
Proof.
  revert ws. induction cols as [|col cols IH]; intros ws; [done|].
  cbn [scan_columns]. unfold ws_value.
  destruct (header_text (mjoin (ws !! (1%nat, col)))) as [c1|e1] eqn:H1;
    [|cbn; intros [= ->]; by eapply header_text_caught].
  cbn. destruct (header_text (mjoin (get_cell ws 1 col !! (2%nat, col)))) as [c2|e2] eqn:H2;
    [|cbn; intros [= ->]; by eapply header_text_caught].
  cbn. destruct (_ && _); [done|]. apply IH.
Qed.

Lemma col_for_pair_caught ws climate aging e :
  _col_for_pair ws climate aging = Raise e → is_Exception (exn_class e) = true.
Proof.
  unfold _col_for_pair.
  destruct (scan_columns _ _ _ _) as [[[col|] ws']|e'] eqn:Hs; cbn; [done|done|].
  intros [= ->]. by eapply scan_columns_caught.
Qed.

(** A write that raises raises an [Exception] and leaves the bucket; a
    write that returns has changed at most the object under its key, which
    is then a workbook. *)
Lemma write_result_cases b key climate aging year value :
  (∃ e, write_result_to_s3 b key climate aging year value = (Raise e, b)
        ∧ is_Exception (exn_class e) = true) ∨
  write_result_to_s3 b key climate aging year value = (Ok (), b) ∨
  (∃ ws, write_result_to_s3 b key climate aging year value = (Ok (), <[key := Xlsx ws]> b)).
Proof.
  unfold write_result_to_s3. destruct value as [value|]; [|by right; left].
  destruct (_download_workbook_or_create b key) as [ws|e] eqn:Hd; cbn.
  - destruct (_col_for_pair ws climate aging) as [[col ws']|e] eqn:Hc; cbn.
    + destruct (_row_for_year year) as [row|e] eqn:Hr; cbn.
      * right; right. by eexists.
      * left. exists e. split; [done|]. revert Hr. unfold _row_for_year.
        destruct (_ || _); [by intros [= <-]|done].
    + left. exists e. split; [done|]. by eapply col_for_pair_caught.
  - left. exists e. split; [done|]. revert Hd. unfold _download_workbook_or_create.
    destruct (object_exists b key); [|done].
    destruct (b !! key) as [[]|]; by intros [= <-].
Qed.

Lemma write_result_frame b key climate aging year value k :
  k ≠ key → (write_result_to_s3 b key climate aging year value).2 !! k = b !! k.
Proof.
  intros Hk.
  destruct (write_result_cases b key climate aging year value)
    as [(e & -> & _)|[->|(ws & ->)]]; cbn; [done|done|].
  by rewrite lookup_insert_ne.
Qed.

Section BatchProperties.

Context (py_float : string → option float)
        (csv_reader : string → ascii → list (list string))
        (energyplus : s3_object → s3_object → engine_outcome).

Abbreviation artifact := (try_artifact py_float csv_reader energyplus).
Abbreviation pass_of := (loop_body py_float csv_reader energyplus).
Abbreviation batch_of cfg := (run_energy_simulation_from_env py_float csv_reader energyplus cfg).

(** What the steps before the two writes can raise. *)
Lemma staged_caught (b : bucket) idf_key epw_key name e :
  (idf ← download_to_file b idf_key;
   epw ← download_to_file b epw_key;
   out ← run_energyplus energyplus name idf epw;
   '(total_site, per_area, src) ← outcome (fetch_metrics_any py_float csv_reader out);
   if bool_decide (total_site = None ∧ per_area = None)
   then Raise (Exn RuntimeError "Failed to extract metrics; ensure ABUPS tables are produced.")
   else Ok (total_site, per_area)) = Raise e →
  is_Exception (exn_class e) = true.
Proof.
  unfold download_to_file, run_energyplus.
  destruct (b !! idf_key) as [idf|]; [|by intros [= <-]].
  destruct (b !! epw_key) as [epw|]; [|by intros [= <-]].
  cbn -[fetch_metrics_any]. destruct (energyplus idf epw) as [|rc out err d]; [by intros [= <-]|].
  destruct (rc =? 0); [|by intros [= <-]].
  cbn -[fetch_metrics_any].
  destruct (fetch_metrics_any_total py_float csv_reader d)
    as [[[[t p] src] ->]|(message & _ & ->)]; [|by intros [= <-]].
  cbn. case_bool_decide; [by intros [= <-]|done].
Qed.

(** One artifact: what it raises is an [Exception], and it changes nothing
    in the bucket but the two result workbooks. *)
Lemma try_artifact_cases (epw_index : epw_index_t) (b : bucket) idf_key name :
  (∀ e, (artifact epw_index b idf_key name).1 = Raise e → is_Exception (exn_class e) = true) ∧
  (∀ k, k ≠ TOTAL_XLSX_KEY → k ≠ PERAREA_XLSX_KEY →
        (artifact epw_index b idf_key name).2 !! k = b !! k).
Proof.
  unfold try_artifact.
  destruct (parse_idf_filename name) as [[[rcp aging] year]|e0] eqn:Hp.
  2:{ split; [|done]. intros e [= ->]. by eapply parse_idf_filename_caught. }
  destruct (epw_index !! (map_rcp_dot_to_nodot rcp, year)) as [[|c epw_key]|]; [done| |done].
  match goal with
  | |- context [match ?st with Ok _ => _ | Raise _ => _ end] => destruct st as [[t p]|e0] eqn:Hst
  end.
  2:{ split; [|done]. intros e [= ->]. by eapply staged_caught. }
  destruct (write_result_cases b TOTAL_XLSX_KEY (map_rcp_dot_to_nodot rcp) aging year t)
    as [(e1 & -> & He1)|Hw1].
  { split; [|done]. by intros e [= ->]. }
  assert (∃ b1, write_result_to_s3 b TOTAL_XLSX_KEY (map_rcp_dot_to_nodot rcp) aging year t
                = (Ok (), b1)
                ∧ ∀ k, k ≠ TOTAL_XLSX_KEY → b1 !! k = b !! k) as (b1 & -> & Hb1).
  { destruct Hw1 as [->|(ws & ->)]; eexists; (split; [done|]); [done|].
    intros k Hk. by rewrite lookup_insert_ne. }
  destruct (write_result_cases b1 PERAREA_XLSX_KEY (map_rcp_dot_to_nodot rcp) aging year p)
    as [(e2 & -> & He2)|[->|(ws & ->)]].
  - split; [by intros e [= ->]|]. intros k Hk _. by apply Hb1.
  - split; [done|]. intros k Hk _. by apply Hb1.
  - split; [done|]. intros k Hk Hk'. cbn. rewrite lookup_insert_ne by done. by apply Hb1.
Qed.

(** One pass of the loop counts the artifact once, as a success or as a
    failure, and goes on. *)
Lemma loop_body_counts (epw_index : epw_index_t) t (b : bucket) key :
  ∃ t' b', pass_of epw_index (Ok t, b) key = (Ok t', b') ∧
    ((successes t' = successes t + 1 ∧ failures t' = failures t
      ∧ processed t' = processed t ++ [key]) ∨
     (successes t' = successes t ∧ failures t' = failures t + 1
      ∧ processed t' = processed t))%nat ∧
    ∀ k, k ≠ TOTAL_XLSX_KEY → k ≠ PERAREA_XLSX_KEY → b' !! k = b !! k.
Proof.
  unfold loop_body.
  destruct (try_artifact_cases epw_index b key (basename key)) as [Hc Hf].
  destruct (artifact epw_index b key (basename key)) as [[[|]|e] b'] eqn:Ha; cbn in Hc, Hf.
  - eexists _, _. split; [done|]. split; [right; by cbn|done].
  - eexists _, _. split; [done|]. split; [left; by cbn|done].
  - rewrite (Hc e eq_refl). eexists _, _. split; [done|]. split; [right; by cbn|done].
Qed.

Lemma loop_fold_counts (epw_index : epw_index_t) l t (b : bucket) :
  ∃ t' b', foldl (pass_of epw_index) (Ok t, b) l = (Ok t', b') ∧
    (successes t' + failures t' = successes t + failures t + length l)%nat ∧
    (∃ new, processed t' = processed t ++ new ∧ new `sublist_of` l
            ∧ successes t' = (successes t + length new)%nat) ∧
    ∀ k, k ≠ TOTAL_XLSX_KEY → k ≠ PERAREA_XLSX_KEY → b' !! k = b !! k.
Proof.
  revert t b. induction l as [|key l IH]; intros t b.
  { exists t, b. split_and!; [done|cbn; lia| |done].
    exists []. rewrite app_nil_r. split_and!; [done|done|cbn; lia]. }
  cbn [foldl].
  destruct (loop_body_counts epw_index t b key) as (t1 & b1 & -> & Hcount & Hframe).
  destruct (IH t1 b1) as (t' & b' & -> & Hsum & (new & Hnew & Hsub & Hsucc) & Hframe').
  exists t', b'. split_and!; [done| | |].
  - cbn [length]. destruct Hcount as [(? & ? & ?)|(? & ? & ?)]; lia.
  - destruct Hcount as [(Hs & _ & Hp)|(Hs & _ & Hp)].
    + exists (key :: new). rewrite Hnew, Hp, <-app_assoc. split_and!; [done| |cbn; lia].
      by apply sublist_skip.
    + exists new. rewrite Hnew, Hp. split_and!; [done| |lia]. by apply sublist_cons.
  - intros k Hk Hk'. rewrite Hframe', Hframe; done.
Qed.

Lemma weather_index_nonempty (b : bucket) epw_prefix epw_key :
  is_Some (b !! epw_key) → str_startswith epw_prefix epw_key = true →
  is_Some (epw_entry epw_key) →
  ∃ idx, index_epws_s3 b epw_prefix = Ok idx ∧ idx ≠ ∅.
Proof.
  intros Hb Hp [[rcp year] He].
  destruct (index_epws_entry b epw_prefix _ _ _ Hb Hp He) as (idx & key' & Hidx & Hk & _).
  exists idx. split; [done|]. intros ->. by rewrite lookup_empty in Hk.
Qed.

Lemma elem_of_idf_objects cfg (b : bucket) key :
  key ∈ idf_objects cfg b ↔
  is_Some (b !! key) ∧ str_startswith (S3_IDF_PREFIX cfg) key = true
  ∧ str_endswith ".idf" (str_lower key) = true.
Proof.
  unfold idf_objects.
  rewrite list_elem_of_In, filter_In, <-list_elem_of_In, elem_of_list_objects_all. tauto.
Qed.

(** The tally of the loop: the successes are the completed artifacts, and
    the processed keys are these, in the order of the loop. *)
Lemma loop_fold_completed (epw_index : epw_index_t) l t (b : bucket) t' b' :
  foldl (pass_of epw_index) (Ok t, b) l = (Ok t', b') →
  processed t' = processed t ++ completed py_float csv_reader energyplus epw_index b l ∧
  successes t'
  = (successes t + length (completed py_float csv_reader energyplus epw_index b l))%nat.
Proof.
  revert t b. induction l as [|key l IH]; intros t b.
  { cbn. intros [= <- <-]. rewrite app_nil_r. split; [done|lia]. }
  cbn [foldl completed]. unfold loop_body at 2.
  destruct (try_artifact_cases epw_index b key (basename key)) as [Hc _].
  destruct (artifact epw_index b key (basename key)) as [[[|]|e] b1] eqn:Ha;
    cbn [fst snd] in Hc |- *.
  - intros [Hp Hs]%IH. cbn [processed successes] in Hp, Hs. by split.
  - intros [Hp Hs]%IH. cbn [processed successes] in Hp, Hs.
    rewrite Hp, Hs, <-app_assoc. cbn [length app]. split; [done|lia].
  - rewrite (Hc e eq_refl). intros [Hp Hs]%IH. cbn [processed successes] in Hp, Hs. by split.
Qed.

(** The completed artifacts are among the keys, in their order. *)
Lemma completed_sublist (epw_index : epw_index_t) l (b : bucket) :
  completed py_float csv_reader energyplus epw_index b l `sublist_of` l.
Proof.
  revert b. induction l as [|key l IH]; intros b; [done|]. cbn [completed].
  destruct (artifact epw_index b key (basename key)) as [[[|]|e] b1]; cbn [fst snd].
  - by apply sublist_cons.
  - by apply sublist_skip.
  - by apply sublist_cons.
Qed.

(** X6. With at least one weather file that matches and at least one
    artifact, the batch returns its summary, whatever happens to the single
    artifacts: the total is the number of artifacts, every artifact is
    counted once, as a success or as a failure, the successes are the
    artifacts whose pass runs to its end past the two writes, and the list
    of processed keys holds the first ten of these, taken in the order of
    the sorted keys. *)
Theorem batch_completes_with_counts cfg (b : bucket) (epw_key idf_key : string) :
  is_Some (b !! epw_key) → str_startswith (S3_EPW_PREFIX cfg) epw_key = true →
  is_Some (epw_entry epw_key) →
  is_Some (b !! idf_key) → str_startswith (S3_IDF_PREFIX cfg) idf_key = true →
  str_endswith ".idf" (str_lower idf_key) = true →
  ∃ s b' epw_index done,
    batch_of cfg b = (Ok s, b') ∧
    index_epws_s3 b (S3_EPW_PREFIX cfg) = Ok epw_index ∧
    done = completed py_float csv_reader energyplus epw_index b
             (merge_sort String.le (idf_objects cfg b)) ∧
    sum_total s = length (idf_objects cfg b) ∧
    (sum_success s + sum_failed s = sum_total s)%nat ∧
    sum_success s = length done ∧
    sum_processed s = take 10 done ∧
    done `sublist_of` merge_sort String.le (idf_objects cfg b) ∧
    length (sum_processed s) = Nat.min 10 (sum_success s) ∧
    sum_processed s `sublist_of` merge_sort String.le (idf_objects cfg b).
Proof.
  intros Hb Hp He Hbi Hpi Hei.
  destruct (weather_index_nonempty b _ _ Hb Hp He) as (idx & Hidx & Hne).
  assert (Hobjs : idf_objects cfg b ≠ []).
  { intros Hnil. assert (Hin : idf_key ∈ idf_objects cfg b) by by apply elem_of_idf_objects.
    rewrite Hnil in Hin. by apply elem_of_nil in Hin. }
  unfold run_energy_simulation_from_env. rewrite Hidx.
  rewrite bool_decide_eq_false_2 by done.
  fold (idf_objects cfg b). rewrite bool_decide_eq_false_2 by done.
  destruct (loop_fold_counts idx (merge_sort String.le (idf_objects cfg b)) (Tally 0 0 []) b)
    as (t & b' & Hfold & Hsum & _).
  destruct (loop_fold_completed idx _ _ _ _ _ Hfold) as [Hdone Hsucc].
  pose proof (completed_sublist idx (merge_sort String.le (idf_objects cfg b)) b) as Hsub.
  rewrite Hfold. eexists _, b', idx, _. split; [done|]. split; [done|]. split; [done|].
  cbn [successes failures processed app] in Hsum, Hdone, Hsucc.
  cbn [sum_total sum_success sum_failed sum_processed].
  rewrite (Permutation_length (merge_sort_Permutation _ _)) in Hsum.
  rewrite Hdone, Hsucc. cbn [Nat.add].
  split_and!; [done|lia|done|done|done| |].
  - rewrite length_take. lia.
  - etrans; [apply sublist_take|done].
Qed.

(** X7. With a weather file that matches but no artifact under the artifact
    prefix, the batch raises [SystemExit] with the message that names the
    prefix, and leaves the bucket as it was. *)
Theorem no_artifact_exits cfg (b : bucket) (epw_key : string) :
  is_Some (b !! epw_key) → str_startswith (S3_EPW_PREFIX cfg) epw_key = true →
  is_Some (epw_entry epw_key) →
  (∀ key, is_Some (b !! key) → str_startswith (S3_IDF_PREFIX cfg) key = true →
          str_endswith ".idf" (str_lower key) = false) →
  batch_of cfg b
  = (Raise (Exn SystemExit ("No IDFs under s3://" +:+ S3_BUCKET cfg +:+ "/" +:+ S3_IDF_PREFIX cfg)),
     b).
Proof.
  intros Hb Hp He Hno.
  destruct (weather_index_nonempty b _ _ Hb Hp He) as (idx & Hidx & Hne).
  assert (Hobjs : idf_objects cfg b = []).
  { destruct (idf_objects cfg b) as [|key l] eqn:Hl; [done|].
    assert (Hin : key ∈ idf_objects cfg b) by (rewrite Hl; apply elem_of_cons; by left).
    apply elem_of_idf_objects in Hin as (Hbk & Hpk & Hek). by rewrite Hno in Hek. }
  unfold run_energy_simulation_from_env. rewrite Hidx.
  rewrite bool_decide_eq_false_2 by done.
  fold (idf_objects cfg b). by rewrite bool_decide_eq_true_2.
Qed.

(** X8. Whatever it returns or raises, the batch changes nothing in the
    bucket but the two result workbooks: no artifact, weather file or other
    object is written, replaced or deleted. *)
Theorem batch_touches_only_results cfg (b : bucket) (k : string) :
  k ≠ TOTAL_XLSX_KEY → k ≠ PERAREA_XLSX_KEY → (batch_of cfg b).2 !! k = b !! k.
Proof.
  intros Hk Hk'. unfold run_energy_simulation_from_env.
  destruct (index_epws_s3 b (S3_EPW_PREFIX cfg)) as [idx|e]; [|done].
  case_bool_decide; [done|]. case_bool_decide; [done|].
  match goal with
  | |- context [foldl _ _ ?l] =>
      destruct (loop_fold_counts idx l (Tally 0 0 []) b) as (t & b' & -> & _ & _ & Hframe)
  end.
  cbn. by apply Hframe.
Qed.

Lemma write_outside_years (b : bucket) key climate aging year value :
  year < YEARS_START ∨ YEARS_END < year →
  ∃ e, write_result_to_s3 b key climate aging year (Some value) = (Raise e, b).
Proof.
  intros Hy. unfold write_result_to_s3.
  destruct (_download_workbook_or_create b key) as [ws|e]; cbn; [|by eexists].
  destruct (_col_for_pair ws climate aging) as [[col ws']|e]; cbn; [|by eexists].
  rewrite (row_for_year_outside year Hy). cbn. by eexists.
Qed.

(** X9. The name pattern lets the years 2020 to 2024 through, but the
    result workbooks start at 2025: an artifact whose year lies before
    [YEARS_START] is never processed, whatever the engine returns for it,
    and what it leaves in the bucket is what it found. *)
Theorem early_year_is_never_processed (epw_index : epw_index_t) (b : bucket)
    (idf_key name rcp aging : string) (year : Z) :
  parse_idf_filename name = Ok (rcp, aging, year) → year < YEARS_START →
  (artifact epw_index b idf_key name).1 ≠ Ok Processed ∧
  (artifact epw_index b idf_key name).2 = b.
Proof.
  intros Hp Hy. unfold try_artifact. rewrite Hp.
  destruct (epw_index !! (map_rcp_dot_to_nodot rcp, year)) as [[|c epw_key]|]; [done| |done].
  match goal with
  | |- context [match ?st with Ok _ => _ | Raise _ => _ end] => destruct st as [[t p]|e0] eqn:Hst
  end; [|done].
  assert (Hnone : ¬ (t = None ∧ p = None)).
  { revert Hst. unfold download_to_file, run_energyplus.
    destruct (b !! idf_key); [|done]. destruct (b !! _); [|done].
    cbn -[fetch_metrics_any]. destruct (energyplus _ _) as [|rc out err d]; [done|].
    destruct (rc =? 0); [|done]. cbn -[fetch_metrics_any].
    destruct (outcome _) as [[[t' p'] src]|]; [|done]. cbn.
    case_bool_decide; [done|]. by intros [= <- <-]. }
  destruct t as [t|].
  - destruct (write_outside_years b TOTAL_XLSX_KEY (map_rcp_dot_to_nodot rcp) aging year t)
      as [e ->]; [by left|]. done.
  - destruct p as [p|]; [|by destruct Hnone].
    assert (Hw : ∀ key c a y, write_result_to_s3 b key c a y None = (Ok (), b)) by done.
    rewrite Hw.
    destruct (write_outside_years b PERAREA_XLSX_KEY (map_rcp_dot_to_nodot rcp) aging year p)
      as [e ->]; [by left|]. done.
Qed.

End BatchProperties.

Lemma batch_completes_witness :
  ∃ s b' epw_index done,
    run_energy_simulation_from_env decimal_float plain_reader sql_engine default_settings
      bucket_two_artifacts = (Ok s, b') ∧
    index_epws_s3 bucket_two_artifacts (S3_EPW_PREFIX default_settings) = Ok epw_index ∧
    done = completed decimal_float plain_reader sql_engine epw_index bucket_two_artifacts
             (merge_sort String.le (idf_objects default_settings bucket_two_artifacts)) ∧
    sum_total s = length (idf_objects default_settings bucket_two_artifacts) ∧
    (sum_success s + sum_failed s = sum_total s)%nat ∧
    sum_success s = length done ∧
    sum_processed s = take 10 done ∧
    done `sublist_of`
      merge_sort String.le (idf_objects default_settings bucket_two_artifacts) ∧
    length (sum_processed s) = Nat.min 10 (sum_success s) ∧
    sum_processed s `sublist_of`
      merge_sort String.le (idf_objects default_settings bucket_two_artifacts).
Proof.
  apply (batch_completes_with_counts decimal_float plain_reader sql_engine default_settings
           bucket_two_artifacts "weather/epw/Rotterdam_RCP85_2030.epw"
           "output_idf_files/RCP8.5_E12_2030.idf").
  - eexists. vm_compute. reflexivity.
  - reflexivity.
  - eexists. vm_compute. reflexivity.
  - eexists. vm_compute. reflexivity.
  - reflexivity.
  - vm_compute. reflexivity.
Defined.

Lemma no_artifact_exits_witness :
  run_energy_simulation_from_env decimal_float plain_reader sql_engine default_settings
    bucket_weather_only
  = (Raise (Exn SystemExit ("No IDFs under s3://" +:+ S3_BUCKET default_settings +:+ "/"
                            +:+ S3_IDF_PREFIX default_settings)),
     bucket_weather_only).
Proof.
  apply (no_artifact_exits decimal_float plain_reader sql_engine default_settings
           bucket_weather_only "weather/epw/Rotterdam_RCP85_2030.epw").
  - eexists. vm_compute. reflexivity.
  - reflexivity.
  - eexists. vm_compute. reflexivity.
  - intros key [o Hkey] Hprefix. unfold bucket_weather_only in Hkey.
    apply lookup_insert_Some in Hkey as [[<- _]|[_ Hkey]]; [by vm_compute|].
    apply lookup_insert_Some in Hkey as [[<- _]|[_ Hkey]]; [by vm_compute in Hprefix|].
    by rewrite lookup_empty in Hkey.
Defined.

Lemma batch_touches_only_results_witness :
  (run_energy_simulation_from_env decimal_float plain_reader sql_engine default_settings
     bucket_two_artifacts).2 !! "output_idf_files/RCP8.5_E12_2030.idf"
  = bucket_two_artifacts !! "output_idf_files/RCP8.5_E12_2030.idf".
Proof.
  apply (batch_touches_only_results decimal_float plain_reader sql_engine default_settings
           bucket_two_artifacts "output_idf_files/RCP8.5_E12_2030.idf").
  - discriminate.
  - discriminate.
Defined.

Lemma early_year_witness :
  (try_artifact decimal_float plain_reader sql_engine
     (<[("RCP85", 2020) := "weather/epw/Rotterdam_RCP85_2020.epw"]> ∅)
     bucket_two_artifacts "output_idf_files/RCP8.5_E12_2020.idf" "RCP8.5_E12_2020.idf").1
  ≠ Ok Processed ∧
  (try_artifact decimal_float plain_reader sql_engine
     (<[("RCP85", 2020) := "weather/epw/Rotterdam_RCP85_2020.epw"]> ∅)
     bucket_two_artifacts "output_idf_files/RCP8.5_E12_2020.idf" "RCP8.5_E12_2020.idf").2
  = bucket_two_artifacts.
Proof.
  apply (early_year_is_never_processed decimal_float plain_reader sql_engine
           (<[("RCP85", 2020) := "weather/epw/Rotterdam_RCP85_2020.epw"]> ∅)
           bucket_two_artifacts "output_idf_files/RCP8.5_E12_2020.idf" "RCP8.5_E12_2020.idf"
           "RCP8.5" "E12" 2020).
  - vm_compute. reflexivity.
  - reflexivity.
Defined.

(** ** The result workbooks: rows, and what a write stores *)

Lemma all_year_rows_filled : forallb year_row_filled (seq 0 60) = true.
Proof. vm_compute. reflexivity. Qed.

Lemma row_for_year_inside year :
  YEARS_START ≤ year ≤ YEARS_END →
  _row_for_year year = Ok (Z.to_nat (3 + (year - YEARS_START))).
Proof.
  intros Hy. unfold _row_for_year.
  assert ((year <? YEARS_START) || (year >? YEARS_END) = false) as ->; [|done].
  rewrite Z.gtb_ltb. apply orb_false_iff. split; apply Z.ltb_ge; lia.
Qed.

(** X10. The rows of the years: for a year from 2025 to 2084 [_row_for_year]
    returns the row 3 + (year - 2025), between 3 and 62, and the fresh
    workbook holds that year in the first column of that row; two years
    never share a row. *)
Theorem year_rows_agree (year : Z) :
  YEARS_START ≤ year ≤ YEARS_END →
  ∃ row, _row_for_year year = Ok row ∧ (3 ≤ row ≤ 62)%nat ∧
    _init_workbook !! (row, 1%nat) = Some (Some (VInt year)) ∧
    ∀ year', _row_for_year year' = Ok row → year' = year.
Proof.
  intros Hy. pose proof all_year_rows_filled as Hall.
  rewrite forallb_forall in Hall.
  assert (Hk : In (Z.to_nat (year - YEARS_START)) (seq 0 60)).
  { apply in_seq. unfold YEARS_START, YEARS_END in *. lia. }
  apply Hall in Hk. unfold year_row_filled in Hk.
  replace (YEARS_START + Z.of_nat (Z.to_nat (year - YEARS_START))) with year in Hk by lia.
  rewrite (row_for_year_inside year Hy) in Hk |- *.
  apply andb_true_iff in Hk as [_ Hk].
  eexists. split; [done|]. split; [unfold YEARS_START, YEARS_END in *; lia|]. split.
  - destruct (_init_workbook !! _) as [[[| y |]|]|]; try done. by apply Z.eqb_eq in Hk as ->.
  - intros year'. unfold _row_for_year.
    destruct ((year' <? YEARS_START) || (year' >? YEARS_END)) eqn:Hy'; [done|].
    apply orb_false_iff in Hy' as [Hlo%Z.ltb_ge Hhi]. intros [= Heq].
    unfold YEARS_START, YEARS_END in *. lia.
Qed.

Lemma year_rows_agree_witness :
  ∃ row, _row_for_year 2084 = Ok row ∧ (3 ≤ row ≤ 62)%nat ∧
    _init_workbook !! (row, 1%nat) = Some (Some (VInt 2084)) ∧
    ∀ year', _row_for_year year' = Ok row → year' = 2084.
Proof. apply (year_rows_agree 2084). unfold YEARS_START, YEARS_END. lia. Defined.

Lemma saved_lookup ws k :
  saved ws !! k = match mjoin (ws !! k) with
                  | Some v => Some (Some v)
                  | None => None
                  end.
Proof.
  unfold saved. destruct (ws !! k) as [[v|]|] eqn:Hk; cbn.
  - by rewrite (map_lookup_filter_Some_2 _ _ _ _ Hk).
  - rewrite map_lookup_filter_None_2; [done|]. right. intros x Hx [y Hy]. simpl in Hy. congruence.
  - rewrite map_lookup_filter_None_2; [done|]. by left.
Qed.

(** What is saved depends on the values of the cells only. *)
Lemma saved_ext ws ws' : (∀ k, mjoin (ws !! k) = mjoin (ws' !! k)) → saved ws = saved ws'.
Proof. intros Hval. apply map_eq. intros k. by rewrite !saved_lookup, Hval. Qed.

Lemma py_range_split a b c : (a ≤ b ≤ c)%nat → py_range a c = py_range a b ++ py_range b c.
Proof.
  intros Habc. unfold py_range. replace (c - a)%nat with ((b - a) + (c - b))%nat by lia.
  rewrite seq_app. do 2 f_equal. lia.
Qed.

(** What [_col_for_pair] does to the cells of a sheet: the values that were
    there stay, and the values that are new are the two header cells of the
    column it returns. *)
Lemma col_for_pair_cells ws climate aging col ws1 :
  _col_for_pair ws climate aging = Ok (col, ws1) →
  (2 ≤ col)%nat ∧
  (∀ k, is_Some (mjoin (ws !! k)) → mjoin (ws1 !! k) = mjoin (ws !! k)) ∧
  (∀ k v, mjoin (ws1 !! k) = Some v →
     mjoin (ws !! k) = Some v ∨ (k = (1, col)%nat ∧ v = VStr climate)
     ∨ (k = (2, col)%nat ∧ v = VStr aging)).
Proof.
  unfold _col_for_pair.
  pose proof (max_column_pos ws) as Hpos.
  assert ((max_column ws =? 0)%nat = false) as -> by (apply Nat.eqb_neq; lia).
  destruct (scan_columns climate aging (py_range 2 (max_column ws + 1)) ws)
    as [[found ws']|e] eqn:Hscan; cbn -[Nat.leb]; [|done].
  assert (max_column ws' = max_column ws) as Hmax.
  { apply (scan_columns_max _ _ _ _ _ _ Hscan), Forall_forall.
    intros c Hc%py_range_elem. lia. }
  pose proof (scan_columns_values _ _ _ _ _ _ Hscan) as Hval.
  destruct found as [c|].
  - intros [= <- <-].
    apply scan_columns_found in Hscan as [Hc%py_range_elem _].
    split; [lia|]. split; [by intros; rewrite Hval|].
    intros k v Hk. left. by rewrite <-Hval.
  - unfold ws_set.
    set (n := if (2 <=? max_column ws)%nat then (max_column ws + 1)%nat else 2%nat).
    intros [= <- <-].
    assert (max_column ws < n ∧ 2 ≤ n)%nat as [Hn Hn2].
    { unfold n. destruct (2 <=? max_column ws)%nat eqn:Hle; [apply Nat.leb_le in Hle; lia|].
      apply Nat.leb_gt in Hle. lia. }
    split; [done|]. split.
    + intros k [v Hk]. rewrite <-Hval in Hk.
      assert (k.2 ≤ max_column ws')%nat as Hle.
      { destruct (ws' !! k) as [x|] eqn:Hx; [|done].
        pose proof (widest_ge _ _ _ Hx). unfold max_column. lia. }
      rewrite !lookup_insert_ne, Hval; [done|..]; intros <-; cbn in Hle; lia.
    + intros k v. destruct (decide (k = (2, n)%nat)) as [->|Hne2].
      { rewrite lookup_insert_eq. cbn. intros [= <-]. auto. }
      rewrite lookup_insert_ne by done.
      destruct (decide (k = (1, n)%nat)) as [->|Hne1].
      { rewrite lookup_insert_eq. cbn. intros [= <-]. auto. }
      rewrite lookup_insert_ne, Hval by done. auto.
Qed.

(** Whether and where the scan finds the pair depends on the header values
    only. *)
Lemma scan_columns_found_values climate aging cols ws w2 :
  (∀ col row, col ∈ cols → (row = 1 ∨ row = 2)%nat →
     mjoin (w2 !! (row, col)) = mjoin (ws !! (row, col))) →
  fst <$> scan_columns climate aging cols w2 = fst <$> scan_columns climate aging cols ws.
Proof.
  revert ws w2. induction cols as [|c cols IH]; intros ws w2 Hval; [done|].
  rewrite !scan_columns_step. rewrite !Hval by (auto; apply elem_of_cons; by left).
  destruct (header_text (mjoin (ws !! (1, c)%nat))) as [c1|]; simpl; [|done].
  destruct (header_text (mjoin (ws !! (2, c)%nat))) as [c2|]; simpl; [|done].
  destruct (String.eqb c1 climate && String.eqb c2 aging); [done|].
  apply IH. intros col row Hcol Hrow. rewrite !get_cell_values.
  apply Hval; [apply elem_of_cons; by right|done].
Qed.

(** The column of a pair is the same on every sheet with the same header
    values that is wide enough to hold it. *)
Lemma col_for_pair_stored ws climate aging col ws1 w2 :
  str_strip climate = climate → str_strip aging = aging →
  _col_for_pair ws climate aging = Ok (col, ws1) →
  (∀ k, (k.1 = 1 ∨ k.1 = 2)%nat → mjoin (w2 !! k) = mjoin (ws1 !! k)) →
  (col ≤ max_column w2)%nat →
  ∃ w2', _col_for_pair w2 climate aging = Ok (col, w2')
         ∧ ∀ k, mjoin (w2' !! k) = mjoin (w2 !! k).
Proof.
  intros Hcl Hag Hcol Hval Hwide.
  destruct (col_for_pair_twice _ _ _ _ _ Hcl Hag Hcol) as (Htwice & [Hc2 Hcmax] & Hpair & _).
  assert (Hfirst : ∃ w, scan_columns climate aging (py_range 2 (col + 1)) ws1 = Ok (Some col, w)).
  { revert Htwice. unfold _col_for_pair.
    pose proof (max_column_pos ws1) as Hpos.
    assert ((max_column ws1 =? 0)%nat = false) as -> by (apply Nat.eqb_neq; lia).
    rewrite (py_range_split 2 (col + 1) (max_column ws1 + 1)) by lia.
    rewrite scan_columns_app.
    destruct (scan_columns climate aging (py_range 2 (col + 1)) ws1)
      as [[[c|] w]|e] eqn:Hscan; cbn -[Nat.leb]; [| |done].
    - intros [= -> ->]. by eexists.
    - destruct (scan_columns_none _ _ _ _ _ Hscan col); [apply py_range_elem; lia|done]. }
  destruct Hfirst as [w Hfirst].
  pose proof (max_column_pos w2) as Hpos2.
  unfold _col_for_pair.
  assert ((max_column w2 =? 0)%nat = false) as -> by (apply Nat.eqb_neq; lia).
  rewrite (py_range_split 2 (col + 1) (max_column w2 + 1)) by lia.
  rewrite scan_columns_app.
  pose proof (scan_columns_found_values climate aging (py_range 2 (col + 1)) ws1 w2) as Hsame.
  rewrite Hfirst in Hsame.
  assert (Hsame' := Hsame (λ c row _ Hrow, Hval (row, c) Hrow)). clear Hsame.
  destruct (scan_columns climate aging (py_range 2 (col + 1)) w2)
    as [[found w2']|e] eqn:Hscan2; [|done].
  cbn in Hsame'. injection Hsame' as ->.
  cbn. exists w2'. split; [done|]. by apply (scan_columns_values _ _ _ _ _ _ Hscan2).
Qed.

Lemma row_for_year_ok year row :
  _row_for_year year = Ok row →
  YEARS_START ≤ year ≤ YEARS_END ∧ row = Z.to_nat (3 + (year - YEARS_START)) ∧ (3 ≤ row)%nat.
Proof.
  unfold _row_for_year.
  destruct ((year <? YEARS_START) || (year >? YEARS_END)) eqn:Hy; [done|].
  rewrite Z.gtb_ltb in Hy. apply orb_false_iff in Hy as [Hlo%Z.ltb_ge Hhi%Z.ltb_ge].
  intros [= <-]. unfold YEARS_START, YEARS_END in *. split_and!; lia.
Qed.

(** A write that returns: the workbook it loaded, the column and the row it
    resolved, and the workbook it stored. *)
Lemma write_result_stored (b : bucket) key climate aging year value b' :
  write_result_to_s3 b key climate aging year (Some value) = (Ok (), b') →
  ∃ ws col ws1 row,
    _download_workbook_or_create b key = Ok ws ∧
    _col_for_pair ws climate aging = Ok (col, ws1) ∧
    _row_for_year year = Ok row ∧
    b' = <[key := Xlsx (saved (ws_set ws1 row col (VFloat value)))]> b.
Proof.
  unfold write_result_to_s3.
  destruct (_download_workbook_or_create b key) as [ws|e] eqn:Hd; cbn; [|done].
  destruct (_col_for_pair ws climate aging) as [[col ws1]|e] eqn:Hc; cbn; [|done].
  destruct (_row_for_year year) as [row|e] eqn:Hr; cbn; [|done].
  intros [= <-]. by exists ws, col, ws1, row.
Qed.

Lemma write_result_unfold (b : bucket) key climate aging year value ws col ws1 row :
  _download_workbook_or_create b key = Ok ws →
  _col_for_pair ws climate aging = Ok (col, ws1) →
  _row_for_year year = Ok row →
  write_result_to_s3 b key climate aging year (Some value)
  = (Ok (), <[key := Xlsx (saved (ws_set ws1 row col (VFloat value)))]> b).
Proof. intros Hd Hc Hr. unfold write_result_to_s3. rewrite Hd. cbn. rewrite Hc. cbn. by rewrite Hr. Qed.

Lemma stored_cells ws1 row col value k :
  mjoin (saved (ws_set ws1 row col (VFloat value)) !! k)
  = if decide (k = (row, col)) then Some (VFloat value) else mjoin (ws1 !! k).
Proof.
  rewrite saved_values. unfold ws_set. destruct (decide (k = (row, col))) as [->|Hne].
  - by rewrite lookup_insert_eq.
  - by rewrite lookup_insert_ne.
Qed.

Lemma lookup_value (ws : worksheet) k v : ws !! k = Some (Some v) → mjoin (ws !! k) = Some v.
Proof. by intros ->. Qed.

Lemma saved_value ws k v : saved ws !! k = Some (Some v) ↔ mjoin (ws !! k) = Some v.
Proof. rewrite saved_lookup. destruct (mjoin (ws !! k)); naive_solver. Qed.

(** The column [_col_for_pair] returns: no column of the sheet before it
    has the pair, and it is a column of the sheet that has the pair, or the
    column right of the last one, with the pair written into its header
    cells. *)
Lemma col_for_pair_column ws climate aging col ws1 :
  _col_for_pair ws climate aging = Ok (col, ws1) →
  (∀ c, (2 ≤ c < col)%nat → (c ≤ max_column ws)%nat →
        header_pair ws c ≠ Ok (climate, aging)) ∧
  (((col ≤ max_column ws)%nat ∧ header_pair ws col = Ok (climate, aging)) ∨
   (col = (max_column ws + 1)%nat ∧
    mjoin (ws1 !! (1, col)%nat) = Some (VStr climate) ∧
    mjoin (ws1 !! (2, col)%nat) = Some (VStr aging))).
Proof.
  unfold _col_for_pair.
  pose proof (max_column_pos ws) as Hpos.
  assert ((max_column ws =? 0)%nat = false) as -> by (apply Nat.eqb_neq; lia).
  destruct (scan_columns climate aging (py_range 2 (max_column ws + 1)) ws)
    as [[[c|] ws']|e] eqn:Hscan; cbn -[Nat.leb]; [| |done].
  - intros [= <- <-].
    apply scan_columns_found in Hscan as Hfound. destruct Hfound as [Hc%py_range_elem Hp].
    split; [|left; split; [lia|done]].
    revert Hscan. rewrite (py_range_split 2 c (max_column ws + 1)) by lia.
    rewrite scan_columns_app.
    destruct (scan_columns climate aging (py_range 2 c) ws)
      as [[[c'|] w]|e] eqn:Hscan1; [| |done].
    + intros [= -> _]. apply scan_columns_found in Hscan1 as [Hc'%py_range_elem _]. lia.
    + intros _ c' Hc' _. apply (scan_columns_none _ _ _ _ _ Hscan1). apply py_range_elem. lia.
  - unfold ws_set.
    assert ((if (2 <=? max_column ws)%nat then (max_column ws + 1)%nat else 2%nat)
            = (max_column ws + 1)%nat) as ->.
    { destruct (2 <=? max_column ws)%nat eqn:Hle; [done|]. apply Nat.leb_gt in Hle. lia. }
    intros [= <- <-]. split.
    + intros c Hc Hmax. apply (scan_columns_none _ _ _ _ _ Hscan). apply py_range_elem. lia.
    + right. split; [done|]. rewrite lookup_insert_ne by done.
      by rewrite !lookup_insert_eq.
Qed.

(** X11. What a write changes in the workbook: it stores the value in the
    cell of the year's row and the pair's column, which is the first column
    of the sheet, from the second on, whose two header cells read the
    scenario and the aging code, or else the column right of the last one,
    which gets the two as its header cells; it keeps every other value the
    workbook held, and adds no value but these two header cells. *)
Theorem write_result_keeps_other_cells (b : bucket) (key climate aging : string) (year : Z)
    (value : float) (b' : bucket) :
  write_result_to_s3 b key climate aging year (Some value) = (Ok (), b') →
  ∃ ws ws' row col,
    _download_workbook_or_create b key = Ok ws ∧ b' = <[key := Xlsx ws']> b ∧
    _row_for_year year = Ok row ∧ (2 ≤ col)%nat ∧
    (∀ c, (2 ≤ c < col)%nat → (c ≤ max_column ws)%nat →
          header_pair ws c ≠ Ok (climate, aging)) ∧
    (((col ≤ max_column ws)%nat ∧ header_pair ws col = Ok (climate, aging)) ∨
     (col = (max_column ws + 1)%nat ∧
      ws' !! (1, col)%nat = Some (Some (VStr climate)) ∧
      ws' !! (2, col)%nat = Some (Some (VStr aging)))) ∧
    ws' !! (row, col) = Some (Some (VFloat value)) ∧
    (∀ k v, k ≠ (row, col) → ws !! k = Some (Some v) → ws' !! k = Some (Some v)) ∧
    (∀ k v, k ≠ (row, col) → ws' !! k = Some (Some v) →
       ws !! k = Some (Some v) ∨ (k = (1, col)%nat ∧ v = VStr climate)
       ∨ (k = (2, col)%nat ∧ v = VStr aging)).
Proof.
  intros (ws & col & ws1 & row & Hd & Hc & Hr & ->)%write_result_stored.
  destruct (col_for_pair_cells _ _ _ _ _ Hc) as (Hcol & Hkeep & Hnew).
  destruct (col_for_pair_column _ _ _ _ _ Hc) as (Hfirst & Hpair).
  destruct (row_for_year_ok _ _ Hr) as (_ & _ & Hrow).
  eexists ws, _, row, col. split_and!; [done|done|done|done|done| | | |].
  - destruct Hpair as [Hfound|(Hlast & Hh1 & Hh2)]; [by left|right].
    split; [done|]. split; apply saved_value; rewrite <-saved_values, stored_cells;
      (rewrite decide_False by (intros [= <-]; lia)); done.
  - apply saved_value. rewrite <-saved_values, stored_cells. by rewrite decide_True.
  - intros k v Hk Hv. apply saved_value. rewrite <-saved_values, stored_cells.
    rewrite decide_False by done. rewrite Hkeep; by rewrite Hv.
  - intros k v Hk Hv%saved_value. rewrite <-saved_values, stored_cells in Hv.
    rewrite decide_False in Hv by done.
    destruct (Hnew k v Hv) as [Hold|Hheader]; [|by right].
    left. destruct (ws !! k) as [[x|]|]; cbn in Hold; by simplify_eq.
Qed.

Lemma write_result_keeps_other_cells_witness :
  ∃ ws ws' row col,
    _download_workbook_or_create ∅ TOTAL_XLSX_KEY = Ok ws ∧
    <[TOTAL_XLSX_KEY := Xlsx (saved (ws_set
        (ws_set (ws_set _init_workbook 1 2 (VStr "RCP85")) 2 2 (VStr "E12")) 8 2
        (VFloat 125000.5)))]> ∅ = <[TOTAL_XLSX_KEY := Xlsx ws']> (∅ : bucket) ∧
    _row_for_year 2030 = Ok row ∧ (2 ≤ col)%nat ∧
    (∀ c, (2 ≤ c < col)%nat → (c ≤ max_column ws)%nat →
          header_pair ws c ≠ Ok ("RCP85", "E12")) ∧
    (((col ≤ max_column ws)%nat ∧ header_pair ws col = Ok ("RCP85", "E12")) ∨
     (col = (max_column ws + 1)%nat ∧
      ws' !! (1, col)%nat = Some (Some (VStr "RCP85")) ∧
      ws' !! (2, col)%nat = Some (Some (VStr "E12")))) ∧
    ws' !! (row, col) = Some (Some (VFloat 125000.5)) ∧
    (∀ k v, k ≠ (row, col) → ws !! k = Some (Some v) → ws' !! k = Some (Some v)) ∧
    (∀ k v, k ≠ (row, col) → ws' !! k = Some (Some v) →
       ws !! k = Some (Some v) ∨ (k = (1, col)%nat ∧ v = VStr "RCP85")
       ∨ (k = (2, col)%nat ∧ v = VStr "E12")).
Proof.
  apply (write_result_keeps_other_cells ∅ TOTAL_XLSX_KEY "RCP85" "E12" 2030 125000.5%float).
  reflexivity.
Defined.

(** The workbook a write loads, under a key that holds a result workbook or
    nothing. *)
Lemma stored_headers_textual ws climate aging col ws1 row value :
  textual_headers ws → _col_for_pair ws climate aging = Ok (col, ws1) → (3 ≤ row)%nat →
  textual_headers (saved (ws_set ws1 row col (VFloat value))).
Proof.
  intros Htext Hc Hrow r c v Hr Hc2 Hv%saved_value.
  rewrite <-saved_values, stored_cells in Hv.
  rewrite decide_False in Hv by (intros [= -> _]; lia).
  destruct (col_for_pair_cells _ _ _ _ _ Hc) as (_ & _ & Hnew).
  destruct (Hnew _ _ Hv) as [Hold|[[_ ->]|[_ ->]]]; [|done..].
  apply (Htext r c v Hr Hc2). destruct (ws !! (r, c)) as [[x|]|]; cbn in Hold; by simplify_eq.
Qed.

(** Resolving the pair again on the workbook a write has stored. *)
Lemma stored_column ws climate aging col ws1 row value :
  str_strip climate = climate → str_strip aging = aging →
  _col_for_pair ws climate aging = Ok (col, ws1) → (3 ≤ row)%nat →
  ∃ w2, _col_for_pair (saved (ws_set ws1 row col (VFloat value))) climate aging = Ok (col, w2)
        ∧ ∀ k, mjoin (w2 !! k) = mjoin (saved (ws_set ws1 row col (VFloat value)) !! k).
Proof.
  intros Hcl Hag Hc Hrow.
  apply (col_for_pair_stored ws climate aging col ws1); [done..| |].
  - intros [r c] Hr. rewrite stored_cells. rewrite decide_False; [done|].
    cbn in Hr. intros [= -> _]. lia.
  - assert (Hv : saved (ws_set ws1 row col (VFloat value)) !! (row, col)
                 = Some (Some (VFloat value))).
    { apply saved_value. rewrite <-saved_values, stored_cells. by rewrite decide_True. }
    apply widest_ge in Hv. cbn in Hv. unfold max_column. lia.
Qed.

(** X12. A result that was written is found again: under a key that holds a
    result workbook or nothing, a write for a year from 2025 to 2084 returns,
    the key then holds a result workbook, and resolving the same scenario
    and aging code on that workbook leads to the cell that holds the
    value. *)
Theorem write_result_reads_back (b : bucket) (key climate aging : string) (year : Z)
    (value : float) :
  str_strip climate = climate → str_strip aging = aging →
  YEARS_START ≤ year ≤ YEARS_END → result_matrix_at b key →
  ∃ ws' col row w2,
    write_result_to_s3 b key climate aging year (Some value)
    = (Ok (), <[key := Xlsx ws']> b) ∧
    result_matrix_at (<[key := Xlsx ws']> b) key ∧
    _col_for_pair ws' climate aging = Ok (col, w2) ∧ _row_for_year year = Ok row ∧
    ws' !! (row, col) = Some (Some (VFloat value)).
Proof.
  intros Hcl Hag Hy Hb.
  destruct (download_result_matrix b key Hb) as (ws & Hd & Htext).
  destruct (col_for_pair_textual ws climate aging Htext) as (col & ws1 & Hc).
  pose proof (row_for_year_inside year Hy) as Hr.
  destruct (row_for_year_ok _ _ Hr) as (_ & _ & Hrow).
  destruct (stored_column ws climate aging col ws1 _ value Hcl Hag Hc Hrow) as (w2 & Hw2 & _).
  eexists _, col, _, w2. split_and!.
  - by apply (write_result_unfold b key climate aging year value ws col ws1).
  - unfold result_matrix_at. rewrite lookup_insert_eq. by eapply stored_headers_textual.
  - done.
  - done.
  - apply saved_value. rewrite <-saved_values, stored_cells. by rewrite decide_True.
Qed.

Lemma write_result_reads_back_witness :
  ∃ ws' col row w2,
    write_result_to_s3 ∅ TOTAL_XLSX_KEY "RCP85" "E12" 2030 (Some 125000.5%float)
    = (Ok (), <[TOTAL_XLSX_KEY := Xlsx ws']> ∅) ∧
    result_matrix_at (<[TOTAL_XLSX_KEY := Xlsx ws']> ∅) TOTAL_XLSX_KEY ∧
    _col_for_pair ws' "RCP85" "E12" = Ok (col, w2) ∧ _row_for_year 2030 = Ok row ∧
    ws' !! (row, col) = Some (Some (VFloat 125000.5)).
Proof.
  apply (write_result_reads_back ∅ TOTAL_XLSX_KEY "RCP85" "E12" 2030 125000.5%float).
  - reflexivity.
  - reflexivity.
  - unfold YEARS_START, YEARS_END. lia.
  - unfold result_matrix_at. rewrite lookup_empty. exact I.
Defined.

(** X13. The cell is overwritten: for a scenario and an aging code without
    surrounding whitespace, after a write that returned, a second write for
    the same scenario, aging code and year leaves the bucket exactly as if it
    had been the only one. In particular writing the same value twice is
    writing it once. *)
Theorem repeated_write_overwrites (b b1 : bucket) (key climate aging : string) (year : Z)
    (v1 v2 : float) :
  str_strip climate = climate → str_strip aging = aging →
  write_result_to_s3 b key climate aging year (Some v1) = (Ok (), b1) →
  write_result_to_s3 b1 key climate aging year (Some v2)
  = write_result_to_s3 b key climate aging year (Some v2).
Proof.
  intros Hcl Hag (ws & col & ws1 & row & Hd & Hc & Hr & ->)%write_result_stored.
  destruct (row_for_year_ok _ _ Hr) as (_ & _ & Hrow).
  destruct (stored_column ws climate aging col ws1 row v1 Hcl Hag Hc Hrow) as (w2 & Hw2 & Hval).
  rewrite (write_result_unfold b key climate aging year v2 ws col ws1 row) by done.
  rewrite (write_result_unfold _ key climate aging year v2
             (saved (ws_set ws1 row col (VFloat v1))) col w2 row); [| |done..].
  - rewrite insert_insert_eq. do 3 f_equal. apply saved_ext. intros k.
    rewrite <-(saved_values (ws_set w2 row col (VFloat v2))),
      <-(saved_values (ws_set ws1 row col (VFloat v2))), !stored_cells.
    destruct (decide (k = (row, col))); [done|].
    rewrite Hval, stored_cells. by rewrite decide_False.
  - unfold _download_workbook_or_create, object_exists.
    rewrite lookup_insert_eq. by rewrite bool_decide_eq_true_2 by eauto.
Qed.

Lemma repeated_write_witness :
  write_result_to_s3
    (write_result_to_s3 ∅ TOTAL_XLSX_KEY "RCP85" "E12" 2030 (Some 1%float)).2
    TOTAL_XLSX_KEY "RCP85" "E12" 2030 (Some 125000.5%float)
  = write_result_to_s3 ∅ TOTAL_XLSX_KEY "RCP85" "E12" 2030 (Some 125000.5%float).
Proof.
  apply (repeated_write_overwrites ∅ _ TOTAL_XLSX_KEY "RCP85" "E12" 2030 1%float 125000.5%float).
  - reflexivity.
  - reflexivity.
  - vm_compute. reflexivity.
Defined.

(** ** The run records: removal, and one execution at a time *)

Section AdapterLifecycle.

Context (fn : bucket → result summary * bucket).

Lemma removed_step run_id s ev :
  removed run_id s → admissible ev s → removed run_id (step fn ev s).
Proof.
  intros [Hnone Hissued] Hadm. destruct ev as [rid|rid config|rid|rid|rid|t].
  - simpl in Hadm. assert (rid ≠ run_id) by congruence.
    split; simpl; [by rewrite lookup_insert_ne|set_solver].
  - split; [|done]. simpl. unfold initialise_run.
    destruct (sys_runs s !! rid) as [r0|] eqn:Hr0; [|done].
    case_bool_decide; [|done]. simpl.
    rewrite lookup_insert_ne; [done|congruence].
  - rewrite step_start. unfold start_run.
    destruct (sys_runs s !! rid) as [r0|] eqn:Hr0; simpl; [|by split].
    case_bool_decide; simpl; [by split|].
    split; [|done]. simpl. rewrite lookup_insert_ne; [done|congruence].
  - done.
  - split; [|done]. simpl. unfold remove_run.
    destruct (decide (rid = run_id)) as [->|Hne];
      [by rewrite lookup_delete_eq|by rewrite lookup_delete_ne].
  - rewrite step_thread. destruct (sys_threads s !! t) as [rid|] eqn:Ht; [|by split].
    split; [|done]. simpl. unfold _exec_run.
    destruct (fn (sys_bucket s)) as [[out|e] b']; simpl.
    + destruct (sys_runs s !! rid) eqn:Hr; [|done]. rewrite lookup_insert_ne; [done|congruence].
    + destruct (is_Exception (exn_class e)); simpl; [|done].
      destruct (sys_runs s !! rid) eqn:Hr; [|done]. rewrite lookup_insert_ne; [done|congruence].
Qed.

Lemma removed_forever run_id evs s :
  removed run_id s → admissible_all fn evs s → removed run_id (run_events fn evs s).
Proof.
  revert s. induction evs as [|ev evs IH]; intros s Hrem Hadm; [done|].
  destruct Hadm as [Hadm Hrest]. simpl. apply IH; [|done]. by apply removed_step.
Qed.

(** X14. A removed run stays removed. Once [remove_run] has dropped the
    record of a run, nothing brings it back: not a later [create_run], whose
    identifier is new, nor the run's own thread if it was still to end, which
    finds no record and records nothing, though the batch it runs still
    works on the bucket. Every later status query raises [KeyError]. *)
Theorem removed_run_stays_removed (s : system) (run_id : string) (r : run) (evs : list event) :
  reachable fn s → sys_runs s !! run_id = Some r →
  admissible_all fn evs (step fn (Remove run_id) s) →
  get_run run_id (sys_runs (run_events fn evs (step fn (Remove run_id) s)))
  = no_such_run run_id ∧
  ∀ t, sys_threads s !! t = Some run_id →
    sys_bucket (step fn (ThreadRuns t) (step fn (Remove run_id) s)) = (fn (sys_bucket s)).2.
Proof.
  intros Hreach Hr Hadm.
  pose proof (reachable_consistent _ s Hreach) as [_ _ _ Hri _].
  assert (Hrem : removed run_id (step fn (Remove run_id) s)).
  { split; simpl; [apply lookup_delete_eq|by eapply Hri]. }
  split.
  - destruct (removed_forever _ _ _ Hrem Hadm) as [Hnone _]. unfold get_run. by rewrite Hnone.
  - intros t Ht. rewrite step_thread. simpl. rewrite Ht. simpl.
    unfold _exec_run. destruct (fn (sys_bucket s)) as [[out|e] b']; [done|].
    by destruct (is_Exception (exn_class e)).
Qed.

(** X15. One execution at a time. In every state the adapter reaches, a
    run has at most one thread that is still to run, its record (if it was
    not removed) is RUNNING, and starting it again launches nothing and
    changes nothing. *)
Theorem one_execution_at_a_time (s : system) (run_id : string) (t : nat) :
  reachable fn s → sys_threads s !! t = Some run_id →
  (∀ t', sys_threads s !! t' = Some run_id → t' = t) ∧
  (∀ r, sys_runs s !! run_id = Some r → run_state r = RUNNING) ∧
  step fn (Start run_id) s = s.
Proof.
  intros Hreach Ht.
  pose proof (reachable_consistent _ s Hreach) as [_ Htr Htu _ _].
  split; [by intros t' Ht'; eapply Htu|]. split; [by intros r Hr; eapply Htr|].
  rewrite step_start. unfold start_run.
  destruct (sys_runs s !! run_id) as [r|] eqn:Hr; simpl; [|by destruct s].
  rewrite bool_decide_eq_true_2; [by destruct s|].
  rewrite (Htr _ _ _ Ht Hr). apply elem_of_cons. by left.
Qed.

End AdapterLifecycle.

Lemma one_run_started_reachable : reachable demo_fn one_run_started.
Proof. apply reachable_step; [exact one_run_reachable|exact I]. Defined.

Lemma removed_run_witness :
  get_run "run-1"
    (sys_runs (run_events demo_fn [ThreadRuns 0; Create "run-2"; Query "run-1"]
                 (step demo_fn (Remove "run-1") one_run_started)))
  = no_such_run "run-1" ∧
  ∀ t, sys_threads one_run_started !! t = Some "run-1" →
    sys_bucket (step demo_fn (ThreadRuns t) (step demo_fn (Remove "run-1") one_run_started))
    = (demo_fn (sys_bucket one_run_started)).2.
Proof.
  apply (removed_run_stays_removed demo_fn one_run_started "run-1"
           (Run RUNNING (JObj []) (Some 0%nat) None None)
           [ThreadRuns 0; Create "run-2"; Query "run-1"]).
  - exact one_run_started_reachable.
  - vm_compute. reflexivity.
  - split; [exact I|]. split; [|split; [exact I|exact I]].
    vm_compute. intros H. discriminate H.
Defined.

Lemma one_execution_witness :
  (∀ t', sys_threads one_run_started !! t' = Some "run-1" → t' = 0%nat) ∧
  (∀ r, sys_runs one_run_started !! "run-1" = Some r → run_state r = RUNNING) ∧
  step demo_fn (Start "run-1") one_run_started = one_run_started.
Proof.
  apply (one_execution_at_a_time demo_fn one_run_started "run-1" 0).
  - exact one_run_started_reachable.
  - vm_compute. reflexivity.
Defined.

(** ** The run records: a run over a bucket with artifacts *)

Section RunOverArtifacts.

Context (py_float : string → option float)
        (csv_reader : string → ascii → list (list string))
        (energyplus : s3_object → s3_object → engine_outcome)
        (cfg : settings).

Abbreviation the_batch := (run_energy_simulation_from_env py_float csv_reader energyplus cfg).

Lemma batch_returns_summary (b : bucket) (epw_key idf_key : string) :
  is_Some (b !! epw_key) → str_startswith (S3_EPW_PREFIX cfg) epw_key = true →
  is_Some (epw_entry epw_key) →
  is_Some (b !! idf_key) → str_startswith (S3_IDF_PREFIX cfg) idf_key = true →
  str_endswith ".idf" (str_lower idf_key) = true →
  ∃ out b', the_batch b = (Ok out, b') ∧
    (sum_success out + sum_failed out = sum_total out)%nat.
Proof.
  intros Hb Hp He Hbi Hpi Hei.
  destruct (weather_index_nonempty b _ _ Hb Hp He) as (idx & Hidx & Hne).
  assert (Hobjs : idf_objects cfg b ≠ []).
  { intros Hnil. assert (Hin : idf_key ∈ idf_objects cfg b) by by apply elem_of_idf_objects.
    rewrite Hnil in Hin. by apply elem_of_nil in Hin. }
  unfold run_energy_simulation_from_env. rewrite Hidx.
  rewrite bool_decide_eq_false_2 by done.
  fold (idf_objects cfg b). rewrite bool_decide_eq_false_2 by done.
  destruct (loop_fold_counts py_float csv_reader energyplus idx
              (merge_sort String.le (idf_objects cfg b)) (Tally 0 0 []) b)
    as (t & b' & -> & Hsum & _).
  eexists _, b'. split; [done|].
  cbn [successes failures] in Hsum. cbn [sum_total sum_success sum_failed].
  rewrite (Permutation_length (merge_sort_Permutation _ _)) in Hsum. lia.
Qed.


End RunOverArtifacts.

Lemma one_run_with_artifacts_reachable : reachable sql_fn one_run_with_artifacts.
Proof.
  apply reachable_step; [apply reachable_init|]. simpl. apply not_elem_of_empty.
Defined.


(** ** The batch: what a processed artifact leaves in the workbooks *)

(** How [_col_for_pair] came to its column: it found it among the columns
    of the sheet, the first with the pair, or it made it to the right of
    them. *)
Lemma col_for_pair_found_or_new ws climate aging col ws1 :
  _col_for_pair ws climate aging = Ok (col, ws1) →
  ((2 ≤ col ≤ max_column ws)%nat ∧
   (∃ w, scan_columns climate aging (py_range 2 (col + 1)) ws = Ok (Some col, w)) ∧
   (∀ k, mjoin (ws1 !! k) = mjoin (ws !! k))) ∨
  ((max_column ws < col)%nat ∧ ∀ k, k.2 ≠ col → mjoin (ws1 !! k) = mjoin (ws !! k)).
Proof.
  unfold _col_for_pair.
  pose proof (max_column_pos ws) as Hpos.
  assert ((max_column ws =? 0)%nat = false) as -> by (apply Nat.eqb_neq; lia).
  destruct (scan_columns climate aging (py_range 2 (max_column ws + 1)) ws)
    as [[found ws']|e] eqn:Hscan; cbn -[Nat.leb]; [|done].
  pose proof (scan_columns_values _ _ _ _ _ _ Hscan) as Hval.
  destruct found as [c|].
  - intros [= <- <-]. left.
    apply scan_columns_found in Hscan as Hfound. destruct Hfound as [Hc%py_range_elem Hp].
    split; [lia|]. split; [|done].
    revert Hscan. rewrite (py_range_split 2 (c + 1) (max_column ws + 1)) by lia.
    rewrite scan_columns_app.
    destruct (scan_columns climate aging (py_range 2 (c + 1)) ws)
      as [[[c'|] w]|e] eqn:Hscan1; [| |done].
    + intros [= -> _]. by eexists.
    + destruct (scan_columns_none _ _ _ _ _ Hscan1 c); [apply py_range_elem; lia|done].
  - unfold ws_set.
    set (n := if (2 <=? max_column ws)%nat then (max_column ws + 1)%nat else 2%nat).
    intros [= <- <-]. right.
    assert (max_column ws < n)%nat as Hn.
    { unfold n. destruct (2 <=? max_column ws)%nat eqn:Hle; [apply Nat.leb_le in Hle; lia|].
      apply Nat.leb_gt in Hle. lia. }
    split; [done|]. intros [r c] Hk. cbn in Hk.
    rewrite !lookup_insert_ne, Hval; [done|..]; congruence.
Qed.

(** The pair is found in the same column on every sheet that has the header
    values of the columns up to it and is wide enough. *)
Lemma col_found_on ws climate aging col w sheet :
  scan_columns climate aging (py_range 2 (col + 1)) ws = Ok (Some col, w) →
  (∀ r c, (r = 1 ∨ r = 2)%nat → (2 ≤ c ≤ col)%nat →
     mjoin (sheet !! (r, c)) = mjoin (ws !! (r, c))) →
  (2 ≤ col ≤ max_column sheet)%nat →
  ∃ sheet', _col_for_pair sheet climate aging = Ok (col, sheet')
            ∧ ∀ k, mjoin (sheet' !! k) = mjoin (sheet !! k).
Proof.
  intros Hfirst Hval Hcol.
  pose proof (max_column_pos sheet) as Hpos.
  unfold _col_for_pair.
  assert ((max_column sheet =? 0)%nat = false) as -> by (apply Nat.eqb_neq; lia).
  rewrite (py_range_split 2 (col + 1) (max_column sheet + 1)) by lia.
  rewrite scan_columns_app.
  pose proof (scan_columns_found_values climate aging (py_range 2 (col + 1)) ws sheet) as Hsame.
  rewrite Hfirst in Hsame.
  assert (Hsame' : fst <$> scan_columns climate aging (py_range 2 (col + 1)) sheet
                   = Ok (Some col)).
  { apply Hsame. intros c r Hc%py_range_elem Hr. apply Hval; [done|lia]. }
  destruct (scan_columns climate aging (py_range 2 (col + 1)) sheet)
    as [[found sheet']|e] eqn:Hscan2; [|done].
  cbn in Hsame'. injection Hsame' as ->.
  cbn. exists sheet'. split; [done|]. by apply (scan_columns_values _ _ _ _ _ _ Hscan2).
Qed.

(** A write that returns leaves a result for its pair and year. *)
Lemma write_result_recorded (b b' : bucket) key climate aging year value :
  str_strip climate = climate → str_strip aging = aging →
  write_result_to_s3 b key climate aging year (Some value) = (Ok (), b') →
  recorded b' key climate aging year.
Proof.
  intros Hcl Hag (ws & col & ws1 & row & Hd & Hc & Hr & ->)%write_result_stored.
  destruct (row_for_year_ok _ _ Hr) as (_ & _ & Hrow).
  destruct (stored_column ws climate aging col ws1 row value Hcl Hag Hc Hrow) as (w2 & Hw2 & _).
  eexists _, col, w2, row, value. split_and!; [apply lookup_insert_eq|done|done|].
  apply saved_value. rewrite <-saved_values, stored_cells. by rewrite decide_True.
Qed.

(** A result that is there survives every write, for the same cell with the
    new value, for another cell as it is. *)
Lemma write_result_keeps_recorded (b : bucket) key climate aging year
    key' climate' aging' year' value' :
  str_strip climate' = climate' → str_strip aging' = aging' →
  recorded b key climate aging year →
  recorded (write_result_to_s3 b key' climate' aging' year' value').2 key climate aging year.
Proof.
  intros Hcl Hag Hrec.
  destruct value' as [v'|]; [|done].
  destruct (write_result_cases b key' climate' aging' year' (Some v'))
    as [(e & -> & _)|[->|(sheet & Hw)]]; [done|done|].
  rewrite Hw. cbn [snd].
  destruct (decide (key' = key)) as [->|Hkey].
  2:{ destruct Hrec as (ws & col & w2 & row & v & Hb & Hrest).
      exists ws, col, w2, row, v. by rewrite lookup_insert_ne. }
  destruct (decide (climate' = climate ∧ aging' = aging ∧ year' = year)) as [(-> & -> & ->)|Hne].
  { by eapply write_result_recorded. }
  destruct Hrec as (ws & col & w2 & row & v & Hb & Hc & Hr & Hv).
  apply write_result_stored in Hw as (ws0 & col' & ws1' & row' & Hd & Hc' & Hr' & Hb').
  assert (ws0 = ws) as ->.
  { revert Hd. unfold _download_workbook_or_create, object_exists. rewrite Hb.
    rewrite bool_decide_eq_true_2 by eauto. by intros [= ->]. }
  rewrite Hb'.
  destruct (row_for_year_ok _ _ Hr) as (_ & Hrow_eq & Hrow).
  destruct (row_for_year_ok _ _ Hr') as (_ & Hrow_eq' & Hrow').
  (* the column of the result was found, not made *)
  assert (Hwide : (col ≤ max_column ws)%nat).
  { apply widest_ge in Hv. cbn in Hv. unfold max_column. lia. }
  destruct (col_for_pair_found_or_new _ _ _ _ _ Hc) as [(Hcol & [w Hfirst] & _)|[Hlt _]]; [|lia].
  (* the cell of the new write is another cell *)
  assert (Hcell : (row, col) ≠ (row', col')).
  { intros [= -> ->].
    assert (year' = year).
    { destruct (row_for_year_ok _ _ Hr) as (Hy & _). destruct (row_for_year_ok _ _ Hr') as (Hy' & _).
      unfold YEARS_START in *. lia. }
    destruct (col_for_pair_found_or_new _ _ _ _ _ Hc') as [(_ & [w' Hfirst'] & _)|[Hlt' _]]; [|lia].
    apply scan_columns_found in Hfirst as [_ Hp]. apply scan_columns_found in Hfirst' as [_ Hp'].
    rewrite Hp in Hp'. injection Hp' as -> ->. by destruct Hne. }
  (* the header values up to the column of the result are as before *)
  assert (Hheaders : ∀ r c, (r = 1 ∨ r = 2)%nat → (2 ≤ c ≤ col)%nat →
            mjoin (saved (ws_set ws1' row' col' (VFloat v')) !! (r, c)) = mjoin (ws !! (r, c))).
  { intros r c Hrc Hcc. rewrite stored_cells. rewrite decide_False by (intros [= -> _]; lia).
    destruct (col_for_pair_found_or_new _ _ _ _ _ Hc') as [(_ & _ & Hsame)|[Hlt' Hsame]].
    - apply Hsame.
    - apply Hsame. cbn. lia. }
  assert (Hv' : saved (ws_set ws1' row' col' (VFloat v')) !! (row, col) = Some (Some (VFloat v))).
  { apply saved_value. rewrite <-saved_values, stored_cells. rewrite decide_False by done.
    destruct (col_for_pair_cells _ _ _ _ _ Hc') as (_ & Hkeep & _).
    rewrite Hkeep; by rewrite Hv. }
  destruct (col_found_on ws climate aging col w _ Hfirst Hheaders) as (sheet' & Hsheet & _).
  { split; [lia|]. apply widest_ge in Hv'. cbn in Hv'. unfold max_column. lia. }
  eexists _, col, sheet', row, v. split_and!; [apply lookup_insert_eq|done|done|done].
Qed.

Lemma all_parts_plain :
  forallb scenario_plain dotted_scenarios
  && forallb (λ letter, forallb (aging_code_plain letter) (seq 0 30)) aging_letters = true.
Proof. vm_compute. reflexivity. Qed.

(** The parts of a name that parses have no whitespace around them. *)
Lemma parsed_parts_plain name rcp aging year :
  parse_idf_filename name = Ok (rcp, aging, year) →
  str_strip (map_rcp_dot_to_nodot rcp) = map_rcp_dot_to_nodot rcp ∧ str_strip aging = aging.
Proof.
  unfold parse_idf_filename.
  destruct (re_match true IDF_NAME_RE name) as [m|] eqn:Hm; [|done].
  destruct (idf_match_parts _ _ Hm)
    as (g1 & g2 & g3 & e1 & e2 & e3 & tail & H1 & H2 & H3 & _ & _ & _ & _
        & _ & Hg1 & (letter & n & Hl & Hn & Hg2) & (y & _ & Hint & _)).
  unfold group. rewrite H1, H2, H3. cbn. rewrite Hint. cbn. intros [= <- <- <-].
  pose proof all_parts_plain as [Hs Ha]%andb_true_iff.
  rewrite forallb_forall in Hs, Ha. split.
  - apply list_elem_of_In, Hs in Hg1. by apply String.eqb_eq in Hg1.
  - rewrite Hg2. apply list_elem_of_In, Ha in Hl. rewrite forallb_forall in Hl.
    assert (Hin : In n (seq 0 30)) by (apply in_seq; lia).
    apply Hl in Hin. by apply String.eqb_eq in Hin.
Qed.

Section RecordedResults.

Context (py_float : string → option float)
        (csv_reader : string → ascii → list (list string))
        (energyplus : s3_object → s3_object → engine_outcome).

Abbreviation artifact_of := (try_artifact py_float csv_reader energyplus).
Abbreviation loop_of := (loop_body py_float csv_reader energyplus).

(** The bucket after the [try] block: the two writes, as far as they got. *)
Lemma try_artifact_bucket (epw_index : epw_index_t) (b : bucket) idf_key name :
  (artifact_of epw_index b idf_key name).2 = b ∨
  ∃ rcp aging year t p,
    parse_idf_filename name = Ok (rcp, aging, year) ∧
    ((artifact_of epw_index b idf_key name).2
     = (write_result_to_s3 b TOTAL_XLSX_KEY (map_rcp_dot_to_nodot rcp) aging year t).2 ∨
     (artifact_of epw_index b idf_key name).2
     = (write_result_to_s3
          (write_result_to_s3 b TOTAL_XLSX_KEY (map_rcp_dot_to_nodot rcp) aging year t).2
          PERAREA_XLSX_KEY (map_rcp_dot_to_nodot rcp) aging year p).2).
Proof.
  unfold try_artifact.
  destruct (parse_idf_filename name) as [[[rcp aging] year]|e0] eqn:Hp; [|by left].
  destruct (epw_index !! (map_rcp_dot_to_nodot rcp, year)) as [[|c epw_key]|];
    [by left| |by left].
  match goal with
  | |- context [match ?st with Ok _ => _ | Raise _ => _ end] => destruct st as [[t p]|e0]
  end; [|by left].
  right. exists rcp, aging, year, t, p. split; [done|].
  destruct (write_result_to_s3 b TOTAL_XLSX_KEY _ aging year t) as [[[]|e1] b1]; [|by left].
  right. cbn [snd].
  by destruct (write_result_to_s3 b1 PERAREA_XLSX_KEY _ aging year p) as [[[]|e2] b2].
Qed.

Lemma try_artifact_keeps_recorded (epw_index : epw_index_t) (b : bucket) idf_key name
    key climate aging year :
  recorded b key climate aging year →
  recorded (artifact_of epw_index b idf_key name).2 key climate aging year.
Proof.
  intros Hrec.
  destruct (try_artifact_bucket epw_index b idf_key name)
    as [->|(rcp & ag & y & t & p & Hp & [-> | ->])]; [done|..];
    destruct (parsed_parts_plain _ _ _ _ Hp) as [Hcl Hag].
  - by apply write_result_keeps_recorded.
  - apply write_result_keeps_recorded; [done..|]. by apply write_result_keeps_recorded.
Qed.

(** An artifact that is processed leaves a result in one of the two
    workbooks. *)
Lemma try_artifact_records (epw_index : epw_index_t) (b b' : bucket) idf_key name :
  artifact_of epw_index b idf_key name = (Ok Processed, b') →
  ∃ rcp aging year,
    parse_idf_filename name = Ok (rcp, aging, year) ∧
    (recorded b' TOTAL_XLSX_KEY (map_rcp_dot_to_nodot rcp) aging year ∨
     recorded b' PERAREA_XLSX_KEY (map_rcp_dot_to_nodot rcp) aging year).
Proof.
  unfold try_artifact.
  destruct (parse_idf_filename name) as [[[rcp aging] year]|e0] eqn:Hp; [|done].
  destruct (parsed_parts_plain _ _ _ _ Hp) as [Hcl Hag].
  destruct (epw_index !! (map_rcp_dot_to_nodot rcp, year)) as [[|c epw_key]|]; [done| |done].
  match goal with
  | |- context [match ?st with Ok _ => _ | Raise _ => _ end] => destruct st as [[t p]|e0] eqn:Hst
  end; [|done].
  assert (Hnone : ¬ (t = None ∧ p = None)).
  { revert Hst. unfold download_to_file, run_energyplus.
    destruct (b !! idf_key); [|done]. destruct (b !! _); [|done].
    cbn -[fetch_metrics_any]. destruct (energyplus _ _) as [|rc out err d]; [done|].
    destruct (rc =? 0); [|done]. cbn -[fetch_metrics_any].
    destruct (outcome _) as [[[t' p'] src]|]; [|done]. cbn.
    case_bool_decide; [done|]. by intros [= <- <-]. }
  destruct (write_result_to_s3 b TOTAL_XLSX_KEY _ aging year t) as [[[]|e1] b1] eqn:Hw1; [|done].
  destruct (write_result_to_s3 b1 PERAREA_XLSX_KEY _ aging year p) as [[[]|e2] b2] eqn:Hw2;
    [|done].
  intros [= <-]. exists rcp, aging, year. split; [done|].
  destruct t as [t|].
  - left. replace b2 with (write_result_to_s3 b1 PERAREA_XLSX_KEY (map_rcp_dot_to_nodot rcp)
                             aging year p).2 by by rewrite Hw2.
    apply write_result_keeps_recorded; [done..|]. by eapply write_result_recorded.
  - destruct p as [p|]; [|by destruct Hnone].
    right. by eapply write_result_recorded.
Qed.

(** One pass of the loop, by what the [try] block did. *)
Lemma loop_body_cases (epw_index : epw_index_t) t (b : bucket) key t1 b1 :
  loop_of epw_index (Ok t, b) key = (Ok t1, b1) →
  (artifact_of epw_index b key (basename key) = (Ok Processed, b1)
   ∧ processed t1 = processed t ++ [key]) ∨
  (b1 = (artifact_of epw_index b key (basename key)).2 ∧ processed t1 = processed t).
Proof.
  unfold loop_body.
  destruct (artifact_of epw_index b key (basename key)) as [[[|]|e] b2].
  - intros [= <- <-]. by right.
  - intros [= <- <-]. by left.
  - destruct (is_Exception (exn_class e)); [|done]. intros [= <- <-]. by right.
Qed.

Lemma loop_keeps_recorded (epw_index : epw_index_t) l t (b : bucket) key climate aging year :
  recorded b key climate aging year →
  recorded (foldl (loop_of epw_index) (Ok t, b) l).2 key climate aging year.
Proof.
  revert t b. induction l as [|k l IH]; intros t b Hrec; [done|].
  cbn [foldl].
  destruct (loop_body_counts py_float csv_reader energyplus epw_index t b k)
    as (t1 & b1 & Heq & _).
  rewrite Heq. apply IH.
  destruct (loop_body_cases _ _ _ _ _ _ Heq) as [[Ha _]|[-> _]].
  - replace b1 with (artifact_of epw_index b k (basename k)).2 by by rewrite Ha.
    by apply try_artifact_keeps_recorded.
  - by apply try_artifact_keeps_recorded.
Qed.

Lemma loop_records (epw_index : epw_index_t) l t (b : bucket) t' b' key :
  foldl (loop_of epw_index) (Ok t, b) l = (Ok t', b') → key ∈ processed t' →
  key ∈ processed t ∨
  ∃ rcp aging year,
    parse_idf_filename (basename key) = Ok (rcp, aging, year) ∧
    (recorded b' TOTAL_XLSX_KEY (map_rcp_dot_to_nodot rcp) aging year ∨
     recorded b' PERAREA_XLSX_KEY (map_rcp_dot_to_nodot rcp) aging year).
Proof.
  revert t b. induction l as [|k l IH]; intros t b.
  { cbn. intros [= <- <-]. by left. }
  cbn [foldl].
  destruct (loop_body_counts py_float csv_reader energyplus epw_index t b k)
    as (t1 & b1 & Heq & _).
  rewrite Heq. intros Hfold Hkey.
  destruct (IH _ _ Hfold Hkey) as [Hin|Hrec]; [|by right].
  destruct (loop_body_cases _ _ _ _ _ _ Heq) as [[Ha Hp]|[_ Hp]]; rewrite Hp in Hin;
    [|by left].
  apply elem_of_app in Hin as [Hin|Hin]; [by left|].
  apply elem_of_cons in Hin as [->|Hin]; [|by apply elem_of_nil in Hin].
  right. destruct (try_artifact_records _ _ _ _ _ Ha) as (rcp & aging & year & Hparse & Hrec).
  exists rcp, aging, year. split; [done|].
  replace b' with (foldl (loop_of epw_index) (Ok t1, b1) l).2 by by rewrite Hfold.
  destruct Hrec as [Hrec|Hrec]; [left|right]; by apply loop_keeps_recorded.
Qed.

(** X17. No success without a result: when the batch returns its summary,
    every key it lists as processed is the key of an artifact whose name
    parses, and at the end of the batch one of the two result workbooks
    holds a number in the cell of that artifact's scenario, aging code and
    year, whatever the artifacts that came after it wrote. *)
Theorem processed_artifacts_are_recorded (cfg : settings) (b b' : bucket) (s : summary)
    (key : string) :
  run_energy_simulation_from_env py_float csv_reader energyplus cfg b = (Ok s, b') →
  key ∈ sum_processed s →
  ∃ rcp aging year,
    parse_idf_filename (basename key) = Ok (rcp, aging, year) ∧
    (recorded b' TOTAL_XLSX_KEY (map_rcp_dot_to_nodot rcp) aging year ∨
     recorded b' PERAREA_XLSX_KEY (map_rcp_dot_to_nodot rcp) aging year).
Proof.
  unfold run_energy_simulation_from_env.
  destruct (index_epws_s3 b (S3_EPW_PREFIX cfg)) as [idx|e]; [|done].
  case_bool_decide; [done|]. case_bool_decide; [done|].
  match goal with
  | |- context [foldl _ _ ?l] =>
      destruct (foldl (loop_of idx) (Ok (Tally 0 0 []), b) l) as [[t|e] b1] eqn:Hfold; [|done]
  end.
  intros [= <- <-]. cbn [sum_processed]. intros Hkey.
  assert (Hin : key ∈ processed t).
  { apply list_elem_of_lookup in Hkey as [i Hi]. apply lookup_take_Some in Hi as [Hi _].
    by eapply list_elem_of_lookup_2. }
  destruct (loop_records _ _ _ _ _ _ _ Hfold Hin) as [Hnil|Hrec]; [|done].
  by apply elem_of_nil in Hnil.
Qed.

End RecordedResults.

Lemma processed_artifacts_witness :
  ∃ rcp aging year,
    parse_idf_filename (basename "output_idf_files/RCP8.5_E12_2030.idf") = Ok (rcp, aging, year) ∧
    (recorded (sql_fn bucket_two_artifacts).2 TOTAL_XLSX_KEY (map_rcp_dot_to_nodot rcp) aging year ∨
     recorded (sql_fn bucket_two_artifacts).2 PERAREA_XLSX_KEY (map_rcp_dot_to_nodot rcp) aging year).
Proof.
  apply (processed_artifacts_are_recorded decimal_float plain_reader sql_engine default_settings
           bucket_two_artifacts (sql_fn bucket_two_artifacts).2
           (Summary "mmstore" "output_idf_files" "weather/epw" TOTAL_XLSX_KEY PERAREA_XLSX_KEY
              ["output_idf_files/RCP8.5_E12_2030.idf"] 1 1 2)
           "output_idf_files/RCP8.5_E12_2030.idf").
  - reflexivity.
  - apply elem_of_cons. left. reflexivity.
Defined.
